(** * unet2DModel: the class codec, the dataset loaders, the metrics and the
      training counter of [Unet2DModel], embedded shallowly.

    Source: StudProjects/team02/unet/unet_2D/unet2DModel.py

    Conventions of the embedding.
    - A numpy array is a nested list, outermost axis first.  Its shape is
      read off the lists, so an axis below an axis of length zero is not
      recorded.
    - Integer array entries are [Z]; a store into a [uint8] array wraps
      modulo 256, as numpy's unsafe cast does.
    - Python exceptions are values of [exn]; fallible code lives in the
      error monad [result].
    - Tensor entries of the Keras metrics are exact rationals, with the
      IEEE special values beside them; rounding of the floating-point
      formats is not modelled.
    - What imread, os.walk and model.fit answer is an input of the
      embedding: a file system for the loaders; for the training loop the
      exception [model.fit] raises or the validation losses it meets. *)

From stdpp Require Import base numbers list strings gmap.
From Stdlib Require Import ZArith QArith Qcanon Lia Lqa.

Close Scope Q_scope.
Close Scope Qc_scope.

Set Default Proof Using "Type".

(** ** Exceptions and the error monad *)

Inductive exn : Type :=
| BaseException (msg : string)        (* raised by the loaders *)
| ValueError                          (* numpy: shapes do not broadcast,
                                         argmax of an empty axis *)
| IndexError                          (* numpy: too many indices *)
| FileNotFoundError (path : string)   (* imread of a missing file *)
| StopIteration                       (* next() of an exhausted os.walk *)
| AttributeError.                     (* attribute read before assignment *)

Inductive result (A : Type) : Type :=
| Ok (a : A)
| Raise (e : exn).
Arguments Ok {A} a.
Arguments Raise {A} e.

#[global] Instance result_ret : MRet result := @Ok.
#[global] Instance result_bind : MBind result := fun A B f m =>
  match m with
  | Ok a => f a
  | Raise e => Raise e
  end.

(** [mapM] of the error monad, left to right. *)
Fixpoint traverse {A B} (f : A → result B) (l : list A) : result (list B) :=
  match l with
  | [] => Ok []
  | x :: l' => y ← f x; ys ← traverse f l'; Ok (y :: ys)
  end.

Fixpoint traverse2 {A B C} (f : A → B → result C)
    (xs : list A) (ys : list B) : result (list C) :=
  match xs, ys with
  | x :: xs', y :: ys' => z ← f x y; zs ← traverse2 f xs' ys'; Ok (z :: zs)
  | _, _ => Ok []
  end.

(** ** numpy helpers *)

Module np.

(** [np.zeros] / [np.ones] at one, two and three axes. *)
Definition full1 {A} (v : A) (d0 : nat) : list A := replicate d0 v.
Definition full2 {A} (v : A) (d0 d1 : nat) : list (list A) :=
  replicate d0 (full1 v d1).
Definition full3 {A} (v : A) (d0 d1 d2 : nat) : list (list (list A)) :=
  replicate d0 (full2 v d1 d2).

(** Binary elementwise operation along one axis with numpy's
    broadcasting rule: equal lengths pair up, an axis of length one is
    stretched, anything else is refused. *)
Definition bzip {A B C} (f : A → B → result C)
    (xs : list A) (ys : list B) : result (list C) :=
  if decide (length xs = length ys) then traverse2 f xs ys
  else match xs, ys with
       | [x], _ => traverse (f x) ys
       | _, [y] => traverse (λ x, f x y) xs
       | _, _ => Raise ValueError
       end.

(** Broadcasting of the right-hand side of an assignment to an axis of
    length [n]. *)
Definition bcast_to {A} (n : nat) (xs : list A) : result (list A) :=
  if decide (length xs = n) then Ok xs
  else match xs with
       | [x] => Ok (replicate n x)
       | _ => Raise ValueError
       end.

Definition bcast_to2 {A} (d0 d1 : nat) (a : list (list A))
    : result (list (list A)) :=
  rows ← traverse (bcast_to d1) a; bcast_to d0 rows.

(** [color * ones]: a tuple against an array of shape (d0,d1,d2); the
    tuple is aligned with the last axis. *)
Definition mul_tuple (color : list Z) (a : list (list (list Z)))
    : result (list (list (list Z))) :=
  traverse (traverse (bzip (λ x y, Ok (x * y)%Z) color)) a.

(** [np.equal] of two three-axis arrays. *)
Definition equal (a b : list (list (list Z)))
    : result (list (list (list bool))) :=
  bzip (bzip (bzip (λ x y, Ok (x =? y)%Z))) a b.

(** [np.all(_, axis=-1)]. *)
Definition all_last (a : list (list (list bool))) : list (list bool) :=
  map (map (forallb id)) a.

Definition get3 {A} (d : A) (a : list (list (list A))) (i j k : nat) : A :=
  nth k (nth j (nth i a []) []) d.

Definition tabulate {A} (n : nat) (f : nat → A) : list A := map f (seq 0 n).

(** [np.swapaxes(a, 0, 2)] and [np.swapaxes(a, 0, 1)] of an array whose
    shape is (d0,d1,d2). *)
Definition swapaxes_0_2 {A} (d : A) (d0 d1 d2 : nat)
    (a : list (list (list A))) : list (list (list A)) :=
  tabulate d2 (λ k, tabulate d1 (λ j, tabulate d0 (λ i, get3 d a i j k))).

Definition swapaxes_0_1 {A} (d : A) (d0 d1 d2 : nat)
    (a : list (list (list A))) : list (list (list A)) :=
  tabulate d1 (λ j, tabulate d0 (λ i, tabulate d2 (λ k, get3 d a i j k))).

(** Store into a [uint8] array. *)
Definition uint8 (v : Z) : Z := (v mod 256)%Z.

(** The order numpy compares array entries with. *)
Class Order (A : Type) := {
  lt : A → A → bool;
  lt_irrefl : ∀ a, lt a a = false;
  lt_trans : ∀ a b c, lt a b = true → lt b c = true → lt a c = true;
  lt_split : ∀ a b c, lt a c = true → lt a b = true ∨ lt b c = true
}.

(** The scan of [argmax]: [mp] is the running maximum, [mi] its index,
    [i] the index of the head of the rest. Only a strictly greater
    entry replaces the maximum. *)
Fixpoint argmax_scan `{Order A} (mp : A) (mi i : nat) (l : list A) : nat :=
  match l with
  | [] => mi
  | x :: l' =>
      if lt mp x then argmax_scan x i (S i) l'
      else argmax_scan mp mi (S i) l'
  end.

Definition argmax `{Order A} (l : list A) : result nat :=
  match l with
  | [] => Raise ValueError
  | x :: l' => Ok (argmax_scan x 0 1 l')
  end.

(** [np.argmax(_, axis=-1)] of a three-axis array. *)
Definition argmax_last `{Order A} (a : list (list (list A)))
    : result (list (list nat)) :=
  traverse (traverse argmax) a.

(** The first two entries of [a.shape]. *)
Definition shape2 {A} (a : list (list A)) : nat * nat :=
  (length a, length (hd [] a)).

End np.

#[global] Instance bool_order : np.Order bool.
Proof.
  refine {| np.lt a b := negb a && b |}.
  - by intros [].
  - by intros [] [] [].
  - intros [] [] []; simpl; auto.
Defined.

#[global] Instance Q_order : np.Order Q.
Proof.
  refine {| np.lt a b := negb (Qle_bool b a) |}.
  - intros a. apply negb_false_iff, Qle_bool_iff, Qle_refl.
  - intros a b c.
    rewrite !negb_true_iff, <- !not_true_iff_false, !Qle_bool_iff.
    intros H1 H2 H3. apply Qnot_le_lt in H1, H2.
    apply (Qlt_irrefl a). eapply Qlt_trans; [exact H1|].
    eapply Qlt_le_trans; [exact H2|exact H3].
  - intros a b c.
    rewrite !negb_true_iff, <- !not_true_iff_false, !Qle_bool_iff.
    intros H1. destruct (Qlt_le_dec a b) as [Hab|Hba].
    + left. by apply Qlt_not_le.
    + right. intros Hcb. apply H1. eapply Qle_trans; [exact Hcb|exact Hba].
Defined.

(** ** The model object *)

(** A class color is the tuple of its channel values. *)
Abbreviation Color := (list Z).

(** An image of shape (x, y, channels). *)
Abbreviation Image := (list (list (list Z))).

(** Label planes of shape (x, y, classes). *)
Abbreviation Planes := (list (list (list bool))).

(** The Keras model behind [self.model]. The network is Keras code; of
    the model the embedding keeps that the attribute holds one, and takes
    what its [fit] answers as an input of [fit_model]. *)
Inductive Model : Type := keras_model.

(** The attributes of [Unet2DModel] that the codec, the loaders and
    [fit_model] read or write. The four dataset attributes do not exist
    before the first load, and [model] does not exist before
    [create_model] or [load_model] assigns it. *)
Record Unet2DModel : Type := {
  IMG_SIZE : nat;
  IMG_CHANNELS : nat;
  CLASSES : list (Color * string);
  IS_TEST_DATA_LABELED : option bool;
  PREPROCESSED_TRAIN_PATH : string;
  PREPROCESSED_TEST_PATH : string;
  epochs_measured : Z;
  train_images : option (list Image);
  train_masks : option (list Planes);
  test_images : option (list Image);
  test_masks : option (list Planes);
  model : option Model
}.

Definition NUM_CLASSES (self : Unet2DModel) : nat := length (CLASSES self).

(** [self.ones] *)
Definition ones (self : Unet2DModel) : Image :=
  np.full3 1%Z (IMG_SIZE self) (IMG_SIZE self) (IMG_CHANNELS self).

(** [__init__] *)
Definition init (classes : list (Color * string)) (size channels : nat)
    (train_path_out test_path_out : string)
    (test_data_labeled : option bool) : Unet2DModel :=
  {| IMG_SIZE := size;
     IMG_CHANNELS := channels;
     CLASSES := classes;
     IS_TEST_DATA_LABELED := test_data_labeled;
     PREPROCESSED_TRAIN_PATH := train_path_out;
     PREPROCESSED_TEST_PATH := test_path_out;
     epochs_measured := 0;
     train_images := None;
     train_masks := None;
     test_images := None;
     test_masks := None;
     model := None |}.

(** ** Class codec *)

(** [a[i] = v] for an array [a] of shape (_, d0, d1). *)
Definition setitem2 {A} (d0 d1 : nat) (i : nat) (v : list (list A))
    (a : list (list (list A))) : result (list (list (list A))) :=
  if decide (i < length a) then v' ← np.bcast_to2 d0 d1 v; Ok (<[i := v']> a)
  else Raise IndexError.

(** The body of the loop of [mask_to_classes], from index [i] on. *)
Fixpoint mask_to_classes_loop (self : Unet2DModel) (mask : Image)
    (i : nat) (cls : list (Color * string))
    (classes : list (list (list bool))) : result (list (list (list bool))) :=
  match cls with
  | [] => Ok classes
  | (color, _) :: cls' =>
      painted ← np.mul_tuple color (ones self);
      eq ← np.equal mask painted;
      let curr_class_mask := np.all_last eq in
      classes ← setitem2 (IMG_SIZE self) (IMG_SIZE self) i curr_class_mask classes;
      mask_to_classes_loop self mask (S i) cls' classes
  end.

Definition mask_to_classes (self : Unet2DModel) (mask : Image) : result Planes :=
  let classes := np.full3 false (NUM_CLASSES self) (IMG_SIZE self) (IMG_SIZE self) in
  classes ← mask_to_classes_loop self mask 0 (CLASSES self) classes;
  let classes :=
    np.swapaxes_0_2 false (NUM_CLASSES self) (IMG_SIZE self) (IMG_SIZE self) classes in
  let classes :=
    np.swapaxes_0_1 false (IMG_SIZE self) (IMG_SIZE self) (NUM_CLASSES self) classes in
  Ok classes.

(** [mask[idxs == cn] = k] for a [uint8] array [mask] of shape
    (_, _, channels): the tuple is broadcast along the channel axis and
    stored where the index array holds [cn]. *)
Definition setitem_where (channels : nat) (idxs : list (list nat)) (cn : nat)
    (k : Color) (mask : Image) : result Image :=
  k' ← np.bcast_to channels k;
  Ok (zip_with (zip_with (λ idx px,
        if decide (idx = cn) then map np.uint8 k' else px)) idxs mask).

Fixpoint prediction_to_mask_loop (channels : nat) (idxs : list (list nat))
    (cn : nat) (cls : list (Color * string)) (mask : Image) : result Image :=
  match cls with
  | [] => Ok mask
  | (k, _) :: cls' =>
      mask ← setitem_where channels idxs cn k mask;
      prediction_to_mask_loop channels idxs (S cn) cls' mask
  end.

(** [_prediction_to_mask]; the entries of [prediction] are probabilities
    or, on the output of [mask_to_classes], booleans. *)
Definition _prediction_to_mask `{np.Order A} (self : Unet2DModel)
    (prediction : list (list (list A))) : result Image :=
  let '(d0, d1) := np.shape2 prediction in
  let mask := np.full3 0%Z d0 d1 (IMG_CHANNELS self) in
  idxs ← np.argmax_last prediction;
  prediction_to_mask_loop (IMG_CHANNELS self) idxs 0 (CLASSES self) mask.

(** A small class table used in the examples below. *)
Definition rgb_classes : list (Color * string) :=
  [([0; 0; 0]%Z, "background"); ([255; 0; 0]%Z, "liver"); ([0; 255; 0]%Z, "tumor")].

Definition rgb_model : Unet2DModel := init rgb_classes 2 3 "train/" "test/" None.

Definition rgb_mask : Image :=
  [[[255; 0; 0]; [0; 0; 0]]; [[0; 255; 0]; [255; 0; 0]]]%Z.

(** ** Dataset loader *)

(** What [imread] decodes a file into: a grayscale array of shape (x, y)
    or a multichannel array of shape (x, y, channels). *)
Inductive ndarray : Type :=
| Arr2 (a : list (list Z))
| Arr3 (a : Image).

(** The file system the loaders see: the file names [os.walk] lists in a
    directory ([None] when there is no such directory) and the decoded
    content of each image file. *)
Record FS : Type := {
  walk_files : string → option (list string);
  files : gmap string ndarray
}.

(** The loaders run on the model object and leave a trace of the paths
    handed to [imread]. A raised exception leaves the state as it was at
    the raise. *)
Record world : Type := {
  obj : Unet2DModel;
  reads : list string
}.

Definition M (A : Type) : Type := world → result A * world.

#[global] Instance M_ret : MRet M := λ A a w, (Ok a, w).
#[global] Instance M_bind : MBind M := λ A B f m w,
  match m w with
  | (Ok a, w') => f a w'
  | (Raise e, w') => (Raise e, w')
  end.

Definition raise {A} (e : exn) : M A := λ w, (Raise e, w).
Definition lift {A} (r : result A) : M A := λ w, (r, w).
Definition get_self : M Unet2DModel := λ w, (Ok (obj w), w).
Definition modify_self (f : Unet2DModel → Unet2DModel) : M unit :=
  λ w, (Ok (), {| obj := f (obj w); reads := reads w |}).

Definition set_train_images (v : list Image) (self : Unet2DModel) : Unet2DModel :=
  {| IMG_SIZE := IMG_SIZE self; IMG_CHANNELS := IMG_CHANNELS self;
     CLASSES := CLASSES self;
     IS_TEST_DATA_LABELED := IS_TEST_DATA_LABELED self;
     PREPROCESSED_TRAIN_PATH := PREPROCESSED_TRAIN_PATH self;
     PREPROCESSED_TEST_PATH := PREPROCESSED_TEST_PATH self;
     epochs_measured := epochs_measured self;
     train_images := Some v; train_masks := train_masks self;
     test_images := test_images self; test_masks := test_masks self;
     model := model self |}.

Definition set_train_masks (v : list Planes) (self : Unet2DModel) : Unet2DModel :=
  {| IMG_SIZE := IMG_SIZE self; IMG_CHANNELS := IMG_CHANNELS self;
     CLASSES := CLASSES self;
     IS_TEST_DATA_LABELED := IS_TEST_DATA_LABELED self;
     PREPROCESSED_TRAIN_PATH := PREPROCESSED_TRAIN_PATH self;
     PREPROCESSED_TEST_PATH := PREPROCESSED_TEST_PATH self;
     epochs_measured := epochs_measured self;
     train_images := train_images self; train_masks := Some v;
     test_images := test_images self; test_masks := test_masks self;
     model := model self |}.

Definition set_test_images (v : list Image) (self : Unet2DModel) : Unet2DModel :=
  {| IMG_SIZE := IMG_SIZE self; IMG_CHANNELS := IMG_CHANNELS self;
     CLASSES := CLASSES self;
     IS_TEST_DATA_LABELED := IS_TEST_DATA_LABELED self;
     PREPROCESSED_TRAIN_PATH := PREPROCESSED_TRAIN_PATH self;
     PREPROCESSED_TEST_PATH := PREPROCESSED_TEST_PATH self;
     epochs_measured := epochs_measured self;
     train_images := train_images self; train_masks := train_masks self;
     test_images := Some v; test_masks := test_masks self;
     model := model self |}.

Definition set_test_masks (v : list Planes) (self : Unet2DModel) : Unet2DModel :=
  {| IMG_SIZE := IMG_SIZE self; IMG_CHANNELS := IMG_CHANNELS self;
     CLASSES := CLASSES self;
     IS_TEST_DATA_LABELED := IS_TEST_DATA_LABELED self;
     PREPROCESSED_TRAIN_PATH := PREPROCESSED_TRAIN_PATH self;
     PREPROCESSED_TEST_PATH := PREPROCESSED_TEST_PATH self;
     epochs_measured := epochs_measured self;
     train_images := train_images self; train_masks := train_masks self;
     test_images := test_images self; test_masks := Some v;
     model := model self |}.

(** [next(os.walk(path))[2]] *)
Definition os_walk_files (fs : FS) (path : string) : M (list string) :=
  match walk_files fs path with
  | Some names => mret names
  | None => raise StopIteration
  end.

(** [imread(path)] *)
Definition imread (fs : FS) (path : string) : M ndarray := λ w,
  (match files fs !! path with
   | Some a => Ok a
   | None => Raise (FileNotFoundError path)
   end,
   {| obj := obj w; reads := reads w ++ [path] |}).

(** [a[:, :, :channels]]: three indices need three axes. *)
Definition slice_channels (channels : nat) (a : ndarray) : result Image :=
  match a with
  | Arr2 _ => Raise IndexError
  | Arr3 a => Ok (map (map (take channels)) a)
  end.

(** [a.shape[2]] of an array with three axes. *)
Definition shape_2 {A} (a : list (list (list A))) : nat :=
  length (hd [] (hd [] a)).

Definition bcast_to3 {A} (d0 d1 d2 : nat) (a : list (list (list A)))
    : result (list (list (list A))) :=
  slabs ← traverse (np.bcast_to2 d1 d2) a; np.bcast_to d0 slabs.

(** [arr[n] = img] for a [uint8] array [arr] of shape (_, d0, d1, d2). *)
Definition store_image (d0 d1 d2 : nat) (n : nat) (img : Image)
    (arr : list Image) : result (list Image) :=
  if decide (n < length arr) then
    v ← bcast_to3 d0 d1 d2 img;
    Ok (<[n := map (map (map np.uint8)) v]> arr)
  else Raise IndexError.

(** [arr[n] = classes] for a boolean array [arr] of shape (_, d0, d1, d2). *)
Definition store_planes (d0 d1 d2 : nat) (n : nat) (classes : Planes)
    (arr : list Planes) : result (list Planes) :=
  if decide (n < length arr) then
    v ← bcast_to3 d0 d1 d2 classes; Ok (<[n := v]> arr)
  else Raise IndexError.

(** Reading an attribute of [self]; one that has not been assigned
    raises. *)
Definition attr {A} (field : Unet2DModel → option A) : M A := λ w,
  match field (obj w) with
  | Some a => (Ok a, w)
  | None => (Raise AttributeError, w)
  end.

(** [for n, x in enumerate(l): body], counting from [n]. *)
Fixpoint for_enumerate {A} (body : nat → A → M unit) (n : nat) (l : list A)
    : M unit :=
  match l with
  | [] => mret ()
  | x :: l' => body n x ;; for_enumerate body (S n) l'
  end.

(** Truth value of the flag in [if self.IS_TEST_DATA_LABELED]. *)
Definition truthy (flag : option bool) : bool :=
  match flag with Some true => true | _ => false end.

(** The body of the loop of [load_training_images]. The slice leaves an
    image of three axes, so of the image check only the comparison of
    [img.shape[2]] can fire; the mask is checked as read. *)
Definition load_training_sample (fs : FS) (n : nat) (id_ : string) : M unit :=
  self ← get_self;
  raw ← imread fs ((PREPROCESSED_TRAIN_PATH self +:+ "images/") +:+ id_);
  img ← lift (slice_channels (IMG_CHANNELS self) raw);
  (if decide (shape_2 img ≠ IMG_CHANNELS self)
   then raise (BaseException ("Invalid channel number in training image " +:+ id_))
   else mret ());;
  arr ← attr train_images;
  arr ← lift (store_image (IMG_SIZE self) (IMG_SIZE self) (IMG_CHANNELS self) n img arr);
  modify_self (set_train_images arr);;
  mask ← imread fs ((PREPROCESSED_TRAIN_PATH self +:+ "masks/") +:+ id_);
  match mask with
  | Arr2 _ => raise (BaseException ("Invalid channel number in mask image " +:+ id_))
  | Arr3 mask =>
      (if decide (shape_2 mask ≠ IMG_CHANNELS self)
       then raise (BaseException ("Invalid channel number in mask image " +:+ id_))
       else mret ());;
      classes ← lift (mask_to_classes self mask);
      arr ← attr train_masks;
      arr ← lift (store_planes (IMG_SIZE self) (IMG_SIZE self) (NUM_CLASSES self) n classes arr);
      modify_self (set_train_masks arr)
  end.

Definition load_training_images (fs : FS) : M unit :=
  self ← get_self;
  train_ids ← os_walk_files fs (PREPROCESSED_TRAIN_PATH self +:+ "images/");
  modify_self (set_train_images
    (replicate (length train_ids)
       (np.full3 0%Z (IMG_SIZE self) (IMG_SIZE self) (IMG_CHANNELS self))));;
  modify_self (set_train_masks
    (replicate (length train_ids)
       (np.full3 false (IMG_SIZE self) (IMG_SIZE self) (NUM_CLASSES self))));;
  for_enumerate (load_training_sample fs) 0 train_ids.

(** The body of the loop of [load_testing_images], alike but for the flag
    that guards the mask. *)
Definition load_testing_sample (fs : FS) (n : nat) (id_ : string) : M unit :=
  self ← get_self;
  raw ← imread fs ((PREPROCESSED_TEST_PATH self +:+ "images/") +:+ id_);
  img ← lift (slice_channels (IMG_CHANNELS self) raw);
  (if decide (shape_2 img ≠ IMG_CHANNELS self)
   then raise (BaseException ("Invalid channel number in test image " +:+ id_))
   else mret ());;
  arr ← attr test_images;
  arr ← lift (store_image (IMG_SIZE self) (IMG_SIZE self) (IMG_CHANNELS self) n img arr);
  modify_self (set_test_images arr);;
  if truthy (IS_TEST_DATA_LABELED self) then
    mask ← imread fs ((PREPROCESSED_TEST_PATH self +:+ "masks/") +:+ id_);
    match mask with
    | Arr2 _ => raise (BaseException ("Invalid channel number in mask image " +:+ id_))
    | Arr3 mask =>
        (if decide (shape_2 mask ≠ IMG_CHANNELS self)
         then raise (BaseException ("Invalid channel number in mask image " +:+ id_))
         else mret ());;
        classes ← lift (mask_to_classes self mask);
        arr ← attr test_masks;
        arr ← lift (store_planes (IMG_SIZE self) (IMG_SIZE self) (NUM_CLASSES self) n classes arr);
        modify_self (set_test_masks arr)
    end
  else mret ().

Definition load_testing_images (fs : FS) : M unit :=
  self ← get_self;
  test_ids ← os_walk_files fs (PREPROCESSED_TEST_PATH self +:+ "images/");
  modify_self (set_test_images
    (replicate (length test_ids)
       (np.full3 0%Z (IMG_SIZE self) (IMG_SIZE self) (IMG_CHANNELS self))));;
  modify_self (set_test_masks
    (replicate (length test_ids)
       (np.full3 false (IMG_SIZE self) (IMG_SIZE self) (NUM_CLASSES self))));;
  for_enumerate (load_testing_sample fs) 0 test_ids.

(** ** Floating-point values

    Finite values are exact rationals; the special values of IEEE 754 are
    kept, since division by zero yields them instead of raising. *)

Inductive fnum : Type :=
| Fin (q : Qc)
| Inf (negative : bool)
| NaN.

Definition fdiv (a b : Qc) : fnum :=
  if decide (b = 0%Qc) then
    if decide (a = 0%Qc) then NaN else Inf (bool_decide (a < 0)%Qc)
  else Fin (a / b)%Qc.

Definition fadd (a b : fnum) : fnum :=
  match a, b with
  | NaN, _ | _, NaN => NaN
  | Fin x, Fin y => Fin (x + y)%Qc
  | Inf s, Fin _ | Fin _, Inf s => Inf s
  | Inf s, Inf t => if Bool.eqb s t then Inf s else NaN
  end.

(** ** Metrics *)

(** A batch of label planes or of predictions, of shape (m, x, y, n). *)
Abbreviation Batch := (list (list (list (list Qc)))).

Module K.

(** [a * b] of two four-axis tensors. *)
Definition mul (a b : Batch) : result Batch :=
  np.bzip (np.bzip (np.bzip (np.bzip (λ x y, Ok (x * y)%Qc)))) a b.

Definition sum1 (l : list Qc) : Qc := foldr Qcplus 0%Qc l.

(** [K.sum(t, axis=[1, 2, 3])] *)
Definition sum_123 (t : Batch) : list Qc :=
  map (λ sample, sum1 (map (λ row, sum1 (map sum1 row)) sample)) t.

(** [a + b], [a - b] and [a / b] of two one-axis tensors. *)
Definition add (a b : list Qc) : result (list Qc) :=
  np.bzip (λ x y, Ok (x + y)%Qc) a b.
Definition sub (a b : list Qc) : result (list Qc) :=
  np.bzip (λ x y, Ok (x - y)%Qc) a b.
Definition div (a b : list Qc) : result (list fnum) :=
  np.bzip (λ x y, Ok (fdiv x y)) a b.

(** [K.mean(t, axis=0)] of a one-axis tensor. *)
Definition mean (t : list fnum) : fnum :=
  match foldr fadd (Fin 0%Qc) t with
  | Fin s => fdiv s (Qc_of_Z (Z.of_nat (length t)))
  | Inf s => Inf s
  | NaN => NaN
  end.

End K.

Definition iou_coef (y_true y_pred : Batch) (smooth : Qc) : result fnum :=
  prod ← K.mul y_true y_pred;
  let intersection := K.sum_123 prod in
  sums ← K.add (K.sum_123 y_true) (K.sum_123 y_pred);
  union ← K.sub sums intersection;
  ratio ← K.div (map (λ i, i + smooth)%Qc intersection)
                (map (λ u, u + smooth)%Qc union);
  Ok (K.mean ratio).

Definition dice_coef (y_true y_pred : Batch) (smooth : Qc) : result fnum :=
  prod ← K.mul y_true y_pred;
  let intersection := K.sum_123 prod in
  union ← K.add (K.sum_123 y_true) (K.sum_123 y_pred);
  ratio ← K.div (map (λ i, 2 * i + smooth)%Qc intersection)
                (map (λ u, u + smooth)%Qc union);
  Ok (K.mean ratio).

(** All entries are 0 or 1, as in label planes. *)
Definition binary (t : Batch) : Prop :=
  Forall (Forall (Forall (Forall (λ x, x = 0%Qc ∨ x = 1%Qc)))) t.

(** Two planes that never overlap, and a sample without any true pixel. *)
Definition disjoint_true : Batch := [[[[1; 0]]]]%Qc.
Definition disjoint_pred : Batch := [[[[0; 1]]]]%Qc.
Definition empty_planes : Batch := [[[[0; 0]]]]%Qc.

(** ** Training counter *)

(** [EarlyStopping(patience)] inside the epoch loop of [model.fit], as
    Keras documents it: the callback monitors the validation loss, resets
    its wait on a strict improvement over the best value seen, and stops
    training once the wait reaches the patience. [val_loss e] is the
    validation loss training would reach after epoch [e]; the result is
    the number of epochs run. *)
Fixpoint fit_loop (patience : nat) (val_loss : nat → Q) (remaining : nat)
    (epoch : nat) (best : option Q) (wait : nat) : nat :=
  match remaining with
  | 0 => epoch
  | S remaining =>
      let current := val_loss epoch in
      let improved :=
        match best with
        | None => true
        | Some b => np.lt current b
        end in
      if improved then
        fit_loop patience val_loss remaining (S epoch) (Some current) 0
      else if decide (patience ≤ S wait) then S epoch
      else fit_loop patience val_loss remaining (S epoch) best (S wait)
  end.

Definition keras_fit (patience : nat) (epochs : Z) (val_loss : nat → Q) : nat :=
  fit_loop patience val_loss (Z.to_nat epochs) 0 None 0.

Definition set_epochs_measured (v : Z) (self : Unet2DModel) : Unet2DModel :=
  {| IMG_SIZE := IMG_SIZE self; IMG_CHANNELS := IMG_CHANNELS self;
     CLASSES := CLASSES self;
     IS_TEST_DATA_LABELED := IS_TEST_DATA_LABELED self;
     PREPROCESSED_TRAIN_PATH := PREPROCESSED_TRAIN_PATH self;
     PREPROCESSED_TEST_PATH := PREPROCESSED_TEST_PATH self;
     epochs_measured := v;
     train_images := train_images self; train_masks := train_masks self;
     test_images := test_images self; test_masks := test_masks self;
     model := model self |}.

(** [self.model = ...], the assignment of [load_model] and
    [create_model]. *)
Definition set_model (m : Model) (self : Unet2DModel) : Unet2DModel :=
  {| IMG_SIZE := IMG_SIZE self; IMG_CHANNELS := IMG_CHANNELS self;
     CLASSES := CLASSES self;
     IS_TEST_DATA_LABELED := IS_TEST_DATA_LABELED self;
     PREPROCESSED_TRAIN_PATH := PREPROCESSED_TRAIN_PATH self;
     PREPROCESSED_TEST_PATH := PREPROCESSED_TEST_PATH self;
     epochs_measured := epochs_measured self;
     train_images := train_images self; train_masks := train_masks self;
     test_images := test_images self; test_masks := test_masks self;
     model := Some m |}.

(** Reading an attribute of [self] in the error monad; one that has not
    been assigned raises. *)
Definition getattr {A} (field : option A) : result A :=
  match field with
  | Some a => Ok a
  | None => Raise AttributeError
  end.

(** What [model.fit] answers to one call: the exception it raises, or the
    validation losses its epochs meet, [val_loss e] after epoch [e]. *)
Inductive fit_answer : Type :=
| FitRaises (e : exn)
| FitRuns (val_loss : nat → Q).

(** [self.model.fit(self.train_images, self.train_masks, ...,
    epochs=epochs, callbacks=[earlystopper, ...])] with
    [EarlyStopping(patience=5)]: it raises what the answer says, or
    returns the history of the epochs it ran, kept as their number. *)
Definition model_fit (m : Model) (x : list Image) (y : list Planes)
    (epochs : Z) (answer : fit_answer) : result nat :=
  match answer with
  | FitRaises e => Raise e
  | FitRuns val_loss => Ok (keras_fit 5 epochs val_loss)
  end.

(** [fit_model]. The callbacks are built from attributes that [__init__]
    assigns. The call of [fit] reads [self.model], [self.train_images]
    and [self.train_masks]; whatever is raised up to its return skips the
    increment of the counter. What the source discards, the history that
    [model.fit] returns, is kept beside the object. *)
Definition fit_model (self : Unet2DModel) (epochs : Z) (answer : fit_answer)
    : result (Unet2DModel * nat) :=
  m ← getattr (model self);
  x ← getattr (train_images self);
  y ← getattr (train_masks self);
  trained ← model_fit m x y epochs answer;
  Ok (set_epochs_measured (epochs_measured self + epochs) self, trained).

(** Repeated calls of [fit_model] on one object, each with its epoch
    argument and what [model.fit] answers to it. A call that raises
    leaves the object as it found it, and the caller goes on; the epochs
    trained by the calls that return add up. *)
Fixpoint fit_calls (self : Unet2DModel) (calls : list (Z * fit_answer))
    : Unet2DModel * nat :=
  match calls with
  | [] => (self, 0)
  | (epochs, answer) :: calls' =>
      match fit_model self epochs answer with
      | Ok (self', trained) =>
          let '(self'', trained') := fit_calls self' calls' in
          (self'', trained + trained')
      | Raise _ => fit_calls self calls'
      end
  end.

(** ** Shapes *)

(** [a] has shape (d0, d1). *)
Definition has_shape2 {A} (d0 d1 : nat) (a : list (list A)) : Prop :=
  length a = d0 ∧ Forall (λ row, length row = d1) a.

(** [a] has shape (d0, d1, d2). *)
Definition has_shape3 {A} (d0 d1 d2 : nat) (a : list (list (list A))) : Prop :=
  length a = d0 ∧ Forall (has_shape2 d1 d2) a.

(** Every color of the class table has one value per channel, each a
    [uint8]. *)
Definition wf_color (channels : nat) (c : Color) : Prop :=
  length c = channels ∧ Forall (λ v, (0 ≤ v < 256)%Z) c.

Definition wf_classes (self : Unet2DModel) : Prop :=
  Forall (λ c, wf_color (IMG_CHANNELS self) c.1) (CLASSES self).

(** Channelwise comparison of a pixel with a color. *)
Definition color_eqb (px c : Color) : bool := forallb id (zip_with Z.eqb px c).

(** The class vector the encoder computes at a pixel. *)
Definition class_vector (self : Unet2DModel) (px : Color) : list bool :=
  map (λ c, color_eqb px c.1) (CLASSES self).

(** What a loader stores for an image file: the first [channels] channels,
    cast to [uint8]. *)
Definition stored_image (channels : nat) (a : Image) : Image :=
  map (map (map np.uint8)) (map (map (take channels)) a).

(** *** What a directory holds and what a loader makes of it *)

(** The array of an image file; the empty array stands for a file that is
    missing or has two axes. *)
Definition the_array (r : option ndarray) : Image :=
  match r with Some (Arr3 a) => a | _ => [] end.

(** An image file the loaders accept: three axes, the configured size,
    at least the configured number of channels. *)
Definition good_image (self : Unet2DModel) (r : option ndarray) : Prop :=
  ∃ a c, r = Some (Arr3 a)
         ∧ has_shape3 (IMG_SIZE self) (IMG_SIZE self) c a
         ∧ IMG_CHANNELS self ≤ c.

(** A mask file the loaders accept: three axes, the configured size and
    exactly the configured number of channels. *)
Definition good_mask (self : Unet2DModel) (r : option ndarray) : Prop :=
  ∃ m, r = Some (Arr3 m)
       ∧ has_shape3 (IMG_SIZE self) (IMG_SIZE self) (IMG_CHANNELS self) m.

(** A mask file the channel check refuses: two axes, or a channel count
    other than the configured one. *)
Definition bad_mask (self : Unet2DModel) (r : option ndarray) : Prop :=
  (∃ g, r = Some (Arr2 g))
  ∨ (∃ m, r = Some (Arr3 m) ∧ shape_2 m ≠ IMG_CHANNELS self).

(** An image file with three axes and too few channels. *)
Definition narrow_image (self : Unet2DModel) (r : option ndarray) : Prop :=
  ∃ a c, r = Some (Arr3 a)
         ∧ has_shape3 (IMG_SIZE self) (IMG_SIZE self) c a
         ∧ c < IMG_CHANNELS self.

Definition image_path (root id_ : string) : string := (root +:+ "images/") +:+ id_.
Definition mask_path (root id_ : string) : string := (root +:+ "masks/") +:+ id_.

Definition good_sample (self : Unet2DModel) (fs : FS) (root id_ : string) : Prop :=
  good_image self (files fs !! image_path root id_)
  ∧ good_mask self (files fs !! mask_path root id_).

(** The entries of the image array and of the label-plane array after the
    samples [ids] have been loaded. *)
Definition loaded_images (self : Unet2DModel) (fs : FS) (root : string)
    (ids : list string) : list Image :=
  map (λ id_, stored_image (IMG_CHANNELS self)
                (the_array (files fs !! image_path root id_))) ids.

Definition loaded_masks (self : Unet2DModel) (fs : FS) (root : string)
    (ids : list string) : list Planes :=
  map (λ id_, map (map (class_vector self))
                (the_array (files fs !! mask_path root id_))) ids.

(** The zero-filled arrays a loader starts from. *)
Definition zero_images (self : Unet2DModel) (n : nat) : list Image :=
  replicate n (np.full3 0%Z (IMG_SIZE self) (IMG_SIZE self) (IMG_CHANNELS self)).

Definition zero_masks (self : Unet2DModel) (n : nat) : list Planes :=
  replicate n (np.full3 false (IMG_SIZE self) (IMG_SIZE self) (NUM_CLASSES self)).

(** The paths a loader hands to [imread] for the samples [ids] when it
    reads their masks, and when it does not. *)
Definition sample_paths (root : string) (ids : list string) : list string :=
  concat (map (λ id_, [image_path root id_; mask_path root id_]) ids).

Definition image_paths (root : string) (ids : list string) : list string :=
  map (image_path root) ids.

(** A mask file with three axes and more channels than configured. *)
Definition wide_mask (self : Unet2DModel) (r : option ndarray) : Prop :=
  ∃ m c, r = Some (Arr3 m)
         ∧ has_shape3 (IMG_SIZE self) (IMG_SIZE self) c m
         ∧ IMG_CHANNELS self < c.

(** A file whose channel count is not the configured one, or that has
    fewer than three axes. *)
Definition channel_mismatch (self : Unet2DModel) (r : option ndarray) : Prop :=
  match r with
  | Some (Arr2 _) => True
  | Some (Arr3 a) => shape_2 a ≠ IMG_CHANNELS self
  | None => False
  end.

(** *** Example directories *)

Definition rgba_image : Image :=
  [[[255; 0; 0; 9]; [0; 0; 0; 9]]; [[0; 255; 0; 9]; [255; 0; 0; 9]]]%Z.

Definition rgba_mask : Image :=
  [[[255; 0; 0; 255]; [0; 0; 0; 255]]; [[0; 255; 0; 255]; [255; 0; 0; 255]]]%Z.

Definition two_channel_image : Image :=
  [[[255; 0]; [0; 0]]; [[0; 255]; [255; 0]]]%Z.

Definition gray_image : list (list Z) := [[12; 34]; [56; 78]]%Z.

(** Directory listings of the example file systems; every other
    directory is missing. *)
Definition listing (train_ids test_ids : list string) (path : string)
    : option (list string) :=
  if decide (path = "train/images/") then Some train_ids
  else if decide (path = "test/images/") then Some test_ids
  else None.

(** [a.png] has a fourth channel in its image, in both splits. *)
Definition wide_image_fs : FS :=
  {| walk_files := listing ["a.png"] ["a.png"];
     files := {[ "train/images/a.png" := Arr3 rgba_image;
                 "train/masks/a.png" := Arr3 rgb_mask;
                 "test/images/a.png" := Arr3 rgba_image;
                 "test/masks/a.png" := Arr3 rgb_mask ]} |}.

(** [a.png] has a fourth channel in its mask, in both splits. *)
Definition wide_mask_fs : FS :=
  {| walk_files := listing ["a.png"] ["a.png"];
     files := {[ "train/images/a.png" := Arr3 rgb_mask;
                 "train/masks/a.png" := Arr3 rgba_mask;
                 "test/images/a.png" := Arr3 rgb_mask;
                 "test/masks/a.png" := Arr3 rgba_mask ]} |}.

(** [a.png] is a good sample; the image of [b.png] has two channels. *)
Definition narrow_second_fs : FS :=
  {| walk_files := listing ["a.png"; "b.png"] ["a.png"; "b.png"];
     files := {[ "train/images/a.png" := Arr3 rgb_mask;
                 "train/masks/a.png" := Arr3 rgb_mask;
                 "train/images/b.png" := Arr3 two_channel_image;
                 "train/masks/b.png" := Arr3 rgb_mask;
                 "test/images/a.png" := Arr3 rgb_mask;
                 "test/masks/a.png" := Arr3 rgb_mask;
                 "test/images/b.png" := Arr3 two_channel_image;
                 "test/masks/b.png" := Arr3 rgb_mask ]} |}.

(** The image of [a.png] is grayscale. *)
Definition gray_image_fs : FS :=
  {| walk_files := listing ["a.png"] ["a.png"];
     files := {[ "train/images/a.png" := Arr2 gray_image;
                 "train/masks/a.png" := Arr3 rgb_mask ]} |}.

(** A freshly constructed model, with and without test labels. *)
Definition fresh (self : Unet2DModel) : world := {| obj := self; reads := [] |}.

Definition rgb_model_labeled : Unet2DModel :=
  init rgb_classes 2 3 "train/" "test/" (Some true).

(** ** Auxiliary notions of the statements *)

(** The plane the encoder computes for one color. *)
Definition class_plane (mask : Image) (c : Color) : list (list bool) :=
  map (map (λ px, color_eqb px c)) mask.

(** [r] indexes a maximal entry of [l], and every entry before it is
    strictly smaller: the first maximum. *)
Definition first_max `{np.Order A} (l : list A) (r : nat) : Prop :=
  ∃ v, l !! r = Some v
       ∧ (∀ j x, l !! j = Some x → np.lt v x = false)
       ∧ (∀ j x, j < r → l !! j = Some x → np.lt x v = true).

(** The pixel the decoder leaves where the index array holds [idx],
    once the colors of [done] have been stored: the stored color, or
    the zero the output array was created with. *)
Definition painted_by (self : Unet2DModel) (done : list (Color * string))
    (idx : nat) : Color :=
  match done !! idx with
  | Some (k, _) => map np.uint8 k
  | None => replicate (IMG_CHANNELS self) 0%Z
  end.

(** The class index the decoder reads at a pixel. *)
Definition argmax_idx `{np.Order A} (v : list A) : nat :=
  match np.argmax v with Ok r => r | Raise _ => 0 end.

(** An off-palette pixel in the lower right corner, and a prediction with
    an all-zero vector and a two-way tie. *)
Definition rgb_mask_unmatched : Image :=
  [[[255; 0; 0]; [0; 0; 0]]; [[0; 255; 0]; [1; 2; 3]]]%Z.

Definition tied_prediction : list (list (list Q)) :=
  [[[0; 0; 0]; [0.2; 0.4; 0.4]]]%Q.

(** The object can be trained: the model and the two training arrays
    have been assigned. *)
Definition ready (self : Unet2DModel) : Prop :=
  is_Some (model self) ∧ is_Some (train_images self)
  ∧ is_Some (train_masks self).

(** On such an object a call returns unless [model.fit] raises. *)
Definition returns (call : Z * fit_answer) : bool :=
  match call.2 with
  | FitRuns _ => true
  | FitRaises _ => false
  end.

(** The epoch arguments of the calls that return, added up. *)
Definition requested (calls : list (Z * fit_answer)) : Z :=
  foldr (λ c acc, if returns c then c.1 + acc else acc)%Z 0%Z calls.

(** The epochs the calls that return can train at most: a negative
    argument trains none. *)
Definition trainable (calls : list (Z * fit_answer)) : nat :=
  foldr (λ c acc, if returns c then Z.to_nat c.1 + acc else acc) 0 calls.

(** The validation loss of the call never improves on that of its first
    epoch. *)
Definition stalls (answer : fit_answer) : Prop :=
  match answer with
  | FitRuns val_loss => ∀ e, np.lt (val_loss (S e)) (val_loss 0) = false
  | FitRaises _ => False
  end.

(** The object left by a load of an acceptable directory, with a model
    assigned. *)
Definition loaded_model : Unet2DModel :=
  set_model keras_model
    (obj (load_training_images wide_image_fs (fresh rgb_model)).2).

(** Three calls on it: one that stalls, one whose [fit] raises, one whose
    loss improves with every epoch. *)
Definition three_calls : list (Z * fit_answer) :=
  [(50%Z, FitRuns (λ _, 1%Q));
   (20%Z, FitRaises ValueError);
   (3%Z, FitRuns (λ e, 1 / (inject_Z (Z.of_nat e) + 1))%Q)].

(** What both coefficients are when no sample has any overlap: the batch
    mean of smooth / (union + smooth), over the sums [unions] of the two
    plane sums of each sample. *)
Definition zero_overlap_value (smooth : Qc) (unions : list Qc) : fnum :=
  K.mean (map (λ u, fdiv smooth (u + smooth)%Qc) unions).


(** ** Batched codec and losses *)

(** The body of the loop of [masks_to_classes], from index [i] on. *)
Fixpoint masks_to_classes_loop (self : Unet2DModel) (i : nat)
    (masks : list Image) (classes_masks : list Planes) : result (list Planes) :=
  match masks with
  | [] => Ok classes_masks
  | mask :: masks' =>
      classes ← mask_to_classes self mask;
      classes_masks ← store_planes (IMG_SIZE self) (IMG_SIZE self)
                        (NUM_CLASSES self) i classes classes_masks;
      masks_to_classes_loop self (S i) masks' classes_masks
  end.

Definition masks_to_classes (self : Unet2DModel) (masks : list Image)
    : result (list Planes) :=
  let classes_masks :=
    replicate (length masks)
      (np.full3 false (IMG_SIZE self) (IMG_SIZE self) (NUM_CLASSES self)) in
  masks_to_classes_loop self 0 masks classes_masks.

(** The first three entries of [a.shape]. *)
Definition shape3 {A} (a : list (list (list A))) : nat * nat * nat :=
  (length a, length (hd [] a), length (hd [] (hd [] a))).

Fixpoint predictions_to_mask_loop `{np.Order A} (self : Unet2DModel)
    (d0 d1 : nat) (i : nat) (predictions : list (list (list (list A))))
    (masks : list Image) : result (list Image) :=
  match predictions with
  | [] => Ok masks
  | img :: predictions' =>
      mask ← _prediction_to_mask self img;
      masks ← store_image d0 d1 (IMG_CHANNELS self) i mask masks;
      predictions_to_mask_loop self d0 d1 (S i) predictions' masks
  end.

(** [_predictions_to_mask] *)
Definition _predictions_to_mask `{np.Order A} (self : Unet2DModel)
    (predictions : list (list (list (list A)))) : result (list Image) :=
  let '(n, d0, d1) := shape3 predictions in
  let masks := replicate n (np.full3 0%Z d0 d1 (IMG_CHANNELS self)) in
  predictions_to_mask_loop self d0 d1 0 predictions masks.

(** [1 - x] on a coefficient. *)
Definition one_minus (x : fnum) : fnum :=
  match x with
  | Fin q => Fin (1 - q)%Qc
  | Inf s => Inf (negb s)
  | NaN => NaN
  end.

Definition iou_coef_loss (yt yp : Batch) (smooth : Qc) : result fnum :=
  iou ← iou_coef yt yp smooth; Ok (one_minus iou).

Definition dice_coef_loss (yt yp : Batch) (smooth : Qc) : result fnum :=
  dice ← dice_coef yt yp smooth; Ok (one_minus dice).

(** ** Notions and examples of the further properties *)

(** Every entry is a [uint8]. *)
Definition uint8_image (a : Image) : Prop :=
  Forall (Forall (Forall (λ v, (0 ≤ v < 256)%Z))) a.

(** A table that lists one color under two labels. *)
Definition duplicate_classes : list (Color * string) :=
  [([0; 0; 0]%Z, "background"); ([255; 0; 0]%Z, "liver");
   ([255; 0; 0]%Z, "vessel"); ([0; 255; 0]%Z, "tumor")].

Definition duplicate_model : Unet2DModel :=
  init duplicate_classes 2 3 "train/" "test/" None.


(** The vector holds exactly one [true], among [n] entries. *)
Definition one_hot (n : nat) (v : list bool) : Prop :=
  ∃ i, i < n ∧ v = <[i := true]> (replicate n false).

(** *** What a loader leaves alone *)

(** [o'] has the configuration, the epoch counter and the model of [o]. *)
Definition same_config (o o' : Unet2DModel) : Prop :=
  IMG_SIZE o' = IMG_SIZE o ∧ IMG_CHANNELS o' = IMG_CHANNELS o
  ∧ CLASSES o' = CLASSES o
  ∧ IS_TEST_DATA_LABELED o' = IS_TEST_DATA_LABELED o
  ∧ PREPROCESSED_TRAIN_PATH o' = PREPROCESSED_TRAIN_PATH o
  ∧ PREPROCESSED_TEST_PATH o' = PREPROCESSED_TEST_PATH o
  ∧ epochs_measured o' = epochs_measured o
  ∧ model o' = model o.

Definition keeps_test_split (o o' : Unet2DModel) : Prop :=
  same_config o o'
  ∧ test_images o' = test_images o ∧ test_masks o' = test_masks o.

Definition keeps_train_split (o o' : Unet2DModel) : Prop :=
  same_config o o'
  ∧ train_images o' = train_images o ∧ train_masks o' = train_masks o.

(** [a.png] is a good sample; [b.png] has an image but no mask file. *)
Definition missing_mask_fs : FS :=
  {| walk_files := listing ["a.png"; "b.png"] [];
     files := {[ "train/images/a.png" := Arr3 rgb_mask;
                 "train/masks/a.png" := Arr3 rgb_mask;
                 "train/images/b.png" := Arr3 rgb_mask ]} |}.

(** An image of one row of three pixels, and an image of a single
    pixel. *)
Definition row_image : Image := [[[1; 2; 3]; [4; 5; 6]; [7; 8; 9]]]%Z.
Definition pixel_image : Image := [[[7; 8; 9]]]%Z.

(** The image of [a.png] has the shape (1, 3, 3), that of [b.png] the
    shape (1, 1, 3); the masks are as configured. *)
Definition row_image_fs : FS :=
  {| walk_files := listing ["a.png"] [];
     files := {[ "train/images/a.png" := Arr3 row_image;
                 "train/masks/a.png" := Arr3 rgb_mask ]} |}.

Definition pixel_image_fs : FS :=
  {| walk_files := listing ["b.png"] [];
     files := {[ "train/images/b.png" := Arr3 pixel_image;
                 "train/masks/b.png" := Arr3 rgb_mask ]} |}.

(** *** Tensors the metrics are meant for *)

(** All entries lie in [0, 1], as those of label planes and of softmax
    outputs do. *)
Definition unit_range (t : Batch) : Prop :=
  Forall (Forall (Forall (Forall (λ x, (0 ≤ x)%Qc ∧ (x ≤ 1)%Qc)))) t.

(** The two tensors have the same shape. *)
Definition same_shape (a b : Batch) : Prop :=
  Forall2 (Forall2 (Forall2 (λ r1 r2 : list Qc, length r1 = length r2))) a b.

(** A prediction that is half right on one sample of two pixels. *)
Definition half_true : Batch := [[[[1; 0]; [0; 1]]]]%Qc.
Definition half_pred : Batch := [[[[1; 0]; [1; 0]]]]%Qc.

(** A boolean plane entry as the number a float tensor holds for it. *)
Definition as_float (b : bool) : Q := if b then 1%Q else 0%Q.

(** The training split is acceptable; in the test split the image of
    [b.png], listed after the acceptable [a.png], is grayscale. *)
Definition gray_test_fs : FS :=
  {| walk_files := listing ["a.png"] ["a.png"; "b.png"];
     files := {[ "train/images/a.png" := Arr3 rgb_mask;
                 "train/masks/a.png" := Arr3 rgb_mask;
                 "test/images/a.png" := Arr3 rgb_mask;
                 "test/images/b.png" := Arr2 gray_image ]} |}.

(** A class table whose second color has two channels instead of
    three. *)
Definition short_color_model : Unet2DModel :=
  init [([0; 0; 0]%Z, "background"); ([255; 0]%Z, "liver")]
    2 3 "train/" "test/" None.

(** * Properties *)

(** ** The error monad *)

Lemma traverse_Ok {A B} (f : A → result B) (g : A → B) (l : list A) :
  Forall (λ x, f x = Ok (g x)) l → traverse f l = Ok (map g l).
Proof.
  induction 1 as [|x l Hx _ IH]; simpl; [done|].
  by rewrite Hx; simpl; rewrite IH.
Qed.

Lemma traverse2_Ok {A B C} (f : A → B → result C) (g : A → B → C) xs ys :
  Forall2 (λ x y, f x y = Ok (g x y)) xs ys →
  traverse2 f xs ys = Ok (zip_with g xs ys).
Proof.
  induction 1 as [|x y xs ys Hxy _ IH]; simpl; [done|].
  by rewrite Hxy; simpl; rewrite IH.
Qed.

Lemma traverse_length {A B} (f : A → result B) l l' :
  traverse f l = Ok l' → length l' = length l.
Proof.
  revert l'; induction l as [|x l IH]; intros l'; simpl.
  - by intros [= <-].
  - destruct (f x); simpl; [|done].
    destruct (traverse f l); simpl; [|done].
    intros [= <-]; simpl. f_equal. by apply IH.
Qed.

(** ** numpy helpers *)

Lemma bzip_same_length {A B C} (f : A → B → result C) (g : A → B → C) xs ys :
  length xs = length ys →
  (∀ x y, f x y = Ok (g x y)) →
  np.bzip f xs ys = Ok (zip_with g xs ys).
Proof.
  intros Hlen Hf. unfold np.bzip. rewrite decide_True by done.
  apply traverse2_Ok. apply Forall2_same_length_lookup_2; [done|].
  intros; apply Hf.
Qed.

Lemma bzip_Forall2 {A B C} (f : A → B → result C) (g : A → B → C) xs ys :
  Forall2 (λ x y, f x y = Ok (g x y)) xs ys →
  np.bzip f xs ys = Ok (zip_with g xs ys).
Proof.
  intros H. unfold np.bzip. rewrite decide_True by by eapply Forall2_length.
  by apply traverse2_Ok.
Qed.

Lemma bcast_to_same {A} n (xs : list A) :
  length xs = n → np.bcast_to n xs = Ok xs.
Proof. intros H. unfold np.bcast_to. by rewrite decide_True. Qed.

Lemma bcast_to2_same {A} d0 d1 (a : list (list A)) :
  has_shape2 d0 d1 a → np.bcast_to2 d0 d1 a = Ok a.
Proof.
  intros [H0 H1]. unfold np.bcast_to2.
  rewrite (traverse_Ok _ id).
  - simpl. rewrite list_fmap_id. by apply bcast_to_same.
  - eapply Forall_impl; [exact H1|]. intros row Hrow. by apply bcast_to_same.
Qed.

Lemma zip_with_replicate_r {A B C} (f : A → B → C) (xs : list A) n (y : B) :
  length xs = n → zip_with f xs (replicate n y) = map (λ x, f x y) xs.
Proof.
  intros <-. induction xs as [|x xs IH]; simpl; [done|]. by rewrite IH.
Qed.

Lemma nth_tabulate {A} (f : nat → A) n i d :
  i < n → nth i (np.tabulate n f) d = f i.
Proof.
  intros Hi. unfold np.tabulate.
  rewrite nth_lookup, list_lookup_fmap, lookup_seq_lt by done. done.
Qed.

Lemma tabulate_ext {A} (f g : nat → A) n :
  (∀ i, i < n → f i = g i) → np.tabulate n f = np.tabulate n g.
Proof.
  intros H. unfold np.tabulate. apply map_ext_in.
  intros i Hi. apply in_seq in Hi. apply H. lia.
Qed.

Lemma tabulate_nth {A B} (f : A → B) (l : list A) d :
  np.tabulate (length l) (λ i, f (nth i l d)) = map f l.
Proof.
  unfold np.tabulate. apply list_eq. intros i.
  rewrite !list_lookup_fmap.
  destruct (decide (i < length l)) as [Hi|Hi].
  - rewrite lookup_seq_lt by done. simpl.
    destruct (lookup_lt_is_Some_2 l i Hi) as [x Hx].
    rewrite Hx. simpl. by rewrite (nth_lookup_Some _ _ _ _ Hx).
  - rewrite lookup_seq_ge by lia. rewrite lookup_ge_None_2 by lia. done.
Qed.

(** ** Encoding *)

Section encode.
Context (self : Unet2DModel).
Local Abbreviation S_ := (IMG_SIZE self).
Local Abbreviation C_ := (IMG_CHANNELS self).

Lemma painted_color (c : Color) :
  length c = C_ →
  np.mul_tuple c (ones self) = Ok (replicate S_ (replicate S_ c)).
Proof.
  intros Hc. unfold np.mul_tuple, ones, np.full3, np.full2, np.full1.
  rewrite (traverse_Ok _ (λ _, replicate S_ c)).
  { f_equal. by rewrite fmap_replicate. }
  apply Forall_replicate.
  rewrite (traverse_Ok _ (λ _, c)).
  { f_equal. by rewrite fmap_replicate. }
  apply Forall_replicate.
  rewrite (bzip_same_length _ Z.mul) by (by rewrite ?length_replicate).
  f_equal. rewrite zip_with_replicate_r by done.
  rewrite <- (list_fmap_id c) at 2. apply list_fmap_ext.
  intros _ x _. simpl. lia.
Qed.

Lemma equal_painted (mask : Image) (c : Color) :
  has_shape3 S_ S_ C_ mask → length c = C_ →
  np.equal mask (replicate S_ (replicate S_ c))
  = Ok (map (map (λ px, zip_with Z.eqb px c)) mask).
Proof.
  intros [H0 H1] Hc. unfold np.equal.
  rewrite (bzip_Forall2 _ (λ row _, map (λ px, zip_with Z.eqb px c) row)).
  { f_equal. rewrite zip_with_replicate_r by done. done. }
  apply Forall2_same_length_lookup_2; [by rewrite length_replicate|].
  intros i row row' Hrow Hrow'.
  apply lookup_replicate in Hrow' as [-> _].
  rewrite Forall_lookup in H1. destruct (H1 _ _ Hrow) as [Hlen Hpx].
  rewrite (bzip_Forall2 _ (λ px _, zip_with Z.eqb px c)).
  { f_equal. rewrite zip_with_replicate_r by done. done. }
  apply Forall2_same_length_lookup_2; [by rewrite length_replicate|].
  intros j px px' Hpx1 Hpx'.
  apply lookup_replicate in Hpx' as [-> _].
  rewrite Forall_lookup in Hpx.
  apply bzip_same_length; [|done].
  rewrite (Hpx _ _ Hpx1). done.
Qed.

Lemma class_plane_shape (mask : Image) (c : Color) d0 d1 d2 :
  has_shape3 d0 d1 d2 mask → has_shape2 d0 d1 (class_plane mask c).
Proof.
  intros [H0 H1]. split; [by unfold class_plane; rewrite length_map|].
  unfold class_plane. apply Forall_fmap.
  eapply Forall_impl; [exact H1|]. intros row [Hr _]. simpl.
  by rewrite length_map.
Qed.

(** One turn of the loop stores the plane of the color at index [i]. *)
Lemma mask_to_classes_step (mask : Image) (c : Color) i classes :
  has_shape3 S_ S_ C_ mask → length c = C_ → i < length classes →
  (painted ← np.mul_tuple c (ones self);
   eq ← np.equal mask painted;
   setitem2 S_ S_ i (np.all_last eq) classes)
  = Ok (<[i := class_plane mask c]> classes).
Proof.
  intros Hm Hc Hi. rewrite painted_color by done. simpl.
  rewrite equal_painted by done. simpl.
  unfold setitem2. rewrite decide_True by done.
  assert (np.all_last (map (map (λ px, zip_with Z.eqb px c)) mask)
          = class_plane mask c) as ->.
  { unfold np.all_last, class_plane. rewrite map_map.
    apply map_ext. intros row. by rewrite map_map. }
  rewrite bcast_to2_same by by eapply class_plane_shape.
  done.
Qed.

Lemma mask_to_classes_loop_spec (mask : Image) cls i classes :
  has_shape3 S_ S_ C_ mask →
  Forall (λ c, length c.1 = C_) cls →
  i + length cls ≤ length classes →
  mask_to_classes_loop self mask i cls classes
  = Ok (take i classes ++ map (λ c, class_plane mask c.1) cls
          ++ drop (i + length cls) classes).
Proof.
  intros Hm Hcls. revert i classes.
  induction Hcls as [|[c lbl] cls Hc _ IH]; intros i classes Hlen; simpl in *.
  - rewrite Nat.add_0_r. by rewrite take_drop.
  - pose proof (mask_to_classes_step mask c i classes Hm Hc ltac:(lia)) as Hstep.
    simpl in Hstep.
    destruct (np.mul_tuple c (ones self)) as [painted|]; simpl in *; [|done].
    destruct (np.equal mask painted) as [eq|]; simpl in *; [|done].
    rewrite Hstep. simpl.
    rewrite IH by (rewrite length_insert; lia).
    f_equal.
    rewrite (take_S_r (<[i := class_plane mask c]> classes) i (class_plane mask c)).
    2:{ rewrite list_lookup_insert_eq; [done|lia]. }
    rewrite take_insert_ge by lia.
    rewrite drop_insert_lt by lia.
    rewrite <- app_assoc. simpl. by rewrite Nat.add_succ_r.
Qed.
End encode.

Lemma nth_map_lt {A B} (f : A → B) (l : list A) i d d' :
  i < length l → nth i (map f l) d' = f (nth i l d).
Proof.
  intros Hi. rewrite (nth_indep _ d' (f d)) by by rewrite length_map.
  apply map_nth.
Qed.

Lemma tabulate_nth_Forall {A B} (P : A → Prop) (f g : A → B) (l : list A) n d :
  length l = n → Forall P l → (∀ x, P x → f x = g x) →
  np.tabulate n (λ i, f (nth i l d)) = map g l.
Proof.
  intros <- HP Hfg. rewrite tabulate_nth.
  apply map_ext_in. intros x Hx. apply Hfg.
  rewrite Forall_forall in HP. by apply HP, list_elem_of_In.
Qed.

Section encode_spec.
Context (self : Unet2DModel).
Local Abbreviation S_ := (IMG_SIZE self).
Local Abbreviation C_ := (IMG_CHANNELS self).
Local Abbreviation N_ := (NUM_CLASSES self).

(** The two [swapaxes] calls move the class axis of the stacked Planes
    from first to last and leave the two Image axes in place. *)
Lemma swapaxes_class_planes (mask : Image) :
  has_shape3 S_ S_ C_ mask →
  np.swapaxes_0_1 false S_ S_ N_
    (np.swapaxes_0_2 false N_ S_ S_
       (map (λ c, class_plane mask c.1) (CLASSES self)))
  = map (map (class_vector self)) mask.
Proof.
  intros [H0 H1]. unfold np.swapaxes_0_1.
  set (arr := map _ (CLASSES self)).
  set (B := np.swapaxes_0_2 _ _ _ _ _).
  assert (∀ i j k, i < S_ → j < S_ → k < N_ →
    np.get3 false B i j k
    = color_eqb (nth i (nth j mask []) []) (nth k (CLASSES self) ([], EmptyString)).1)
    as HB.
  { intros i j k Hi Hj Hk. unfold B, np.swapaxes_0_2, np.get3.
    rewrite !nth_tabulate by done.
    unfold arr, class_plane.
    rewrite (nth_map_lt (B:=list (list bool)) _ (CLASSES self) k ([], EmptyString) [])
      by done.
    assert (length (nth j mask []) = S_) as Hrow.
    { rewrite Forall_forall in H1. apply H1, list_elem_of_In, nth_In. lia. }
    rewrite (nth_map_lt (B:=list bool) _ mask j [] []) by lia.
    by rewrite (nth_map_lt (B:=bool) _ (nth j mask []) i [] false) by lia. }
  transitivity (np.tabulate S_ (λ j, np.tabulate S_ (λ i,
    class_vector self (nth i (nth j mask []) [])))).
  { apply tabulate_ext; intros j Hj. apply tabulate_ext; intros i Hi.
    unfold class_vector.
    rewrite <- (tabulate_nth (A:=Color * string) _ (CLASSES self) ([], EmptyString)).
    apply tabulate_ext; intros k Hk. by apply HB. }
  apply (tabulate_nth_Forall (has_shape2 S_ C_)
           (λ row, np.tabulate S_ (λ i, class_vector self (nth i row []))));
    [done..|].
  intros row [Hrow _]. rewrite <- Hrow. apply tabulate_nth.
Qed.

(** The encoder computes, at every pixel, the vector of comparisons of
    the pixel with the colors of the table, in table order. *)
Lemma mask_to_classes_spec (mask : Image) :
  has_shape3 S_ S_ C_ mask →
  Forall (λ c, length c.1 = C_) (CLASSES self) →
  mask_to_classes self mask = Ok (map (map (class_vector self)) mask).
Proof.
  intros Hm Hcls. unfold mask_to_classes.
  assert (length (np.full3 false N_ S_ S_) = length (CLASSES self)) as Hlen.
  { unfold np.full3. by rewrite length_replicate. }
  rewrite mask_to_classes_loop_spec; [|done|done|rewrite Hlen; simpl; lia].
  rewrite drop_ge by (rewrite Hlen; lia).
  rewrite app_nil_r. simpl. f_equal. by apply swapaxes_class_planes.
Qed.
End encode_spec.

Lemma color_eqb_eq (px c : Color) :
  length px = length c → color_eqb px c = true ↔ px = c.
Proof.
  unfold color_eqb. revert c. induction px as [|x px IH]; intros [|y c]; simpl;
    try done.
  intros [= Hlen]. rewrite andb_true_iff, (IH _ Hlen). unfold id.
  rewrite Z.eqb_eq. split; [by intros [-> ->]|by intros [= -> ->]].
Qed.

(** ** argmax *)

Section argmax.
Context `{np.Order A}.

Lemma argmax_scan_first_max (pre l : list A) (mp : A) (mi : nat) :
  pre !! mi = Some mp →
  (∀ j x, pre !! j = Some x → np.lt mp x = false) →
  (∀ j x, j < mi → pre !! j = Some x → np.lt x mp = true) →
  first_max (pre ++ l) (np.argmax_scan mp mi (length pre) l).
Proof.
  revert pre mp mi. induction l as [|x l IH]; intros pre mp mi Hmi Hmax Hlow.
  - simpl. rewrite app_nil_r. by exists mp.
  - simpl. replace (pre ++ x :: l) with ((pre ++ [x]) ++ l)
      by by rewrite <- app_assoc.
    replace (S (length pre)) with (length (pre ++ [x]))
      by (rewrite length_app; simpl; lia).
    destruct (np.lt mp x) eqn:Hlt.
    + apply IH.
      * by rewrite lookup_app_r, Nat.sub_diag.
      * intros j y Hy. apply lookup_app_Some in Hy as [Hy|[_ Hy]].
        -- destruct (np.lt x y) eqn:Hxy; [|done].
           rewrite <- (Hmax _ _ Hy). symmetry. by eapply np.lt_trans.
        -- apply list_lookup_singleton_Some in Hy as [_ <-].
           apply np.lt_irrefl.
      * intros j y Hj Hy. rewrite lookup_app_l in Hy by done.
        destruct (np.lt_split mp y x Hlt) as [Hmy|Hyx]; [|done].
        by rewrite (Hmax _ _ Hy) in Hmy.
    + apply IH.
      * rewrite lookup_app_l; [done|]. by eapply lookup_lt_Some.
      * intros j y Hy. apply lookup_app_Some in Hy as [Hy|[_ Hy]].
        -- by eapply Hmax.
        -- by apply list_lookup_singleton_Some in Hy as [_ <-].
      * intros j y Hj Hy. apply (Hlow j); [done|].
        rewrite lookup_app_l in Hy; [done|].
        apply lookup_lt_Some in Hmi. lia.
Qed.

(** [np.argmax] of a non-empty vector returns its first maximum. *)
Lemma argmax_first_max (l : list A) :
  l ≠ [] → ∃ r, np.argmax l = Ok r ∧ first_max l r.
Proof.
  destruct l as [|x l]; [done|]. intros _. eexists; split; [done|].
  apply (argmax_scan_first_max [x] l x 0); [done|..].
  - intros [|j] y; simpl; [|done]. intros [= <-]. apply np.lt_irrefl.
  - intros j y Hj. lia.
Qed.

Lemma first_max_unique (l : list A) r1 r2 :
  first_max l r1 → first_max l r2 → r1 = r2.
Proof.
  intros (v1 & Hv1 & Hmax1 & Hlow1) (v2 & Hv2 & Hmax2 & Hlow2).
  destruct (Nat.lt_trichotomy r1 r2) as [Hlt|[->|Hlt]]; [|done|].
  - pose proof (Hlow2 _ _ Hlt Hv1) as H1. by rewrite (Hmax1 _ _ Hv2) in H1.
  - pose proof (Hlow1 _ _ Hlt Hv2) as H1. by rewrite (Hmax2 _ _ Hv1) in H1.
Qed.
End argmax.

(** In a boolean vector the first maximum is the first [true]. *)
Lemma first_max_one_hot (l : list bool) (i : nat) :
  l !! i = Some true → (∀ j, j < i → l !! j = Some false) → first_max l i.
Proof.
  intros Hi Hlow. exists true. split_and!; [done|..].
  - by intros j [] _.
  - intros j x Hj Hx. rewrite (Hlow j Hj) in Hx. by injection Hx as <-.
Qed.

(** ** Decoding *)

Section decode.
Context (self : Unet2DModel).
Local Abbreviation C_ := (IMG_CHANNELS self).

Lemma zip_with_map_r {X Y Z} (f : X → Y → Z) (g : X → Y) (l : list X) :
  zip_with f l (map g l) = map (λ x, f x (g x)) l.
Proof. induction l as [|x l IH]; simpl; [done|]. by rewrite IH. Qed.

Lemma setitem_where_painted idxs (done : list (Color * string)) k lbl :
  length k = C_ →
  setitem_where C_ idxs (length done) k (map (map (painted_by self done)) idxs)
  = Ok (map (map (painted_by self (done ++ [(k, lbl)]))) idxs).
Proof.
  intros Hk. unfold setitem_where. rewrite bcast_to_same by done. simpl.
  f_equal. rewrite zip_with_map_r. apply map_ext. intros row.
  rewrite zip_with_map_r. apply map_ext. intros idx.
  unfold painted_by. destruct (decide (idx = length done)) as [->|Hne].
  - by rewrite lookup_app_r, Nat.sub_diag.
  - destruct (decide (idx < length done)) as [Hlt|Hge].
    + by rewrite lookup_app_l.
    + rewrite lookup_ge_None_2 by lia.
      rewrite lookup_ge_None_2; [done|]. rewrite length_app. simpl. lia.
Qed.

Lemma prediction_to_mask_loop_spec idxs (done cls : list (Color * string)) :
  Forall (λ c, length c.1 = C_) cls →
  prediction_to_mask_loop C_ idxs (length done) cls
    (map (map (painted_by self done)) idxs)
  = Ok (map (map (painted_by self (done ++ cls))) idxs).
Proof.
  intros Hcls. revert done.
  induction Hcls as [|[k lbl] cls Hk _ IH]; intros done; simpl.
  - by rewrite app_nil_r.
  - rewrite (setitem_where_painted _ _ _ lbl) by done. simpl.
    replace (S (length done)) with (length (done ++ [(k, lbl)]))
      by (rewrite length_app; simpl; lia).
    rewrite IH. by rewrite <- app_assoc.
Qed.

Lemma zeros_of_shape {X} (p : list (list X)) d1 (c : Color) :
  Forall (λ row, length row = d1) p →
  replicate (np.shape2 p).1 (replicate (np.shape2 p).2 c)
  = map (map (λ _, c)) p.
Proof.
  intros Hp. destruct p as [|row0 rest]; [done|].
  unfold np.shape2, fst, snd, hd.
  assert (length row0 = d1) as -> by by inversion Hp.
  generalize (row0 :: rest) Hp. clear.
  induction 1 as [|row p Hrow _ IH]; simpl; [done|].
  f_equal; [|done]. rewrite <- Hrow. clear.
  induction row; simpl; [done|]. by f_equal.
Qed.

Context `{np.Order A}.

Lemma argmax_last_spec (prediction : list (list (list A))) :
  Forall (Forall (λ v, v ≠ [])) prediction →
  np.argmax_last prediction = Ok (map (map argmax_idx) prediction).
Proof.
  intros Hp. unfold np.argmax_last. apply traverse_Ok.
  eapply Forall_impl; [exact Hp|]. intros row Hrow. simpl.
  apply traverse_Ok. eapply Forall_impl; [exact Hrow|]. intros v Hv. simpl.
  unfold argmax_idx. by destruct v.
Qed.

(** The decoder writes, at every pixel, the color of the class that
    [argmax] selects there (zero where the table has no such class). *)
Lemma prediction_to_mask_spec (prediction : list (list (list A))) d1 :
  Forall (λ row, length row = d1) prediction →
  Forall (Forall (λ v, v ≠ [])) prediction →
  Forall (λ c, length c.1 = C_) (CLASSES self) →
  _prediction_to_mask self prediction
  = Ok (map (map (λ v, painted_by self (CLASSES self) (argmax_idx v))) prediction).
Proof.
  intros Hrect Hne Hcls. unfold _prediction_to_mask.
  destruct (np.shape2 prediction) as [e0 e1] eqn:Hshape.
  rewrite argmax_last_spec by done. simpl.
  pose proof (prediction_to_mask_loop_spec
                (map (map argmax_idx) prediction) [] _ Hcls) as Hloop.
  simpl in Hloop. rewrite !map_map in Hloop.
  assert (np.full3 0%Z e0 e1 C_
          = map (λ row, map (painted_by self []) (map argmax_idx row)) prediction)
    as ->.
  { unfold np.full3, np.full2, np.full1.
    change e0 with (e0, e1).1. change e1 with (e0, e1).2 at 2.
    rewrite <- Hshape, (zeros_of_shape _ d1) by done.
    apply map_ext. intros row. by rewrite map_map. }
  rewrite Hloop. f_equal. apply map_ext. intros row. by rewrite map_map.
Qed.
End decode.

(** ** Codec properties *)

Lemma wf_classes_lengths (self : Unet2DModel) :
  wf_classes self → Forall (λ c, length c.1 = IMG_CHANNELS self) (CLASSES self).
Proof. intros H. eapply Forall_impl; [exact H|]. by intros c [Hc _]. Qed.

Lemma uint8_id (c : Color) :
  Forall (λ v, (0 ≤ v < 256)%Z) c → map np.uint8 c = c.
Proof.
  induction 1 as [|v c Hv _ IH]; simpl; [done|].
  rewrite IH. f_equal. unfold np.uint8. by apply Z.mod_small.
Qed.

Lemma class_vector_lookup (self : Unet2DModel) (px : Color) (j : nat) :
  class_vector self px !! j = (λ c, color_eqb px c.1) <$> CLASSES self !! j.
Proof. unfold class_vector. apply list_lookup_fmap. Qed.

Lemma class_vector_length (self : Unet2DModel) (px : Color) :
  length (class_vector self px) = NUM_CLASSES self.
Proof. unfold class_vector. by rewrite length_map. Qed.

Lemma argmax_idx_first_max `{np.Order A} (v : list A) (r : nat) :
  first_max v r → argmax_idx v = r.
Proof.
  intros Hr. assert (v ≠ []) as Hv.
  { destruct Hr as (x & Hx & _). by destruct v. }
  destruct (argmax_first_max v Hv) as (r' & Hr' & Hmax).
  unfold argmax_idx. rewrite Hr'. by eapply first_max_unique.
Qed.

Section codec.
Context (self : Unet2DModel).
Local Abbreviation S_ := (IMG_SIZE self).
Local Abbreviation C_ := (IMG_CHANNELS self).
Local Abbreviation N_ := (NUM_CLASSES self).

(** Where the pixel carries the color of class [i] of a table of
    pairwise distinct colors, the class vector is true at [i] only. *)
Lemma class_vector_one_hot (px : Color) (i : nat) (lbl : string) :
  wf_classes self → NoDup (CLASSES self).*1 →
  CLASSES self !! i = Some (px, lbl) →
  ∀ j, j < N_ → class_vector self px !! j = Some (bool_decide (j = i)).
Proof.
  intros Hwf Hnd Hi j Hj. rewrite class_vector_lookup.
  destruct (lookup_lt_is_Some_2 _ _ Hj) as [[c l] Hc]. rewrite Hc. simpl.
  f_equal. apply wf_classes_lengths in Hwf.
  rewrite Forall_lookup in Hwf.
  pose proof (Hwf _ _ Hi) as Hlpx. pose proof (Hwf _ _ Hc) as Hlc.
  simpl in *. apply eq_true_iff_eq.
  rewrite color_eqb_eq, bool_decide_eq_true by congruence.
  split.
  - intros ->. symmetry. eapply NoDup_lookup; [exact Hnd|..].
    + by rewrite list_lookup_fmap, Hi.
    + by rewrite list_lookup_fmap, Hc.
  - intros ->. rewrite Hi in Hc. by injection Hc as -> _.
Qed.

Lemma class_vector_unmatched (px : Color) :
  wf_classes self → length px = C_ → px ∉ (CLASSES self).*1 →
  class_vector self px = replicate N_ false.
Proof.
  intros Hwf Hpx Hnot. unfold class_vector, NUM_CLASSES.
  apply wf_classes_lengths in Hwf.
  induction Hwf as [|[c l] cls Hc _ IH]; simpl in *; [done|].
  apply not_elem_of_cons in Hnot as [Hne Hnot].
  rewrite IH by done. f_equal.
  apply not_true_iff_false. rewrite color_eqb_eq by congruence.
  by intros ->.
Qed.

Lemma decode_one_hot (px : Color) :
  wf_classes self → NoDup (CLASSES self).*1 → px ∈ (CLASSES self).*1 →
  painted_by self (CLASSES self) (argmax_idx (class_vector self px)) = px.
Proof.
  intros Hwf Hnd Hin.
  apply list_elem_of_lookup in Hin as [i Hi].
  rewrite list_lookup_fmap in Hi.
  destruct (CLASSES self !! i) as [[c lbl]|] eqn:Hc; [|done].
  simpl in Hi. injection Hi as ->.
  assert (i < N_) as Hlt by by eapply lookup_lt_Some.
  rewrite (argmax_idx_first_max _ i).
  - unfold painted_by. rewrite Hc. apply uint8_id.
    unfold wf_classes in Hwf. rewrite Forall_lookup in Hwf.
    by destruct (Hwf _ _ Hc).
  - apply first_max_one_hot.
    + rewrite (class_vector_one_hot _ _ lbl) by done.
      by rewrite bool_decide_true.
    + intros j Hj. rewrite (class_vector_one_hot _ _ lbl) by (done || lia).
      rewrite bool_decide_false; [done|lia].
Qed.
End codec.

(** C1. A mask of shape (S,S,C) in which every pixel carries the color of
    some class, over a table of pairwise distinct colors, is reproduced
    exactly by encoding and then decoding it. The class table is
    well-formed (one [uint8] per channel in every color) and has at least
    one class. *)
Theorem mask_round_trip (self : Unet2DModel) (mask : Image) :
  wf_classes self → CLASSES self ≠ [] →
  NoDup (CLASSES self).*1 →
  has_shape3 (IMG_SIZE self) (IMG_SIZE self) (IMG_CHANNELS self) mask →
  Forall (Forall (λ px, px ∈ (CLASSES self).*1)) mask →
  (encoded ← mask_to_classes self mask; _prediction_to_mask self encoded)
  = Ok mask.
Proof.
  intros Hwf Hne Hnd Hshape Hpx.
  rewrite mask_to_classes_spec by (done || by apply wf_classes_lengths).
  simpl.
  rewrite (prediction_to_mask_spec _ _ (IMG_SIZE self)).
  - f_equal. rewrite map_map. rewrite <- (map_id mask) at 2.
    apply map_ext_in. intros row Hrow. rewrite map_map.
    rewrite <- (map_id row) at 2. apply map_ext_in. intros px Hin.
    apply decode_one_hot; [done..|].
    rewrite Forall_forall in Hpx. apply list_elem_of_In in Hrow, Hin.
    pose proof (Hpx _ Hrow) as Hr. rewrite Forall_forall in Hr. by apply Hr.
  - destruct Hshape as [_ Hrows]. apply Forall_fmap.
    eapply Forall_impl; [exact Hrows|]. intros row [Hr _]. simpl.
    by rewrite length_map.
  - apply Forall_fmap, Forall_true. intros row. apply Forall_fmap, Forall_true.
    intros px. simpl. intros Hnil. apply Hne.
    apply (f_equal length) in Hnil. rewrite class_vector_length in Hnil.
    by apply nil_length_inv.
  - by apply wf_classes_lengths.
Qed.

Lemma mask_round_trip_witness :
  (encoded ← mask_to_classes rgb_model rgb_mask;
   _prediction_to_mask rgb_model encoded) = Ok rgb_mask.
Proof.
  apply mask_round_trip.
  - repeat constructor; simpl; lia.
  - done.
  - apply (bool_decide_unpack _). by vm_compute.
  - repeat constructor.
  - repeat constructor.
Defined.

Lemma lookup2_map {X Y} (f : X → Y) (a : list (list X)) x y row px :
  a !! x = Some row → row !! y = Some px →
  ∃ row', map (map f) a !! x = Some row' ∧ row' !! y = Some (f px).
Proof.
  intros Hx Hy. exists (map f row). split.
  - by rewrite (list_lookup_fmap (map f)), Hx.
  - by rewrite (list_lookup_fmap f), Hy.
Qed.

Lemma map_map_shape {X Y} (f : X → list Y) (a : list (list X)) d0 d1 d :
  length a = d0 → Forall (λ row, length row = d1) a →
  (∀ px, length (f px) = d) →
  has_shape3 d0 d1 d (map (map f) a).
Proof.
  intros H0 H1 Hf. split; [by rewrite length_map|].
  apply Forall_fmap. eapply Forall_impl; [exact H1|]. intros row Hrow. simpl.
  split; [by rewrite length_map|]. apply Forall_fmap, Forall_true. apply Hf.
Qed.

(** C4. On a mask of shape (S,S,C) in which every pixel carries the color
    of a class, over a well-formed table of pairwise distinct colors, the
    encoder returns an array of shape (S,S,NUM_CLASSES) whose vector at
    each pixel compares the pixel with the colors in table order and
    holds exactly one [true]. *)
Theorem mask_to_classes_one_hot (self : Unet2DModel) (mask : Image)
    (x y : nat) (row : list Color) (px : Color) :
  wf_classes self → NoDup (CLASSES self).*1 →
  has_shape3 (IMG_SIZE self) (IMG_SIZE self) (IMG_CHANNELS self) mask →
  Forall (Forall (λ px, px ∈ (CLASSES self).*1)) mask →
  mask !! x = Some row → row !! y = Some px →
  ∃ encoded erow vec i,
    mask_to_classes self mask = Ok encoded
    ∧ has_shape3 (IMG_SIZE self) (IMG_SIZE self) (NUM_CLASSES self) encoded
    ∧ encoded !! x = Some erow ∧ erow !! y = Some vec
    ∧ vec = map (λ c, bool_decide (px = c.1)) (CLASSES self)
    ∧ i < NUM_CLASSES self
    ∧ vec = <[i := true]> (replicate (NUM_CLASSES self) false).
Proof.
  intros Hwf Hnd Hshape Hcover Hx Hy.
  pose proof (wf_classes_lengths _ Hwf) as Hlen.
  destruct (lookup2_map (class_vector self) _ _ _ _ _ Hx Hy)
    as (erow & Hex & Hey).
  assert (px ∈ (CLASSES self).*1) as Hin.
  { rewrite Forall_lookup in Hcover. pose proof (Hcover _ _ Hx) as Hrow.
    rewrite Forall_lookup in Hrow. by eapply Hrow. }
  apply list_elem_of_lookup in Hin as [i Hi].
  rewrite list_lookup_fmap in Hi.
  destruct (CLASSES self !! i) as [[c lbl]|] eqn:Hc; [|done].
  simpl in Hi. injection Hi as ->.
  assert (i < NUM_CLASSES self) as Hlt by by eapply lookup_lt_Some.
  exists (map (map (class_vector self)) mask), erow, (class_vector self px), i.
  split_and!; [by apply mask_to_classes_spec| |done|done| |done|].
  - destruct Hshape as [H0 H1]. apply map_map_shape; [done| |].
    + eapply Forall_impl; [exact H1|]. by intros r [Hr _].
    + apply class_vector_length.
  - unfold class_vector. apply map_ext_in. intros [c l] Hcin. simpl.
    apply eq_true_iff_eq. rewrite bool_decide_eq_true. apply color_eqb_eq.
    rewrite Forall_lookup in Hlen. pose proof (Hlen _ _ Hc) as Hpx.
    apply list_elem_of_In, list_elem_of_lookup in Hcin as [j Hj].
    pose proof (Hlen _ _ Hj) as Hcl. simpl in *. congruence.
  - apply list_eq. intros j.
    destruct (decide (j < NUM_CLASSES self)) as [Hj|Hj].
    + rewrite (class_vector_one_hot _ _ _ lbl) by done.
      destruct (decide (j = i)) as [->|Hne].
      * rewrite bool_decide_true by done.
        by rewrite list_lookup_insert_eq by by rewrite length_replicate.
      * rewrite bool_decide_false by done.
        rewrite list_lookup_insert_ne by done.
        by rewrite lookup_replicate_2.
    + rewrite !lookup_ge_None_2; [done|..].
      * rewrite length_insert, length_replicate. lia.
      * rewrite class_vector_length. lia.
Qed.

Lemma mask_to_classes_one_hot_witness :
  ∃ encoded erow vec i,
    mask_to_classes rgb_model rgb_mask = Ok encoded
    ∧ has_shape3 2 2 3 encoded
    ∧ encoded !! 1 = Some erow ∧ erow !! 0 = Some vec
    ∧ vec = map (λ c, bool_decide ([0; 255; 0]%Z = c.1)) rgb_classes
    ∧ i < 3
    ∧ vec = <[i := true]> (replicate 3 false).
Proof.
  apply (mask_to_classes_one_hot rgb_model rgb_mask 1 0
           [[0; 255; 0]; [255; 0; 0]]%Z [0; 255; 0]%Z).
  - repeat constructor; simpl; lia.
  - apply (bool_decide_unpack _). by vm_compute.
  - repeat constructor.
  - repeat constructor.
  - reflexivity.
  - reflexivity.
Defined.

Lemma first_max_all_zero (v : list Q) :
  v ≠ [] → Forall (λ q, (q == 0)%Q) v → first_max v 0.
Proof.
  intros Hne Hz. destruct v as [|q v]; [done|].
  exists q. split_and!; [done| |intros; lia].
  intros j x Hx. rewrite Forall_lookup in Hz.
  pose proof (Hz 0 q eq_refl) as Hq. pose proof (Hz _ _ Hx) as Hx0.
  simpl in *. apply negb_false_iff, Qle_bool_iff.
  rewrite Hq, Hx0. apply Qle_refl.
Qed.

Section decode_pixel.
Context (self : Unet2DModel) `{np.Order A}.

(** The decoder writes the color of the first maximal class. *)
Lemma prediction_to_mask_pixel (prediction : list (list (list A)))
    d0 d1 x y row v r :
  wf_classes self →
  has_shape3 d0 d1 (NUM_CLASSES self) prediction →
  prediction !! x = Some row → row !! y = Some v → first_max v r →
  ∃ m mrow k lbl,
    _prediction_to_mask self prediction = Ok m
    ∧ m !! x = Some mrow ∧ mrow !! y = Some k
    ∧ CLASSES self !! r = Some (k, lbl).
Proof.
  intros Hwf [H0 H1] Hx Hy Hr.
  assert (length v = NUM_CLASSES self) as Hv.
  { rewrite Forall_lookup in H1. destruct (H1 _ _ Hx) as [_ Hrow].
    rewrite Forall_lookup in Hrow. by eapply Hrow. }
  assert (r < NUM_CLASSES self) as Hlt.
  { destruct Hr as (a & Ha & _). rewrite <- Hv. by eapply lookup_lt_Some. }
  destruct (lookup_lt_is_Some_2 (CLASSES self) r Hlt) as [[k lbl] Hk].
  destruct (lookup2_map
              (λ v, painted_by self (CLASSES self) (argmax_idx v))
              _ _ _ _ _ Hx Hy) as (mrow & Hmx & Hmy).
  eexists _, mrow, k, lbl. split_and!; [|exact Hmx| |done].
  - apply (prediction_to_mask_spec _ _ d1).
    + eapply Forall_impl; [exact H1|]. by intros ? [? _].
    + eapply Forall_impl; [exact H1|]. intros ? [_ Hrow].
      eapply Forall_impl; [exact Hrow|]. simpl. intros w Hw ->.
      simpl in Hw. lia.
    + by apply wf_classes_lengths.
  - rewrite Hmy. f_equal. rewrite (argmax_idx_first_max _ r) by done.
    unfold painted_by. rewrite Hk. apply uint8_id.
    unfold wf_classes in Hwf. rewrite Forall_lookup in Hwf.
    by destruct (Hwf _ _ Hk).
Qed.
End decode_pixel.

(** C5. Over a well-formed class table: a pixel whose color is none of
    the table's is encoded, without an error, as the all-false class
    vector; and the decoder writes at a pixel the color of the first
    maximal class of its probability vector, which for an all-zero
    vector is class 0. *)
Theorem unmatched_pixel_and_tie_break (self : Unet2DModel) :
  wf_classes self →
  (∀ (mask : Image) x y row px,
     has_shape3 (IMG_SIZE self) (IMG_SIZE self) (IMG_CHANNELS self) mask →
     mask !! x = Some row → row !! y = Some px →
     px ∉ (CLASSES self).*1 →
     ∃ encoded erow,
       mask_to_classes self mask = Ok encoded
       ∧ encoded !! x = Some erow
       ∧ erow !! y = Some (replicate (NUM_CLASSES self) false))
  ∧ (∀ (prediction : list (list (list Q))) d0 d1 x y row v r,
       has_shape3 d0 d1 (NUM_CLASSES self) prediction →
       prediction !! x = Some row → row !! y = Some v →
       first_max v r →
       ∃ m mrow k lbl,
         _prediction_to_mask self prediction = Ok m
         ∧ m !! x = Some mrow ∧ mrow !! y = Some k
         ∧ CLASSES self !! r = Some (k, lbl))
  ∧ (∀ (prediction : list (list (list Q))) d0 d1 x y row v,
       has_shape3 d0 d1 (NUM_CLASSES self) prediction →
       prediction !! x = Some row → row !! y = Some v →
       0 < NUM_CLASSES self → Forall (λ q, (q == 0)%Q) v →
       ∃ m mrow k lbl,
         _prediction_to_mask self prediction = Ok m
         ∧ m !! x = Some mrow ∧ mrow !! y = Some k
         ∧ CLASSES self !! 0 = Some (k, lbl)).
Proof.
  intros Hwf. split_and!.
  - intros mask x y row px Hshape Hx Hy Hnot.
    destruct (lookup2_map (class_vector self) _ _ _ _ _ Hx Hy)
      as (erow & Hex & Hey).
    exists (map (map (class_vector self)) mask), erow. split_and!; [|done|].
    + apply mask_to_classes_spec; [done|by apply wf_classes_lengths].
    + rewrite Hey. f_equal. apply class_vector_unmatched; [done| |done].
      destruct Hshape as [_ H1]. rewrite Forall_lookup in H1.
      destruct (H1 _ _ Hx) as [_ Hrow]. rewrite Forall_lookup in Hrow.
      by eapply Hrow.
  - intros prediction d0 d1 x y row v r Hshape Hx Hy Hr.
    by eapply prediction_to_mask_pixel.
  - intros prediction d0 d1 x y row v Hshape Hx Hy Hpos Hz.
    eapply prediction_to_mask_pixel; [done..|].
    apply first_max_all_zero; [|done]. intros ->.
    destruct Hshape as [_ H1]. rewrite Forall_lookup in H1.
    destruct (H1 _ _ Hx) as [_ Hrow]. rewrite Forall_lookup in Hrow.
    pose proof (Hrow _ _ Hy) as Hlen. simpl in Hlen. lia.
Qed.

Lemma unmatched_pixel_and_tie_break_witness :
  (∃ encoded erow,
     mask_to_classes rgb_model rgb_mask_unmatched = Ok encoded
     ∧ encoded !! 1 = Some erow ∧ erow !! 1 = Some [false; false; false])
  ∧ (∃ m mrow k lbl,
       _prediction_to_mask rgb_model tied_prediction = Ok m
       ∧ m !! 0 = Some mrow ∧ mrow !! 1 = Some k
       ∧ rgb_classes !! 1 = Some (k, lbl))
  ∧ (∃ m mrow k lbl,
       _prediction_to_mask rgb_model tied_prediction = Ok m
       ∧ m !! 0 = Some mrow ∧ mrow !! 0 = Some k
       ∧ rgb_classes !! 0 = Some (k, lbl)).
Proof.
  assert (wf_classes rgb_model) as Hwf by (repeat constructor; simpl; lia).
  destruct (unmatched_pixel_and_tie_break rgb_model Hwf) as (H1 & H2 & H3).
  split_and!.
  - apply (H1 rgb_mask_unmatched 1 1 [[0; 255; 0]; [1; 2; 3]]%Z [1; 2; 3]%Z).
    + repeat constructor.
    + reflexivity.
    + reflexivity.
    + apply (bool_decide_unpack _). by vm_compute.
  - apply (H2 tied_prediction 1 2 0 1 [[0; 0; 0]; [0.2; 0.4; 0.4]]%Q
             [0.2; 0.4; 0.4]%Q 1).
    + repeat constructor.
    + reflexivity.
    + reflexivity.
    + exists 0.4%Q. split_and!; [reflexivity|..].
      * intros [|[|[|j]]] q Hq; simplify_eq/=; reflexivity.
      * intros [|j] q Hj Hq; [simplify_eq/=; reflexivity|lia].
  - apply (H3 tied_prediction 1 2 0 0 [[0; 0; 0]; [0.2; 0.4; 0.4]]%Q
             [0; 0; 0]%Q).
    + repeat constructor.
    + reflexivity.
    + reflexivity.
    + vm_compute. lia.
    + repeat constructor.
Defined.

(** ** Dataset loader *)


Lemma for_enumerate_app {A} (body : nat → A → M unit) n l1 l2 w :
  for_enumerate body n (l1 ++ l2) w
  = match for_enumerate body n l1 w with
    | (Ok _, w') => for_enumerate body (n + length l1) l2 w'
    | (Raise e, w') => (Raise e, w')
    end.
Proof.
  revert n w. induction l1 as [|x l1 IH]; intros n w; simpl.
  - by rewrite Nat.add_0_r.
  - unfold mbind, M_bind. destruct (body n x w) as [[[]|e] w']; [|done].
    rewrite IH. by rewrite Nat.add_succ_r.
Qed.

Lemma bcast_to3_same {A} d0 d1 d2 (a : list (list (list A))) :
  has_shape3 d0 d1 d2 a → bcast_to3 d0 d1 d2 a = Ok a.
Proof.
  intros [H0 H1]. unfold bcast_to3. rewrite (traverse_Ok _ id).
  - simpl. rewrite map_id. by apply bcast_to_same.
  - eapply Forall_impl; [exact H1|]. intros slab Hslab.
    by apply bcast_to2_same.
Qed.

Lemma slice_shape (a : Image) d0 d1 c channels :
  has_shape3 d0 d1 c a →
  has_shape3 d0 d1 (channels `min` c) (map (map (take channels)) a).
Proof.
  intros [H0 H1]. split; [by rewrite length_map|].
  apply Forall_fmap. eapply Forall_impl; [exact H1|]. intros row [Hr Hpx].
  split; [by rewrite length_map|]. apply Forall_fmap.
  eapply Forall_impl; [exact Hpx|]. intros px Hlen. simpl in *.
  by rewrite length_take, Hlen.
Qed.

Lemma shape_2_of_shape {A} (a : list (list (list A))) d0 d1 d2 :
  0 < d0 → 0 < d1 → has_shape3 d0 d1 d2 a → shape_2 a = d2.
Proof.
  intros Hd0 Hd1 [H0 H1]. destruct a as [|row a]; simpl in *; [lia|].
  apply Forall_cons in H1 as [[Hr Hpx] _].
  destruct row as [|px row]; simpl in *; [lia|].
  by apply Forall_cons in Hpx as [Hpx _].
Qed.


Lemma store_image_ok d0 d1 c channels n (a : Image) (arr : list Image) :
  has_shape3 d0 d1 c a → channels ≤ c → n < length arr →
  store_image d0 d1 channels n (map (map (take channels)) a) arr
  = Ok (<[n := stored_image channels a]> arr).
Proof.
  intros Ha Hc Hn. unfold store_image. rewrite decide_True by done.
  rewrite bcast_to3_same; [done|].
  replace channels with (channels `min` c) at 1 by lia. by apply slice_shape.
Qed.

Lemma store_planes_ok d0 d1 d2 n (p : Planes) (arr : list Planes) :
  has_shape3 d0 d1 d2 p → n < length arr →
  store_planes d0 d1 d2 n p arr = Ok (<[n := p]> arr).
Proof.
  intros Hp Hn. unfold store_planes. rewrite decide_True by done.
  by rewrite bcast_to3_same.
Qed.

Lemma sliced_shape_2 (a : Image) d0 d1 c channels :
  0 < d0 → 0 < d1 → has_shape3 d0 d1 c a →
  shape_2 (map (map (take channels)) a) = channels `min` c.
Proof.
  intros H0 H1 Ha. eapply shape_2_of_shape; [exact H0|exact H1|].
  by apply slice_shape.
Qed.

Lemma encoded_shape (self : Unet2DModel) (m : Image) d0 d1 d2 :
  has_shape3 d0 d1 d2 m →
  has_shape3 d0 d1 (NUM_CLASSES self) (map (map (class_vector self)) m).
Proof.
  intros [H0 H1]. apply map_map_shape; [done| |apply class_vector_length].
  eapply Forall_impl; [exact H1|]. by intros ? [? _].
Qed.

(** Unfolding of the loader monad in a goal. *)
Ltac run_M :=
  unfold mbind, M_bind, mret, M_ret, get_self, imread, lift, raise, attr,
    modify_self; cbn.

(** The image half of a loop body on an accepted image file. *)
Ltac run_good_image Himg HS Himgs Hn :=
  let a := fresh "a" in let c := fresh "c" in
  let Ha := fresh "Ha" in let Hc := fresh "Hc" in let Hf := fresh "Hf" in
  destruct Himg as (a & c & Hf & Ha & Hc);
  unfold image_path in Hf; rewrite Hf; cbn;
  rewrite (sliced_shape_2 _ _ _ c) by (exact HS || exact Ha);
  rewrite decide_False by lia; cbn;
  rewrite Himgs;
  rewrite (store_image_ok _ _ c) by (exact Ha || exact Hc || exact Hn); cbn.

(** The mask half of a loop body on an accepted mask file. *)
Ltac run_good_mask Hmask HS Hcls Hpls Hn :=
  let m := fresh "m" in let Hm := fresh "Hm" in let Hf := fresh "Hf" in
  destruct Hmask as (m & Hf & Hm);
  unfold mask_path in Hf; rewrite Hf; cbn;
  rewrite (shape_2_of_shape _ _ _ _ HS HS Hm);
  rewrite decide_False by lia; cbn;
  rewrite mask_to_classes_spec by (exact Hm || exact Hcls); cbn;
  rewrite Hpls;
  rewrite store_planes_ok by (exact Hn || by eapply encoded_shape); cbn.

(** The mask half of a loop body on a refused mask file. *)
Ltac run_bad_mask Hmask :=
  let g := fresh "g" in let m := fresh "m" in
  let Hf := fresh "Hf" in let Hm := fresh "Hm" in
  destruct Hmask as [(g & Hf)|(m & Hf & Hm)];
  unfold mask_path in Hf; rewrite Hf; cbn; [|rewrite decide_True by done; cbn].

Section load_sample.
Context (fs : FS) (w : world).
Local Abbreviation self := (obj w).
Local Abbreviation S_ := (IMG_SIZE self).
Local Abbreviation C_ := (IMG_CHANNELS self).
Local Abbreviation train := (PREPROCESSED_TRAIN_PATH self).
Local Abbreviation test := (PREPROCESSED_TEST_PATH self).

Context (HS : 0 < S_).
Context (Hcls : Forall (λ c, length c.1 = C_) (CLASSES self)).

Lemma load_training_sample_good n id_ imgs pls :
  good_sample self fs train id_ →
  train_images self = Some imgs → n < length imgs →
  train_masks self = Some pls → n < length pls →
  load_training_sample fs n id_ w
  = (Ok (),
     {| obj := set_train_masks
                 (<[n := map (map (class_vector self))
                           (the_array (files fs !! mask_path train id_))]> pls)
                 (set_train_images
                    (<[n := stored_image C_
                              (the_array (files fs !! image_path train id_))]>
                       imgs) self);
        reads := reads w ++ [image_path train id_; mask_path train id_] |}).
Proof using HS Hcls.
  intros [Himg Hmask] Himgs Hn Hpls Hn'.
  unfold load_training_sample. run_M.
  unfold image_path, mask_path.
  run_good_image Himg HS Himgs Hn.
  run_good_mask Hmask HS Hcls Hpls Hn'.
  by rewrite <- app_assoc.
Qed.

Lemma load_training_sample_narrow n id_ :
  narrow_image self (files fs !! image_path train id_) →
  load_training_sample fs n id_ w
  = (Raise (BaseException ("Invalid channel number in training image " +:+ id_)),
     {| obj := self; reads := reads w ++ [image_path train id_] |}).
Proof using HS.
  intros (a & c & Hf & Ha & Hc).
  unfold load_training_sample. run_M.
  unfold image_path in *. rewrite Hf. cbn.
  rewrite (sliced_shape_2 _ _ _ c) by done.
  by rewrite decide_True by lia.
Qed.

Lemma load_training_sample_bad_mask n id_ imgs :
  good_image self (files fs !! image_path train id_) →
  bad_mask self (files fs !! mask_path train id_) →
  train_images self = Some imgs → n < length imgs →
  load_training_sample fs n id_ w
  = (Raise (BaseException ("Invalid channel number in mask image " +:+ id_)),
     {| obj := set_train_images
                 (<[n := stored_image C_
                           (the_array (files fs !! image_path train id_))]>
                    imgs) self;
        reads := reads w ++ [image_path train id_; mask_path train id_] |}).
Proof using HS.
  intros Himg Hmask Himgs Hn.
  unfold load_training_sample. run_M.
  unfold image_path, mask_path.
  run_good_image Himg HS Himgs Hn.
  run_bad_mask Hmask; by rewrite <- app_assoc.
Qed.
End load_sample.

Lemma insert_middle {A} (pre post : list A) (z x : A) (n k : nat) :
  length pre = n →
  <[n := x]> (pre ++ replicate (S k) z ++ post)
  = (pre ++ [x]) ++ replicate k z ++ post.
Proof.
  intros <-. rewrite insert_app_r_alt by lia. rewrite Nat.sub_diag. simpl.
  by rewrite <- app_assoc.
Qed.

Lemma length_middle {A} (pre post : list A) (z : A) (n k : nat) :
  length pre = n → n < length (pre ++ replicate (S k) z ++ post).
Proof. intros <-. rewrite !length_app, length_replicate. lia. Qed.

Lemma length_snoc {A} (pre : list A) (x : A) (n : nat) :
  length pre = n → length (pre ++ [x]) = S n.
Proof. intros <-. rewrite length_app. simpl. lia. Qed.

Lemma train_loop_good (fs : FS) (ids : list string) :
  ∀ (w : world) n pre_i post_i pre_m post_m zi zm,
    0 < IMG_SIZE (obj w) →
    Forall (λ c, length c.1 = IMG_CHANNELS (obj w)) (CLASSES (obj w)) →
    Forall (good_sample (obj w) fs (PREPROCESSED_TRAIN_PATH (obj w))) ids →
    train_images (obj w) = Some (pre_i ++ replicate (length ids) zi ++ post_i) →
    train_masks (obj w) = Some (pre_m ++ replicate (length ids) zm ++ post_m) →
    length pre_i = n → length pre_m = n →
    for_enumerate (load_training_sample fs) n ids w
    = (Ok (),
       {| obj :=
            set_train_masks
              (pre_m ++ loaded_masks (obj w) fs (PREPROCESSED_TRAIN_PATH (obj w)) ids
                 ++ post_m)
              (set_train_images
                 (pre_i ++ loaded_images (obj w) fs (PREPROCESSED_TRAIN_PATH (obj w)) ids
                    ++ post_i)
                 (obj w));
          reads := reads w ++ sample_paths (PREPROCESSED_TRAIN_PATH (obj w)) ids |}).
Proof.
  induction ids as [|id_ ids IH];
    intros w n pre_i post_i pre_m post_m zi zm HS Hcls Hgood Himgs Hpls Hi Hm.
  - cbn in *. rewrite app_nil_r. destruct w as [[] t]; cbn in *.
    by rewrite Himgs, Hpls.
  - apply Forall_cons in Hgood as [Hid Hgood]. cbn [for_enumerate].
    cbn [length] in Himgs, Hpls.
    unfold mbind at 1. unfold M_bind at 1.
    erewrite load_training_sample_good;
      [|done|done|done|exact Himgs|by apply length_middle|exact Hpls
       |by apply length_middle].
    rewrite !insert_middle by done.
    erewrite IH; cbn;
      [|done|done|done|reflexivity|reflexivity
       |by apply length_snoc|by apply length_snoc].
    unfold sample_paths. cbn. by rewrite <- !app_assoc.
Qed.

Section load_test_sample.
Context (fs : FS) (w : world).
Local Abbreviation self := (obj w).
Local Abbreviation S_ := (IMG_SIZE self).
Local Abbreviation C_ := (IMG_CHANNELS self).
Local Abbreviation test := (PREPROCESSED_TEST_PATH self).

Context (HS : 0 < S_).

Lemma load_testing_sample_good n id_ imgs pls :
  Forall (λ c, length c.1 = C_) (CLASSES self) →
  truthy (IS_TEST_DATA_LABELED self) = true →
  good_sample self fs test id_ →
  test_images self = Some imgs → n < length imgs →
  test_masks self = Some pls → n < length pls →
  load_testing_sample fs n id_ w
  = (Ok (),
     {| obj := set_test_masks
                 (<[n := map (map (class_vector self))
                           (the_array (files fs !! mask_path test id_))]> pls)
                 (set_test_images
                    (<[n := stored_image C_
                              (the_array (files fs !! image_path test id_))]>
                       imgs) self);
        reads := reads w ++ [image_path test id_; mask_path test id_] |}).
Proof using HS.
  intros Hcls Hflag [Himg Hmask] Himgs Hn Hpls Hn'.
  unfold load_testing_sample. run_M.
  unfold image_path, mask_path.
  run_good_image Himg HS Himgs Hn. rewrite Hflag.
  run_good_mask Hmask HS Hcls Hpls Hn'.
  by rewrite <- app_assoc.
Qed.

Lemma load_testing_sample_narrow n id_ :
  narrow_image self (files fs !! image_path test id_) →
  load_testing_sample fs n id_ w
  = (Raise (BaseException ("Invalid channel number in test image " +:+ id_)),
     {| obj := self; reads := reads w ++ [image_path test id_] |}).
Proof using HS.
  intros (a & c & Hf & Ha & Hc).
  unfold load_testing_sample. run_M.
  unfold image_path in *. rewrite Hf. cbn.
  rewrite (sliced_shape_2 _ _ _ c) by done.
  by rewrite decide_True by lia.
Qed.

Lemma load_testing_sample_bad_mask n id_ imgs :
  truthy (IS_TEST_DATA_LABELED self) = true →
  good_image self (files fs !! image_path test id_) →
  bad_mask self (files fs !! mask_path test id_) →
  test_images self = Some imgs → n < length imgs →
  load_testing_sample fs n id_ w
  = (Raise (BaseException ("Invalid channel number in mask image " +:+ id_)),
     {| obj := set_test_images
                 (<[n := stored_image C_
                           (the_array (files fs !! image_path test id_))]>
                    imgs) self;
        reads := reads w ++ [image_path test id_; mask_path test id_] |}).
Proof using HS.
  intros Hflag Himg Hmask Himgs Hn.
  unfold load_testing_sample. run_M.
  unfold image_path, mask_path.
  run_good_image Himg HS Himgs Hn. rewrite Hflag.
  run_bad_mask Hmask; by rewrite <- app_assoc.
Qed.

(** Without labels the body stops after the image. *)
Lemma load_testing_sample_unlabeled n id_ imgs :
  truthy (IS_TEST_DATA_LABELED self) = false →
  good_image self (files fs !! image_path test id_) →
  test_images self = Some imgs → n < length imgs →
  load_testing_sample fs n id_ w
  = (Ok (),
     {| obj := set_test_images
                 (<[n := stored_image C_
                           (the_array (files fs !! image_path test id_))]>
                    imgs) self;
        reads := reads w ++ [image_path test id_] |}).
Proof using HS.
  intros Hflag Himg Himgs Hn.
  unfold load_testing_sample. run_M.
  unfold image_path.
  run_good_image Himg HS Himgs Hn. by rewrite Hflag.
Qed.
End load_test_sample.

(** Without labels, and whatever the image file holds, the body reads the
    image path only and writes no attribute but [test_images]. *)
Lemma load_testing_sample_frame (fs : FS) (w : world) n id_ :
  truthy (IS_TEST_DATA_LABELED (obj w)) = false →
  ∃ r o,
    load_testing_sample fs n id_ w
    = (r, {| obj := o;
             reads := reads w
                      ++ [image_path (PREPROCESSED_TEST_PATH (obj w)) id_] |})
    ∧ (o = obj w ∨ ∃ imgs, o = set_test_images imgs (obj w)).
Proof.
  intros Hflag. unfold load_testing_sample. run_M. unfold image_path.
  destruct (files fs !! _) as [raw|]; cbn; [|by eauto].
  destruct (slice_channels _ raw) as [img|e]; cbn; [|by eauto].
  destruct (decide (shape_2 img ≠ _)); cbn; [by eauto|].
  destruct (test_images (obj w)) as [imgs|]; cbn; [|by eauto].
  destruct (store_image _ _ _ n img imgs) as [imgs'|e]; cbn; [|by eauto].
  rewrite Hflag. cbn. do 2 eexists. split; [reflexivity|]. right. by eexists.
Qed.

Lemma test_loop_good (fs : FS) (ids : list string) :
  ∀ (w : world) n pre_i post_i pre_m post_m zi zm,
    0 < IMG_SIZE (obj w) →
    Forall (λ c, length c.1 = IMG_CHANNELS (obj w)) (CLASSES (obj w)) →
    truthy (IS_TEST_DATA_LABELED (obj w)) = true →
    Forall (good_sample (obj w) fs (PREPROCESSED_TEST_PATH (obj w))) ids →
    test_images (obj w) = Some (pre_i ++ replicate (length ids) zi ++ post_i) →
    test_masks (obj w) = Some (pre_m ++ replicate (length ids) zm ++ post_m) →
    length pre_i = n → length pre_m = n →
    for_enumerate (load_testing_sample fs) n ids w
    = (Ok (),
       {| obj :=
            set_test_masks
              (pre_m ++ loaded_masks (obj w) fs (PREPROCESSED_TEST_PATH (obj w)) ids
                 ++ post_m)
              (set_test_images
                 (pre_i ++ loaded_images (obj w) fs (PREPROCESSED_TEST_PATH (obj w)) ids
                    ++ post_i)
                 (obj w));
          reads := reads w ++ sample_paths (PREPROCESSED_TEST_PATH (obj w)) ids |}).
Proof.
  induction ids as [|id_ ids IH];
    intros w n pre_i post_i pre_m post_m zi zm HS Hcls Hflag Hgood Himgs Hpls
      Hi Hm.
  - cbn in *. rewrite app_nil_r. destruct w as [[] t]; cbn in *.
    by rewrite Himgs, Hpls.
  - apply Forall_cons in Hgood as [Hid Hgood]. cbn [for_enumerate].
    cbn [length] in Himgs, Hpls.
    unfold mbind at 1. unfold M_bind at 1.
    erewrite load_testing_sample_good;
      [|done|done|done|done|exact Himgs|by apply length_middle|exact Hpls
       |by apply length_middle].
    rewrite !insert_middle by done.
    erewrite IH; cbn;
      [|done|done|done|done|reflexivity|reflexivity
       |by apply length_snoc|by apply length_snoc].
    unfold sample_paths. cbn. by rewrite <- !app_assoc.
Qed.

Lemma test_loop_unlabeled (fs : FS) (ids : list string) :
  ∀ (w : world) n pre_i post_i zi,
    0 < IMG_SIZE (obj w) →
    truthy (IS_TEST_DATA_LABELED (obj w)) = false →
    Forall (λ id_, good_image (obj w)
              (files fs !! image_path (PREPROCESSED_TEST_PATH (obj w)) id_)) ids →
    test_images (obj w) = Some (pre_i ++ replicate (length ids) zi ++ post_i) →
    length pre_i = n →
    for_enumerate (load_testing_sample fs) n ids w
    = (Ok (),
       {| obj :=
            set_test_images
              (pre_i ++ loaded_images (obj w) fs (PREPROCESSED_TEST_PATH (obj w)) ids
                 ++ post_i)
              (obj w);
          reads := reads w ++ image_paths (PREPROCESSED_TEST_PATH (obj w)) ids |}).
Proof.
  induction ids as [|id_ ids IH];
    intros w n pre_i post_i zi HS Hflag Hgood Himgs Hi.
  - cbn in *. rewrite app_nil_r. destruct w as [[] t]; cbn in *.
    by rewrite Himgs.
  - apply Forall_cons in Hgood as [Hid Hgood]. cbn [for_enumerate].
    cbn [length] in Himgs.
    unfold mbind at 1. unfold M_bind at 1.
    erewrite load_testing_sample_unlabeled;
      [|done|done|done|exact Himgs|by apply length_middle].
    rewrite !insert_middle by done.
    erewrite IH; cbn;
      [|done|done|done|reflexivity|by apply length_snoc].
    unfold image_paths. cbn. by rewrite <- !app_assoc.
Qed.

Lemma test_loop_frame (fs : FS) (ids : list string) :
  ∀ (w : world) n,
    truthy (IS_TEST_DATA_LABELED (obj w)) = false →
    ∃ r o k,
      for_enumerate (load_testing_sample fs) n ids w
      = (r, {| obj := o;
               reads := reads w
                        ++ image_paths (PREPROCESSED_TEST_PATH (obj w))
                             (take k ids) |})
      ∧ (o = obj w ∨ ∃ imgs, o = set_test_images imgs (obj w)).
Proof.
  induction ids as [|id_ ids IH]; intros w n Hflag.
  - exists (Ok ()), (obj w), 0. cbn. rewrite app_nil_r.
    split; [by destruct w|by left].
  - cbn [for_enumerate]. unfold mbind at 1. unfold M_bind at 1.
    destruct (load_testing_sample_frame fs w n id_ Hflag)
      as (r & o & -> & Ho).
    destruct r as [[]|e].
    + set (w1 := {| obj := o; reads := _ |}).
      assert (truthy (IS_TEST_DATA_LABELED (obj w1)) = false
              ∧ PREPROCESSED_TEST_PATH (obj w1) = PREPROCESSED_TEST_PATH (obj w))
        as [Hflag1 Hpath1] by by destruct Ho as [->|[imgs ->]].
      destruct (IH w1 (S n) Hflag1) as (r' & o' & k & -> & Ho').
      exists r', o', (S k). split.
      * rewrite Hpath1. unfold w1. cbn. by rewrite <- app_assoc.
      * destruct Ho' as [->|[imgs' ->]]; [done|]. right. unfold w1. cbn.
        destruct Ho as [->|[imgs ->]]; by eexists.
    + exists (Raise e), o, 1. cbn. rewrite take_0. done.
Qed.

(** The loaders, once the directory is listed: two fresh arrays and the
    loop. *)
Lemma load_training_images_listed (fs : FS) (w : world) ids :
  walk_files fs (PREPROCESSED_TRAIN_PATH (obj w) +:+ "images/") = Some ids →
  load_training_images fs w
  = for_enumerate (load_training_sample fs) 0 ids
      {| obj := set_train_masks (zero_masks (obj w) (length ids))
                  (set_train_images (zero_images (obj w) (length ids)) (obj w));
         reads := reads w |}.
Proof.
  intros Hwalk. unfold load_training_images, os_walk_files. run_M.
  by rewrite Hwalk.
Qed.

Lemma load_testing_images_listed (fs : FS) (w : world) ids :
  walk_files fs (PREPROCESSED_TEST_PATH (obj w) +:+ "images/") = Some ids →
  load_testing_images fs w
  = for_enumerate (load_testing_sample fs) 0 ids
      {| obj := set_test_masks (zero_masks (obj w) (length ids))
                  (set_test_images (zero_images (obj w) (length ids)) (obj w));
         reads := reads w |}.
Proof.
  intros Hwalk. unfold load_testing_images, os_walk_files. run_M.
  by rewrite Hwalk.
Qed.

Lemma string_app_assoc (s1 s2 s3 : string) :
  (s1 +:+ s2) +:+ s3 = s1 +:+ (s2 +:+ s3).
Proof.
  induction s1 as [|a s1 IH]; [done|].
  change (String a ((s1 +:+ s2) +:+ s3) = String a (s1 +:+ (s2 +:+ s3))).
  by rewrite IH.
Qed.

(** No image path is a mask path. *)
Lemma image_path_not_mask_path (root id_ id' : string) :
  image_path root id_ ≠ mask_path root id'.
Proof.
  unfold image_path, mask_path. rewrite !string_app_assoc.
  intros H%(inj (String.app root)). discriminate H.
Qed.

(** C8. With a flag that is not true, [load_testing_images] hands to
    [imread] image paths only, whatever the files hold and whether or not
    it raises, and leaves [test_masks] the zero-filled array it created;
    when every listed image file is acceptable it returns and
    [test_images] holds the images. *)
Theorem unlabeled_test_split_reads_no_mask (fs : FS) (w : world)
    (ids : list string) :
  truthy (IS_TEST_DATA_LABELED (obj w)) = false →
  walk_files fs (PREPROCESSED_TEST_PATH (obj w) +:+ "images/") = Some ids →
  ∃ r w' k,
    load_testing_images fs w = (r, w')
    ∧ reads w' = reads w ++ image_paths (PREPROCESSED_TEST_PATH (obj w)) (take k ids)
    ∧ Forall (λ p, ∀ id_, p ≠ mask_path (PREPROCESSED_TEST_PATH (obj w)) id_)
        (image_paths (PREPROCESSED_TEST_PATH (obj w)) (take k ids))
    ∧ test_masks (obj w') = Some (zero_masks (obj w) (length ids))
    ∧ (0 < IMG_SIZE (obj w) →
       Forall (λ id_, good_image (obj w)
                 (files fs !! image_path (PREPROCESSED_TEST_PATH (obj w)) id_)) ids →
       r = Ok ()
       ∧ reads w' = reads w ++ image_paths (PREPROCESSED_TEST_PATH (obj w)) ids
       ∧ test_images (obj w')
         = Some (loaded_images (obj w) fs (PREPROCESSED_TEST_PATH (obj w)) ids)).
Proof.
  intros Hflag Hwalk. rewrite (load_testing_images_listed _ _ _ Hwalk).
  set (w0 := {| obj := _; reads := reads w |}).
  destruct (test_loop_frame fs ids w0 0 Hflag) as (r & o & k & Hrun & Ho).
  cbn in Hrun. eexists r, _, k. split_and!; [exact Hrun|done|..].
  - apply Forall_fmap, Forall_true. intros id_ id'. cbn.
    apply image_path_not_mask_path.
  - cbn. by destruct Ho as [->|[imgs ->]].
  - intros HS Hgood.
    pose proof (test_loop_unlabeled fs ids w0 0 [] []
                  (np.full3 0%Z (IMG_SIZE (obj w)) (IMG_SIZE (obj w))
                     (IMG_CHANNELS (obj w)))
                  HS Hflag Hgood) as Hok.
    cbn in Hok. rewrite app_nil_r in Hok.
    rewrite Hok in Hrun by done.
    injection Hrun as <- <- Hreads. by rewrite app_nil_r.
Qed.

Lemma replicate_split {A} (z : A) (l1 l2 : list string) :
  replicate (length (l1 ++ l2)) z
  = replicate (length l1) z ++ replicate (length l2) z.
Proof. by rewrite length_app, replicate_add. Qed.

(** After the samples of an acceptable prefix [good] of the listing the
    loaders stand at the next sample, the arrays filled up to it. *)
Lemma load_training_images_prefix (fs : FS) (w : world) good rest :
  0 < IMG_SIZE (obj w) →
  Forall (λ c, length c.1 = IMG_CHANNELS (obj w)) (CLASSES (obj w)) →
  walk_files fs (PREPROCESSED_TRAIN_PATH (obj w) +:+ "images/")
    = Some (good ++ rest) →
  Forall (good_sample (obj w) fs (PREPROCESSED_TRAIN_PATH (obj w))) good →
  load_training_images fs w
  = for_enumerate (load_training_sample fs) (length good) rest
      {| obj :=
           set_train_masks
             (loaded_masks (obj w) fs (PREPROCESSED_TRAIN_PATH (obj w)) good
                ++ zero_masks (obj w) (length rest))
             (set_train_images
                (loaded_images (obj w) fs (PREPROCESSED_TRAIN_PATH (obj w)) good
                   ++ zero_images (obj w) (length rest))
                (obj w));
         reads := reads w ++ sample_paths (PREPROCESSED_TRAIN_PATH (obj w)) good |}.
Proof.
  intros HS Hcls Hwalk Hgood.
  rewrite (load_training_images_listed _ _ _ Hwalk).
  rewrite for_enumerate_app. unfold zero_masks, zero_images.
  rewrite !replicate_split.
  set (zi := np.full3 0%Z _ _ _). set (zm := np.full3 false _ _ _).
  set (w0 := {| obj := _; reads := reads w |}).
  by rewrite (train_loop_good fs good w0 0 [] (replicate (length rest) zi)
                [] (replicate (length rest) zm) zi zm).
Qed.

Lemma load_testing_images_prefix (fs : FS) (w : world) good rest :
  0 < IMG_SIZE (obj w) →
  Forall (λ c, length c.1 = IMG_CHANNELS (obj w)) (CLASSES (obj w)) →
  truthy (IS_TEST_DATA_LABELED (obj w)) = true →
  walk_files fs (PREPROCESSED_TEST_PATH (obj w) +:+ "images/")
    = Some (good ++ rest) →
  Forall (good_sample (obj w) fs (PREPROCESSED_TEST_PATH (obj w))) good →
  load_testing_images fs w
  = for_enumerate (load_testing_sample fs) (length good) rest
      {| obj :=
           set_test_masks
             (loaded_masks (obj w) fs (PREPROCESSED_TEST_PATH (obj w)) good
                ++ zero_masks (obj w) (length rest))
             (set_test_images
                (loaded_images (obj w) fs (PREPROCESSED_TEST_PATH (obj w)) good
                   ++ zero_images (obj w) (length rest))
                (obj w));
         reads := reads w ++ sample_paths (PREPROCESSED_TEST_PATH (obj w)) good |}.
Proof.
  intros HS Hcls Hflag Hwalk Hgood.
  rewrite (load_testing_images_listed _ _ _ Hwalk).
  rewrite for_enumerate_app. unfold zero_masks, zero_images.
  rewrite !replicate_split.
  set (zi := np.full3 0%Z _ _ _). set (zm := np.full3 false _ _ _).
  set (w0 := {| obj := _; reads := reads w |}).
  by rewrite (test_loop_good fs good w0 0 [] (replicate (length rest) zi)
                [] (replicate (length rest) zm) zi zm).
Qed.

Lemma load_testing_images_prefix_unlabeled (fs : FS) (w : world) good rest :
  0 < IMG_SIZE (obj w) →
  truthy (IS_TEST_DATA_LABELED (obj w)) = false →
  walk_files fs (PREPROCESSED_TEST_PATH (obj w) +:+ "images/")
    = Some (good ++ rest) →
  Forall (λ id_, good_image (obj w)
            (files fs !! image_path (PREPROCESSED_TEST_PATH (obj w)) id_)) good →
  load_testing_images fs w
  = for_enumerate (load_testing_sample fs) (length good) rest
      {| obj :=
           set_test_masks (zero_masks (obj w) (length (good ++ rest)))
             (set_test_images
                (loaded_images (obj w) fs (PREPROCESSED_TEST_PATH (obj w)) good
                   ++ zero_images (obj w) (length rest))
                (obj w));
         reads := reads w ++ image_paths (PREPROCESSED_TEST_PATH (obj w)) good |}.
Proof.
  intros HS Hflag Hwalk Hgood.
  rewrite (load_testing_images_listed _ _ _ Hwalk).
  rewrite for_enumerate_app. unfold zero_images.
  rewrite (replicate_split (np.full3 0%Z _ _ _)).
  set (zi := np.full3 0%Z _ _ _).
  set (w0 := {| obj := _; reads := reads w |}).
  by rewrite (test_loop_unlabeled fs good w0 0 [] (replicate (length rest) zi) zi).
Qed.

Lemma wide_mask_bad (self : Unet2DModel) (r : option ndarray) :
  0 < IMG_SIZE self → wide_mask self r → bad_mask self r.
Proof.
  intros HS (m & c & -> & Hm & Hc). right. exists m. split; [done|].
  rewrite (shape_2_of_shape _ _ _ _ HS HS Hm). lia.
Qed.

Lemma good_sample_image (self : Unet2DModel) (fs : FS) root ids :
  Forall (good_sample self fs root) ids →
  Forall (λ id_, good_image self (files fs !! image_path root id_)) ids.
Proof. intros H. eapply Forall_impl; [exact H|]. by intros id_ [? _]. Qed.

(** C10. An image with more channels than [IMG_CHANNELS] (and the right
    size) is accepted by both loaders and stored cut to its first
    [IMG_CHANNELS] channels; a mask with more channels than
    [IMG_CHANNELS] makes both loaders raise the invalid-channel error of
    masks (the test loader when it reads masks at all). *)
Theorem wide_image_truncated_wide_mask_refused (fs : FS) (w : world) :
  0 < IMG_SIZE (obj w) →
  Forall (λ c, length c.1 = IMG_CHANNELS (obj w)) (CLASSES (obj w)) →
  (∀ ids,
     walk_files fs (PREPROCESSED_TRAIN_PATH (obj w) +:+ "images/") = Some ids →
     Forall (good_sample (obj w) fs (PREPROCESSED_TRAIN_PATH (obj w))) ids →
     ∃ w', load_training_images fs w = (Ok (), w')
           ∧ train_images (obj w')
             = Some (map (λ id_, stored_image (IMG_CHANNELS (obj w))
                       (the_array (files fs !!
                          image_path (PREPROCESSED_TRAIN_PATH (obj w)) id_))) ids))
  ∧ (∀ good id_ rest,
       walk_files fs (PREPROCESSED_TRAIN_PATH (obj w) +:+ "images/")
         = Some (good ++ id_ :: rest) →
       Forall (good_sample (obj w) fs (PREPROCESSED_TRAIN_PATH (obj w))) good →
       good_image (obj w)
         (files fs !! image_path (PREPROCESSED_TRAIN_PATH (obj w)) id_) →
       wide_mask (obj w)
         (files fs !! mask_path (PREPROCESSED_TRAIN_PATH (obj w)) id_) →
       ∃ w', load_training_images fs w
             = (Raise (BaseException
                         ("Invalid channel number in mask image " +:+ id_)), w'))
  ∧ (∀ ids,
       walk_files fs (PREPROCESSED_TEST_PATH (obj w) +:+ "images/") = Some ids →
       Forall (λ id_, good_image (obj w)
                 (files fs !! image_path (PREPROCESSED_TEST_PATH (obj w)) id_)) ids →
       (truthy (IS_TEST_DATA_LABELED (obj w)) = true →
        Forall (λ id_, good_mask (obj w)
                  (files fs !! mask_path (PREPROCESSED_TEST_PATH (obj w)) id_)) ids) →
       ∃ w', load_testing_images fs w = (Ok (), w')
             ∧ test_images (obj w')
               = Some (map (λ id_, stored_image (IMG_CHANNELS (obj w))
                         (the_array (files fs !!
                            image_path (PREPROCESSED_TEST_PATH (obj w)) id_))) ids))
  ∧ (∀ good id_ rest,
       truthy (IS_TEST_DATA_LABELED (obj w)) = true →
       walk_files fs (PREPROCESSED_TEST_PATH (obj w) +:+ "images/")
         = Some (good ++ id_ :: rest) →
       Forall (good_sample (obj w) fs (PREPROCESSED_TEST_PATH (obj w))) good →
       good_image (obj w)
         (files fs !! image_path (PREPROCESSED_TEST_PATH (obj w)) id_) →
       wide_mask (obj w)
         (files fs !! mask_path (PREPROCESSED_TEST_PATH (obj w)) id_) →
       ∃ w', load_testing_images fs w
             = (Raise (BaseException
                         ("Invalid channel number in mask image " +:+ id_)), w')).
Proof.
  intros HS Hcls. split_and!.
  - intros ids Hwalk Hgood.
    rewrite <- (app_nil_r ids) in Hwalk.
    rewrite (load_training_images_prefix _ _ _ _ HS Hcls Hwalk Hgood).
    eexists. split; [reflexivity|]. cbn. by rewrite app_nil_r.
  - intros good id_ rest Hwalk Hgood Himg Hmask.
    rewrite (load_training_images_prefix _ _ _ _ HS Hcls Hwalk Hgood).
    cbn [for_enumerate]. unfold mbind at 1. unfold M_bind at 1.
    erewrite load_training_sample_bad_mask;
      [by eexists|done|done|by apply wide_mask_bad|reflexivity|].
    unfold loaded_images, zero_images.
    rewrite length_app, length_map, length_replicate. cbn. lia.
  - intros ids Hwalk Hgood Hmasks.
    rewrite <- (app_nil_r ids) in Hwalk.
    destruct (truthy (IS_TEST_DATA_LABELED (obj w))) eqn:Hflag.
    + assert (Forall (good_sample (obj w) fs (PREPROCESSED_TEST_PATH (obj w))) ids)
        as Hsamples.
      { specialize (Hmasks eq_refl). rewrite Forall_forall in Hgood, Hmasks.
        apply Forall_forall. intros id_ Hin. split; auto. }
      rewrite (load_testing_images_prefix _ _ _ _ HS Hcls Hflag Hwalk Hsamples).
      eexists. split; [reflexivity|]. cbn. by rewrite app_nil_r.
    + rewrite (load_testing_images_prefix_unlabeled _ _ _ _ HS Hflag Hwalk Hgood).
      eexists. split; [reflexivity|]. cbn. by rewrite app_nil_r.
  - intros good id_ rest Hflag Hwalk Hgood Himg Hmask.
    rewrite (load_testing_images_prefix _ _ _ _ HS Hcls Hflag Hwalk Hgood).
    cbn [for_enumerate]. unfold mbind at 1. unfold M_bind at 1.
    erewrite load_testing_sample_bad_mask;
      [by eexists|done|done|done|by apply wide_mask_bad|reflexivity|].
    unfold loaded_images, zero_images.
    rewrite length_app, length_map, length_replicate. cbn. lia.
Qed.

Lemma wide_image_truncated_wide_mask_refused_witness :
  (∃ w', load_training_images wide_image_fs (fresh rgb_model) = (Ok (), w')
         ∧ train_images (obj w') = Some [rgb_mask])
  ∧ (∃ w', load_training_images wide_mask_fs (fresh rgb_model)
           = (Raise (BaseException "Invalid channel number in mask image a.png"),
              w'))
  ∧ (∃ w', load_testing_images wide_image_fs (fresh rgb_model_labeled)
           = (Ok (), w')
           ∧ test_images (obj w') = Some [rgb_mask])
  ∧ (∃ w', load_testing_images wide_mask_fs (fresh rgb_model_labeled)
           = (Raise (BaseException "Invalid channel number in mask image a.png"),
              w')).
Proof.
  assert (0 < 2) as HS by lia.
  assert (Forall (λ c : Color * string, length c.1 = 3) rgb_classes) as Hcls
    by repeat constructor.
  split_and!.
  - destruct (wide_image_truncated_wide_mask_refused
                wide_image_fs (fresh rgb_model) HS Hcls) as (H & _).
    apply (H ["a.png"]); [reflexivity|].
    constructor; [|constructor]. split.
    + exists rgba_image, 4. split_and!; [reflexivity|repeat constructor|cbn; lia].
    + exists rgb_mask. split; [reflexivity|repeat constructor].
  - destruct (wide_image_truncated_wide_mask_refused
                wide_mask_fs (fresh rgb_model) HS Hcls) as (_ & H & _).
    apply (H [] "a.png" []); [reflexivity|constructor|..].
    + exists rgb_mask, 3. split_and!; [reflexivity|repeat constructor|cbn; lia].
    + exists rgba_mask, 4. split_and!; [reflexivity|repeat constructor|cbn; lia].
  - destruct (wide_image_truncated_wide_mask_refused
                wide_image_fs (fresh rgb_model_labeled) HS Hcls)
      as (_ & _ & H & _).
    apply (H ["a.png"]); [reflexivity|..].
    + constructor; [|constructor].
      exists rgba_image, 4. split_and!; [reflexivity|repeat constructor|cbn; lia].
    + intros _. constructor; [|constructor].
      exists rgb_mask. split; [reflexivity|repeat constructor].
  - destruct (wide_image_truncated_wide_mask_refused
                wide_mask_fs (fresh rgb_model_labeled) HS Hcls)
      as (_ & _ & _ & H).
    apply (H [] "a.png" []); [reflexivity|reflexivity|constructor|..].
    + exists rgb_mask, 3. split_and!; [reflexivity|repeat constructor|cbn; lia].
    + exists rgba_mask, 4. split_and!; [reflexivity|repeat constructor|cbn; lia].
Defined.

Lemma unlabeled_test_split_reads_no_mask_witness :
  ∃ r w',
    load_testing_images wide_mask_fs (fresh rgb_model) = (r, w')
    ∧ r = Ok ()
    ∧ reads w' = ["test/images/a.png"]
    ∧ test_masks (obj w') = Some (zero_masks rgb_model 1)
    ∧ test_images (obj w') = Some [rgb_mask].
Proof.
  destruct (unlabeled_test_split_reads_no_mask wide_mask_fs (fresh rgb_model)
              ["a.png"] eq_refl eq_refl)
    as (r & w' & k & Hrun & _ & _ & Hmasks & Hgood).
  destruct Hgood as (Hr & Hreads & Himgs).
  - cbn. lia.
  - constructor; [|constructor].
    exists rgb_mask, 3. split_and!; [reflexivity|repeat constructor|cbn; lia].
  - by exists r, w'.
Defined.

(** C3, as the code has it. After a prefix [good] of acceptable samples,
    a three-axis image file with fewer channels than [IMG_CHANNELS], and
    a mask file with two axes or a channel count other than
    [IMG_CHANNELS], make the loader raise the invalid-channel error at
    that sample. The arrays keep what the loop stored before the raise:
    the samples of [good] and, for a refused mask, the image of the
    refused sample. (An image file with more channels is accepted.) *)
Theorem channel_mismatch_raises_at_sample (fs : FS) (w : world)
    (good rest : list string) (id_ : string) :
  0 < IMG_SIZE (obj w) →
  Forall (λ c, length c.1 = IMG_CHANNELS (obj w)) (CLASSES (obj w)) →
  (walk_files fs (PREPROCESSED_TRAIN_PATH (obj w) +:+ "images/")
     = Some (good ++ id_ :: rest) →
   Forall (good_sample (obj w) fs (PREPROCESSED_TRAIN_PATH (obj w))) good →
   (narrow_image (obj w)
      (files fs !! image_path (PREPROCESSED_TRAIN_PATH (obj w)) id_) →
    ∃ w', load_training_images fs w
          = (Raise (BaseException
                      ("Invalid channel number in training image " +:+ id_)), w')
          ∧ train_images (obj w')
            = Some (loaded_images (obj w) fs (PREPROCESSED_TRAIN_PATH (obj w)) good
                      ++ zero_images (obj w) (S (length rest)))
          ∧ train_masks (obj w')
            = Some (loaded_masks (obj w) fs (PREPROCESSED_TRAIN_PATH (obj w)) good
                      ++ zero_masks (obj w) (S (length rest))))
   ∧ (good_image (obj w)
        (files fs !! image_path (PREPROCESSED_TRAIN_PATH (obj w)) id_) →
      bad_mask (obj w)
        (files fs !! mask_path (PREPROCESSED_TRAIN_PATH (obj w)) id_) →
      ∃ w', load_training_images fs w
            = (Raise (BaseException
                        ("Invalid channel number in mask image " +:+ id_)), w')
            ∧ train_images (obj w')
              = Some (loaded_images (obj w) fs (PREPROCESSED_TRAIN_PATH (obj w))
                        (good ++ [id_])
                        ++ zero_images (obj w) (length rest))
            ∧ train_masks (obj w')
              = Some (loaded_masks (obj w) fs (PREPROCESSED_TRAIN_PATH (obj w)) good
                        ++ zero_masks (obj w) (S (length rest)))))
  ∧ (truthy (IS_TEST_DATA_LABELED (obj w)) = true →
     walk_files fs (PREPROCESSED_TEST_PATH (obj w) +:+ "images/")
       = Some (good ++ id_ :: rest) →
     Forall (good_sample (obj w) fs (PREPROCESSED_TEST_PATH (obj w))) good →
     (narrow_image (obj w)
        (files fs !! image_path (PREPROCESSED_TEST_PATH (obj w)) id_) →
      ∃ w', load_testing_images fs w
            = (Raise (BaseException
                        ("Invalid channel number in test image " +:+ id_)), w')
            ∧ test_images (obj w')
              = Some (loaded_images (obj w) fs (PREPROCESSED_TEST_PATH (obj w)) good
                        ++ zero_images (obj w) (S (length rest))))
     ∧ (good_image (obj w)
          (files fs !! image_path (PREPROCESSED_TEST_PATH (obj w)) id_) →
        bad_mask (obj w)
          (files fs !! mask_path (PREPROCESSED_TEST_PATH (obj w)) id_) →
        ∃ w', load_testing_images fs w
              = (Raise (BaseException
                          ("Invalid channel number in mask image " +:+ id_)), w')
              ∧ test_images (obj w')
                = Some (loaded_images (obj w) fs (PREPROCESSED_TEST_PATH (obj w))
                          (good ++ [id_])
                          ++ zero_images (obj w) (length rest))))
  ∧ (truthy (IS_TEST_DATA_LABELED (obj w)) = false →
     walk_files fs (PREPROCESSED_TEST_PATH (obj w) +:+ "images/")
       = Some (good ++ id_ :: rest) →
     Forall (λ id_, good_image (obj w)
               (files fs !! image_path (PREPROCESSED_TEST_PATH (obj w)) id_)) good →
     narrow_image (obj w)
       (files fs !! image_path (PREPROCESSED_TEST_PATH (obj w)) id_) →
     ∃ w', load_testing_images fs w
           = (Raise (BaseException
                       ("Invalid channel number in test image " +:+ id_)), w')
           ∧ test_images (obj w')
             = Some (loaded_images (obj w) fs (PREPROCESSED_TEST_PATH (obj w)) good
                       ++ zero_images (obj w) (S (length rest)))).
Proof.
  intros HS Hcls.
  assert (∀ root, length good
            < length (loaded_images (obj w) fs root good
                        ++ zero_images (obj w) (length (id_ :: rest)))) as Hlt.
  { intros root. unfold loaded_images, zero_images.
    rewrite length_app, length_map, length_replicate. cbn. lia. }
  assert (∀ root,
    <[length good := stored_image (IMG_CHANNELS (obj w))
                       (the_array (files fs !! image_path root id_))]>
      (loaded_images (obj w) fs root good
         ++ zero_images (obj w) (length (id_ :: rest)))
    = loaded_images (obj w) fs root (good ++ [id_])
        ++ zero_images (obj w) (length rest)) as Hins.
  { intros root. unfold loaded_images, zero_images. cbn [length].
    rewrite <- (app_nil_r (replicate (S _) _)).
    rewrite insert_middle by by rewrite length_map.
    by rewrite app_nil_r, map_app. }
  split_and!.
  - intros Hwalk Hgood.
    rewrite (load_training_images_prefix _ _ _ _ HS Hcls Hwalk Hgood).
    split.
    + intros Hnarrow.
      cbn [for_enumerate]. unfold mbind at 1. unfold M_bind at 1.
      erewrite load_training_sample_narrow; [|done|done].
      eexists. split; [reflexivity|]. done.
    + intros Himg Hmask.
      cbn [for_enumerate]. unfold mbind at 1. unfold M_bind at 1.
      erewrite load_training_sample_bad_mask;
        [|done|done|done|reflexivity|apply Hlt].
      eexists. split; [reflexivity|]. cbn. by rewrite Hins.
  - intros Hflag Hwalk Hgood.
    rewrite (load_testing_images_prefix _ _ _ _ HS Hcls Hflag Hwalk Hgood).
    split.
    + intros Hnarrow.
      cbn [for_enumerate]. unfold mbind at 1. unfold M_bind at 1.
      erewrite load_testing_sample_narrow; [|done|done].
      eexists. split; [reflexivity|]. done.
    + intros Himg Hmask.
      cbn [for_enumerate]. unfold mbind at 1. unfold M_bind at 1.
      erewrite load_testing_sample_bad_mask;
        [|done|done|done|done|reflexivity|apply Hlt].
      eexists. split; [reflexivity|]. cbn. by rewrite Hins.
  - intros Hflag Hwalk Hgood Hnarrow.
    rewrite (load_testing_images_prefix_unlabeled _ _ _ _ HS Hflag Hwalk Hgood).
    cbn [for_enumerate]. unfold mbind at 1. unfold M_bind at 1.
    erewrite load_testing_sample_narrow; [|done|done].
    eexists. split; [reflexivity|]. done.
Qed.

Lemma channel_mismatch_raises_at_sample_witness :
  (∃ w', load_training_images narrow_second_fs (fresh rgb_model)
         = (Raise (BaseException "Invalid channel number in training image b.png"),
            w')
         ∧ train_images (obj w') = Some ([rgb_mask] ++ zero_images rgb_model 1))
  ∧ (∃ w', load_training_images wide_mask_fs (fresh rgb_model)
           = (Raise (BaseException "Invalid channel number in mask image a.png"),
              w')
           ∧ train_images (obj w') = Some [rgb_mask]
           ∧ train_masks (obj w') = Some (zero_masks rgb_model 1))
  ∧ (∃ w', load_testing_images narrow_second_fs (fresh rgb_model_labeled)
           = (Raise (BaseException "Invalid channel number in test image b.png"),
              w'))
  ∧ (∃ w', load_testing_images wide_mask_fs (fresh rgb_model_labeled)
           = (Raise (BaseException "Invalid channel number in mask image a.png"),
              w'))
  ∧ (∃ w', load_testing_images narrow_second_fs (fresh rgb_model)
           = (Raise (BaseException "Invalid channel number in test image b.png"),
              w')).
Proof.
  assert (0 < 2) as HS by lia.
  assert (Forall (λ c : Color * string, length c.1 = 3) rgb_classes) as Hcls
    by repeat constructor.
  assert (∀ self root, IMG_SIZE self = 2 → IMG_CHANNELS self = 3 →
            (root = "train/" ∨ root = "test/") →
            good_sample self narrow_second_fs root "a.png") as Ha.
  { intros self root H2 H3 Hroot. split.
    - exists rgb_mask, 3. rewrite H2, H3.
      split_and!; [by destruct Hroot as [-> | ->]|repeat constructor|lia].
    - exists rgb_mask. rewrite H2, H3.
      split; [by destruct Hroot as [-> | ->]|repeat constructor]. }
  assert (∀ self root, IMG_SIZE self = 2 → IMG_CHANNELS self = 3 →
            (root = "train/" ∨ root = "test/") →
            narrow_image self (files narrow_second_fs !! image_path root "b.png"))
    as Hb.
  { intros self root H2 H3 Hroot. exists two_channel_image, 2. rewrite H2, H3.
    split_and!; [by destruct Hroot as [-> | ->]|repeat constructor|lia]. }
  assert (∀ self root, IMG_SIZE self = 2 → IMG_CHANNELS self = 3 →
            (root = "train/" ∨ root = "test/") →
            good_image self (files wide_mask_fs !! image_path root "a.png")
            ∧ bad_mask self (files wide_mask_fs !! mask_path root "a.png"))
    as Hw.
  { intros self root H2 H3 Hroot. split.
    - exists rgb_mask, 3. rewrite H2, H3.
      split_and!; [by destruct Hroot as [-> | ->]|repeat constructor|lia].
    - right. exists rgba_mask. rewrite H3.
      split; [by destruct Hroot as [-> | ->]|cbn; lia]. }
  split_and!.
  - destruct (channel_mismatch_raises_at_sample narrow_second_fs
                (fresh rgb_model) ["a.png"] [] "b.png" HS Hcls)
      as ((H & _) & _); [reflexivity|constructor; [by apply Ha; auto|constructor]|].
    destruct H as (w' & Hrun & Himgs & _); [by apply Hb; auto|].
    by exists w'.
  - destruct (channel_mismatch_raises_at_sample wide_mask_fs
                (fresh rgb_model) [] [] "a.png" HS Hcls)
      as ((_ & H) & _); [reflexivity|constructor|].
    destruct H as (w' & Hrun & Himgs & Hmasks);
      [by apply Hw; auto|by apply Hw; auto|].
    by exists w'.
  - destruct (channel_mismatch_raises_at_sample narrow_second_fs
                (fresh rgb_model_labeled) ["a.png"] [] "b.png" HS Hcls)
      as (_ & H & _).
    destruct H as (H & _);
      [reflexivity|reflexivity|constructor; [by apply Ha; auto|constructor]|].
    destruct H as (w' & Hrun & _); [by apply Hb; auto|].
    by exists w'.
  - destruct (channel_mismatch_raises_at_sample wide_mask_fs
                (fresh rgb_model_labeled) [] [] "a.png" HS Hcls)
      as (_ & H & _).
    destruct H as (_ & H); [reflexivity|reflexivity|constructor|].
    destruct H as (w' & Hrun & _); [by apply Hw; auto|by apply Hw; auto|].
    by exists w'.
  - destruct (channel_mismatch_raises_at_sample narrow_second_fs
                (fresh rgb_model) ["a.png"] [] "b.png" HS Hcls)
      as (_ & _ & H).
    destruct H as (w' & Hrun & _);
      [reflexivity|reflexivity
       |constructor; [by apply Ha; auto|constructor]|by apply Hb; auto|].
    by exists w'.
Defined.

(** C3 as stated fails: the image of [a.png] has four channels where
    three are configured, and the load does not raise the invalid-channel
    error. *)
Lemma channel_mismatch_counterexample :
  ¬ (channel_mismatch rgb_model
       (files wide_image_fs !! image_path "train/" "a.png") →
     ∃ msg w',
       load_training_images wide_image_fs (fresh rgb_model)
       = (Raise (BaseException msg), w')).
Proof.
  intros H. destruct H as (msg & w' & Hrun).
  - vm_compute. discriminate.
  - vm_compute in Hrun. discriminate Hrun.
Qed.

(** The load that stops at the second sample has stored the first. *)
Example partial_dataset_after_raise :
  ∃ w',
    load_training_images narrow_second_fs (fresh rgb_model)
    = (Raise (BaseException "Invalid channel number in training image b.png"),
       w')
    ∧ train_images (obj w')
      = Some [rgb_mask; np.full3 0%Z 2 2 3]
    ∧ train_images (obj w') ≠ Some (zero_images rgb_model 2).
Proof. eexists. split_and!; [by vm_compute|by vm_compute|by vm_compute]. Qed.

(** A grayscale image file does not reach the channel check: the slice
    with three indices raises first. *)
Example gray_image_index_error :
  ∃ w', load_training_images gray_image_fs (fresh rgb_model)
        = (Raise IndexError, w').
Proof. eexists. by vm_compute. Qed.

(** ** Training counter *)

Lemma fit_loop_bounds patience val_loss remaining :
  ∀ epoch best wait,
    fit_loop patience val_loss remaining epoch best wait ≤ epoch + remaining.
Proof.
  induction remaining as [|remaining IH]; intros epoch best wait; simpl; [lia|].
  destruct (match best with Some b => _ | None => true end).
  - etrans; [apply IH|lia].
  - destruct (decide (patience ≤ S wait)); [lia|]. etrans; [apply IH|lia].
Qed.

Lemma keras_fit_bound patience epochs val_loss :
  keras_fit patience epochs val_loss ≤ Z.to_nat epochs.
Proof. unfold keras_fit. etrans; [apply fit_loop_bounds|lia]. Qed.

Lemma keras_fit_stalled (epochs : Z) (val_loss : nat → Q) :
  (∀ e, np.lt (val_loss (S e)) (val_loss 0) = false) →
  keras_fit 5 epochs val_loss = Z.to_nat epochs `min` 6.
Proof.
  intros Hstall. unfold keras_fit.
  destruct (Z.to_nat epochs) as [|[|[|[|[|[|[|n]]]]]]];
    cbn [fit_loop]; rewrite ?Hstall; cbn [fit_loop];
    repeat (rewrite ?Hstall; cbn [fit_loop];
            try (rewrite decide_False by lia); try (rewrite decide_True by lia));
    reflexivity.
Qed.

Lemma ready_set_epochs_measured (self : Unet2DModel) (v : Z) :
  ready self → ready (set_epochs_measured v self).
Proof. by intros (? & ? & ?). Qed.

(** On an object that can be trained a call returns exactly when
    [model.fit] does, and then only the counter changes. *)
Lemma fit_model_ready (self : Unet2DModel) (epochs : Z) (answer : fit_answer) :
  ready self →
  fit_model self epochs answer
  = match answer with
    | FitRaises e => Raise e
    | FitRuns val_loss =>
        Ok (set_epochs_measured (epochs_measured self + epochs) self,
            keras_fit 5 epochs val_loss)
    end.
Proof.
  intros ([m Hm] & [x Hx] & [y Hy]). unfold fit_model.
  rewrite Hm, Hx, Hy. simpl. by destruct answer.
Qed.

(** On an object that lacks the model or a training array every call
    raises [AttributeError]. *)
Lemma fit_model_unready (self : Unet2DModel) (epochs : Z) (answer : fit_answer) :
  ¬ ready self → fit_model self epochs answer = Raise AttributeError.
Proof.
  intros Hnot. unfold fit_model.
  destruct (model self) as [m|] eqn:Hm; [|done].
  destruct (train_images self) as [x|] eqn:Hx; [|done].
  destruct (train_masks self) as [y|] eqn:Hy; [|done].
  exfalso. apply Hnot. unfold ready. rewrite Hm, Hx, Hy. by split_and!.
Qed.

Lemma fit_calls_ready (calls : list (Z * fit_answer)) :
  ∀ self, ready self →
    (epochs_measured (fit_calls self calls).1
     = epochs_measured self + requested calls)%Z
    ∧ (fit_calls self calls).2 ≤ trainable calls
    ∧ (Exists (λ c, stalls c.2 ∧ (6 < c.1)%Z) calls →
       (fit_calls self calls).2 < trainable calls).
Proof.
  induction calls as [|[epochs answer] calls IH]; intros self Hready.
  - cbn. split_and!; [lia|lia|]. intros H. by apply Exists_nil in H.
  - cbn [fit_calls]. rewrite fit_model_ready by done.
    destruct answer as [e|val_loss].
    + destruct (IH self Hready) as (IH1 & IH2 & IH3).
      cbn. split_and!; [done|done|].
      intros [[[] _]|H]%Exists_cons. by apply IH3.
    + destruct (IH (set_epochs_measured (epochs_measured self + epochs) self)
                  (ready_set_epochs_measured _ _ Hready)) as (IH1 & IH2 & IH3).
      destruct (fit_calls _ calls) as [self' trained'] eqn:Hcalls.
      cbn in *. fold (requested calls). fold (trainable calls).
      pose proof (keras_fit_bound 5 epochs val_loss) as Hk.
      split_and!; [lia|lia|].
      intros [[Hstall Hlong]|H]%Exists_cons.
      * cbn in Hstall, Hlong. rewrite (keras_fit_stalled _ _ Hstall). lia.
      * specialize (IH3 H). lia.
Qed.

Lemma fit_calls_unready (calls : list (Z * fit_answer)) (self : Unet2DModel) :
  ¬ ready self → fit_calls self calls = (self, 0).
Proof.
  intros Hnot. induction calls as [|[epochs answer] calls IH]; [done|].
  cbn [fit_calls]. by rewrite fit_model_unready.
Qed.

(** C9, as the code has it. A call of [fit_model] that returns adds its
    epoch argument to [epochs_measured], whatever was trained, and a call
    that raises leaves the object as it was. So over any sequence of
    calls on an object that has its model and training arrays, the
    counter grows by the epoch arguments of the calls whose [fit] does
    not raise; the epochs those calls train are at most the non-negative
    part of these arguments, and fewer as soon as one call of more than
    six epochs has a validation loss that never improves on that of its
    first epoch. On an object without the model or a training array
    every call raises [AttributeError] and nothing changes. *)
Theorem epochs_measured_counts_requested (self : Unet2DModel)
    (calls : list (Z * fit_answer)) :
  (∀ epochs answer,
     match fit_model self epochs answer with
     | Ok (self', trained) =>
         self' = set_epochs_measured (epochs_measured self + epochs) self
         ∧ trained ≤ Z.to_nat epochs
     | Raise e =>
         (¬ ready self ∧ e = AttributeError) ∨ answer = FitRaises e
     end)
  ∧ (ready self →
     (epochs_measured (fit_calls self calls).1
      = epochs_measured self + requested calls)%Z
     ∧ (fit_calls self calls).2 ≤ trainable calls
     ∧ (Exists (λ c, stalls c.2 ∧ (6 < c.1)%Z) calls →
        (fit_calls self calls).2 < trainable calls))
  ∧ (¬ ready self → fit_calls self calls = (self, 0)).
Proof.
  split_and!.
  - intros epochs answer.
    destruct (model self) as [m|] eqn:Hm;
      [destruct (train_images self) as [x|] eqn:Hx;
       [destruct (train_masks self) as [y|] eqn:Hy|]|].
    + rewrite fit_model_ready
        by (unfold ready; rewrite Hm, Hx, Hy; by split_and!).
      destruct answer as [e|val_loss]; [by right|].
      split; [done|apply keras_fit_bound].
    + rewrite fit_model_unready; [left; split; [|done]|];
        intros (_ & _ & [? H]); congruence.
    + rewrite fit_model_unready; [left; split; [|done]|];
        intros (_ & [? H] & _); congruence.
    + rewrite fit_model_unready; [left; split; [|done]|];
        intros ([? H] & _ & _); congruence.
  - apply fit_calls_ready.
  - apply fit_calls_unready.
Qed.

Lemma epochs_measured_counts_requested_witness :
  (epochs_measured (fit_calls loaded_model three_calls).1 = 0 + 53)%Z
  ∧ (fit_calls loaded_model three_calls).2 ≤ 53
  ∧ (fit_calls loaded_model three_calls).2 < 53
  ∧ fit_calls rgb_model three_calls = (rgb_model, 0).
Proof.
  destruct (epochs_measured_counts_requested loaded_model three_calls)
    as (_ & Hready & _).
  destruct Hready as (Hcount & Hle & Hlt).
  { split_and!; by eexists. }
  destruct (epochs_measured_counts_requested rgb_model three_calls)
    as (_ & _ & Hunready).
  split_and!.
  - exact Hcount.
  - exact Hle.
  - apply Hlt. apply Exists_cons_hd. split; [intros e; reflexivity|cbn; lia].
  - apply Hunready. intros (_ & [x Hx] & _). discriminate Hx.
Defined.

(** C9 as stated fails: on an object with its model and training arrays,
    fifty epochs are requested, the validation loss never improves on
    its first value, training stops after six epochs, and the counter
    goes from zero to fifty. *)
Lemma epochs_measured_counterexample :
  ∃ self',
    fit_model loaded_model 50 (FitRuns (λ _, 1%Q)) = Ok (self', 6)
    ∧ epochs_measured loaded_model = 0%Z
    ∧ epochs_measured self' = 50%Z
    ∧ epochs_measured self' ≠ (epochs_measured loaded_model + Z.of_nat 6)%Z.
Proof. eexists. split_and!; [by vm_compute|by vm_compute|by vm_compute|by vm_compute]. Qed.

(** ** Division of floating-point values *)

Lemma fdiv_finite (a b : Qc) : b ≠ 0%Qc → fdiv a b = Fin (a / b)%Qc.
Proof. intros Hb. unfold fdiv. by rewrite decide_False. Qed.

Lemma fdiv_by_zero (a : Qc) :
  a ≠ 0%Qc → fdiv a 0%Qc = Inf (bool_decide (a < 0)%Qc).
Proof.
  intros Ha. unfold fdiv. rewrite decide_True by done. by rewrite decide_False.
Qed.

Lemma fdiv_zero_by_zero : fdiv 0%Qc 0%Qc = NaN.
Proof. unfold fdiv. by rewrite !decide_True. Qed.

(** ** Metrics *)

Lemma bzip_diag {A B} (f : A → A → result B) (g : A → B) (l : list A) :
  Forall (λ x, f x x = Ok (g x)) l → np.bzip f l l = Ok (map g l).
Proof.
  intros H. unfold np.bzip. rewrite decide_True by done.
  induction H as [|x l Hx _ IH]; simpl; [done|].
  by rewrite Hx; simpl; rewrite IH.
Qed.

Lemma bzip_zip_with {A B C} (f : A → B → result C) (g : A → B → C) xs ys :
  length xs = length ys → (∀ x y, f x y = Ok (g x y)) →
  np.bzip f xs ys = Ok (zip_with g xs ys).
Proof. intros. by apply bzip_same_length. Qed.

Lemma map_id_Forall {A} (f : A → A) (l : list A) :
  Forall (λ x, f x = x) l → map f l = l.
Proof. induction 1 as [|x l Hx _ IH]; simpl; [done|]. by rewrite Hx, IH. Qed.

(** The product of a batch of label planes with itself is the batch. *)
Lemma mul_self_binary (y : Batch) : binary y → K.mul y y = Ok y.
Proof.
  intros Hy. unfold K.mul.
  rewrite (bzip_diag _ id); [by rewrite map_id|].
  eapply Forall_impl; [exact Hy|]. intros sample Hs. simpl.
  rewrite (bzip_diag _ id); [by rewrite map_id|].
  eapply Forall_impl; [exact Hs|]. intros row Hr. simpl.
  rewrite (bzip_diag _ id); [by rewrite map_id|].
  eapply Forall_impl; [exact Hr|]. intros px Hp. simpl.
  rewrite (bzip_diag _ id); [by rewrite map_id|].
  eapply Forall_impl; [exact Hp|]. intros x [-> | ->]; simpl; f_equal; ring.
Qed.

Lemma sum1_nonneg (l : list Qc) :
  Forall (λ x, (0 ≤ x)%Qc) l → (0 ≤ K.sum1 l)%Qc.
Proof.
  induction 1 as [|x l Hx _ IH]; simpl; [done|].
  replace 0%Qc with (0 + 0)%Qc by ring. by apply Qcplus_le_compat.
Qed.

Lemma sum_123_nonneg (y : Batch) :
  binary y → Forall (λ s, (0 ≤ s)%Qc) (K.sum_123 y).
Proof.
  intros Hy. unfold K.sum_123. apply Forall_fmap.
  eapply Forall_impl; [exact Hy|]. intros sample Hs. simpl.
  apply sum1_nonneg, Forall_fmap.
  eapply Forall_impl; [exact Hs|]. intros row Hr. simpl.
  apply sum1_nonneg, Forall_fmap.
  eapply Forall_impl; [exact Hr|]. intros px Hp. simpl.
  apply sum1_nonneg.
  eapply Forall_impl; [exact Hp|]. by intros x [-> | ->].
Qed.

(** The mean of a non-empty vector of ones. *)
Lemma mean_ones (n : nat) : 0 < n → K.mean (replicate n (Fin 1%Qc)) = Fin 1%Qc.
Proof.
  intros Hn. unfold K.mean. rewrite length_replicate.
  assert (foldr fadd (Fin 0%Qc) (replicate n (Fin 1%Qc))
          = Fin (Qc_of_Z (Z.of_nat n))) as ->.
  { clear Hn. induction n as [|n IH]; [by apply (f_equal Fin), Qc_is_canon|].
    cbn [replicate foldr]. rewrite IH. cbn [fadd]. f_equal.
    apply Qc_is_canon. rewrite Nat2Z.inj_succ. unfold Z.succ.
    simpl. unfold Qeq. simpl. rewrite !Qred_correct. unfold Qeq; simpl. lia. }
  assert (Qc_of_Z (Z.of_nat n) ≠ 0%Qc) as Hne.
  { intros H. apply (f_equal this) in H. simpl in H.
    injection H as H. lia. }
  rewrite fdiv_finite by done. f_equal. by field.
Qed.

Lemma bzip_map_map {A B C D} (f : B → C → result D) (g : B → C → D)
    (h1 : A → B) (h2 : A → C) (l : list A) :
  (∀ x y, f x y = Ok (g x y)) →
  np.bzip f (map h1 l) (map h2 l) = Ok (map (λ x, g (h1 x) (h2 x)) l).
Proof.
  intros Hf. rewrite (bzip_zip_with _ g) by (by rewrite ?length_map).
  f_equal. induction l as [|x l IH]; simpl; [done|]. by rewrite IH.
Qed.

Lemma map_const_replicate {A B} (c : B) (l : list A) :
  map (λ _, c) l = replicate (length l) c.
Proof. induction l as [|x l IH]; simpl; [done|]. by rewrite IH. Qed.

Lemma fdiv_same (a b : Qc) : a = b → b ≠ 0%Qc → fdiv a b = Fin 1%Qc.
Proof. intros -> Hb. rewrite fdiv_finite by done. f_equal. by field. Qed.

Section identical.
Context (y : Batch) (smooth : Qc).
Context (Hbin : binary y) (Hne : y ≠ []).
Context (Hpos : Forall (λ s, (0 < s + smooth)%Qc) (K.sum_123 y)).

Lemma ratio_ones (num den : Qc → Qc) :
  (∀ s, num s = den s) →
  (∀ s, (0 ≤ s)%Qc → (0 < s + smooth)%Qc → den s ≠ 0%Qc) →
  K.div (map num (K.sum_123 y)) (map den (K.sum_123 y))
  = Ok (replicate (length y) (Fin 1%Qc)).
Proof using Hbin Hpos.
  intros Hnum Hden. unfold K.div. rewrite (bzip_map_map _ fdiv) by done.
  f_equal. rewrite <- (length_map (λ sample, K.sum1 (map (λ row,
    K.sum1 (map K.sum1 row)) sample)) y).
  fold (K.sum_123 y). rewrite <- map_const_replicate.
  apply map_ext_in. intros s Hs. apply list_elem_of_In in Hs.
  pose proof (sum_123_nonneg y Hbin) as Hnn.
  rewrite Forall_forall in Hpos, Hnn.
  apply fdiv_same; [done|]. apply Hden; auto.
Qed.

Lemma iou_coef_identical : iou_coef y y smooth = Ok (Fin 1%Qc).
Proof using Hbin Hne Hpos.
  unfold iou_coef. rewrite mul_self_binary by done. simpl.
  unfold K.add. rewrite (bzip_diag _ (λ s, s + s)%Qc) by by apply Forall_true.
  simpl. unfold K.sub.
  rewrite <- (map_id (K.sum_123 y)) at 2.
  rewrite (bzip_map_map _ Qcminus) by done. simpl.
  rewrite map_map.
  rewrite (ratio_ones (λ i, i + smooth)%Qc (λ s, s + s - s + smooth)%Qc).
  - simpl. f_equal. apply mean_ones. destruct y; [done|simpl; lia].
  - intros s. ring.
  - intros s _ Hs Hz. replace (s + s - s + smooth)%Qc with (s + smooth)%Qc in Hz
      by ring.
    rewrite Hz in Hs. by apply Qclt_not_eq in Hs.
Qed.

Lemma dice_coef_identical : dice_coef y y smooth = Ok (Fin 1%Qc).
Proof using Hbin Hne Hpos.
  unfold dice_coef. rewrite mul_self_binary by done. simpl.
  unfold K.add. rewrite (bzip_diag _ (λ s, s + s)%Qc) by by apply Forall_true.
  simpl. rewrite map_map.
  rewrite (ratio_ones (λ i, 2 * i + smooth)%Qc (λ s, s + s + smooth)%Qc).
  - simpl. f_equal. apply mean_ones. destruct y; [done|simpl; lia].
  - intros s. ring.
  - intros s Hs0 Hs Hz.
    assert (0 < s + (s + smooth))%Qc as Hlt by by apply Qcplus_nonneg_pos.
    replace (s + (s + smooth))%Qc with (s + s + smooth)%Qc in Hlt by ring.
    rewrite Hz in Hlt. by apply Qclt_not_eq in Hlt.
Qed.
End identical.

Lemma traverse2_length {A B C} (f : A → B → result C) xs ys zs :
  length xs = length ys → traverse2 f xs ys = Ok zs → length zs = length xs.
Proof.
  revert ys zs. induction xs as [|x xs IH]; intros [|y ys] zs Hlen; simpl in *;
    try done.
  - by intros [= <-].
  - destruct (f x y); simpl; [|done].
    destruct (traverse2 f xs ys) as [zs'|] eqn:Hzs; simpl; [|done].
    intros [= <-]. simpl. f_equal. eapply IH; [|done]. lia.
Qed.

Lemma bzip_length {A B C} (f : A → B → result C) xs ys zs :
  length xs = length ys → np.bzip f xs ys = Ok zs → length zs = length xs.
Proof.
  intros Hlen. unfold np.bzip. rewrite decide_True by done.
  by apply traverse2_length.
Qed.

Lemma all_zero_replicate (l : list Qc) :
  Forall (λ x, x = 0%Qc) l → l = replicate (length l) 0%Qc.
Proof. induction 1 as [|x l -> _ IH]; simpl; [done|]. by rewrite <- IH. Qed.

Lemma zip_with_replicate_l {A B C} (f : A → B → C) (x : A) n (ys : list B) :
  length ys = n → zip_with f (replicate n x) ys = map (f x) ys.
Proof.
  intros <-. induction ys as [|y ys IH]; simpl; [done|]. by rewrite IH.
Qed.

Section disjoint.
Context (y_true y_pred prod : Batch) (smooth : Qc).
Context (Hmul : K.mul y_true y_pred = Ok prod).
Context (Hlen : length y_true = length y_pred).
Context (Hzero : Forall (λ i, i = 0%Qc) (K.sum_123 prod)).

Local Abbreviation unions :=
  (zip_with Qcplus (K.sum_123 y_true) (K.sum_123 y_pred)).

Lemma intersection_zeros :
  K.sum_123 prod = replicate (length unions) 0%Qc.
Proof using Hmul Hlen Hzero.
  rewrite (all_zero_replicate _ Hzero). f_equal.
  unfold K.sum_123. rewrite length_zip_with, !length_map.
  rewrite (bzip_length _ _ _ _ Hlen Hmul). lia.
Qed.

Lemma iou_coef_disjoint :
  iou_coef y_true y_pred smooth = Ok (zero_overlap_value smooth unions).
Proof using Hmul Hlen Hzero.
  unfold iou_coef. rewrite Hmul. simpl. rewrite intersection_zeros.
  unfold K.add. rewrite (bzip_zip_with _ Qcplus)
    by (done || by unfold K.sum_123; rewrite !length_map).
  simpl. unfold K.sub.
  rewrite (bzip_zip_with _ Qcminus) by (done || by rewrite length_replicate).
  simpl. rewrite zip_with_replicate_r by done.
  unfold K.div.
  rewrite (bzip_zip_with _ fdiv)
    by (done || by rewrite !length_map, length_replicate).
  simpl. f_equal. unfold zero_overlap_value. f_equal.
  rewrite fmap_replicate, map_map, zip_with_replicate_l by by rewrite length_map.
  rewrite map_map. apply map_ext. intros u. f_equal; ring.
Qed.

Lemma dice_coef_disjoint :
  dice_coef y_true y_pred smooth = Ok (zero_overlap_value smooth unions).
Proof using Hmul Hlen Hzero.
  unfold dice_coef. rewrite Hmul. simpl. rewrite intersection_zeros.
  unfold K.add. rewrite (bzip_zip_with _ Qcplus)
    by (done || by unfold K.sum_123; rewrite !length_map).
  simpl. unfold K.div.
  rewrite (bzip_zip_with _ fdiv)
    by (done || by rewrite !length_map, length_replicate).
  simpl. f_equal. unfold zero_overlap_value. f_equal.
  rewrite fmap_replicate, zip_with_replicate_l by by rewrite length_map.
  rewrite map_map. apply map_ext. intros u. f_equal; ring.
Qed.
End disjoint.

Lemma foldr_fadd_Fin (qs : list Qc) :
  foldr fadd (Fin 0%Qc) (map Fin qs) = Fin (K.sum1 qs).
Proof. induction qs as [|q qs IH]; simpl; [done|]. by rewrite IH. Qed.

Lemma Qc_of_nat_pos (n : nat) : 0 < n → (0 < Qc_of_Z (Z.of_nat n))%Qc.
Proof.
  intros Hn. unfold Qclt, Qlt. simpl. lia.
Qed.

Lemma sum1_zero (qs : list Qc) : Forall (λ q, q = 0%Qc) qs → K.sum1 qs = 0%Qc.
Proof. induction 1 as [|q qs -> _ IH]; simpl; [done|]. rewrite IH. ring. Qed.

Lemma sum1_pos (qs : list Qc) :
  qs ≠ [] → Forall (λ q, (0 < q)%Qc) qs → (0 < K.sum1 qs)%Qc.
Proof.
  intros Hne Hqs. destruct Hqs as [|q qs Hq Hqs]; [done|]. simpl.
  apply Qcplus_pos_nonneg; [done|]. apply sum1_nonneg.
  eapply Forall_impl; [exact Hqs|]. intros x. apply Qclt_le_weak.
Qed.

(** Without smoothing the value is zero; with smoothing it is positive. *)
Lemma zero_overlap_unsmoothed (unions : list Qc) :
  unions ≠ [] → Forall (λ u, u ≠ 0%Qc) unions →
  zero_overlap_value 0%Qc unions = Fin 0%Qc.
Proof.
  intros Hne Hu. unfold zero_overlap_value, K.mean.
  assert (map (λ u, fdiv 0%Qc (u + 0)%Qc) unions = map Fin (map (λ _, 0%Qc) unions))
    as ->.
  { rewrite map_map. apply map_ext_in. intros u Hin.
    rewrite Forall_forall in Hu. apply list_elem_of_In, Hu in Hin.
    rewrite fdiv_finite by by rewrite Qcplus_0_r. f_equal. by field. }
  rewrite foldr_fadd_Fin, sum1_zero by (apply Forall_fmap; by apply Forall_true).
  rewrite !length_map. rewrite fdiv_finite; [f_equal; field|].
  - apply not_symmetry, Qclt_not_eq, Qc_of_nat_pos. destruct unions; [done|simpl; lia].
  - apply not_symmetry, Qclt_not_eq, Qc_of_nat_pos. destruct unions; [done|simpl; lia].
Qed.

Lemma zero_overlap_smoothed (smooth : Qc) (unions : list Qc) :
  (0 < smooth)%Qc → unions ≠ [] → Forall (λ u, (0 ≤ u)%Qc) unions →
  ∃ q, zero_overlap_value smooth unions = Fin q ∧ (0 < q)%Qc.
Proof.
  intros Hs Hne Hu. unfold zero_overlap_value, K.mean.
  assert (map (λ u, fdiv smooth (u + smooth)%Qc) unions
          = map Fin (map (λ u, smooth / (u + smooth))%Qc unions)) as ->.
  { rewrite map_map. apply map_ext_in. intros u Hin.
    rewrite Forall_forall in Hu. apply list_elem_of_In, Hu in Hin.
    apply fdiv_finite, not_symmetry, Qclt_not_eq. by apply Qcplus_nonneg_pos. }
  rewrite foldr_fadd_Fin, !length_map.
  assert (0 < Qc_of_Z (Z.of_nat (length unions)))%Qc as Hn.
  { apply Qc_of_nat_pos. destruct unions; [done|simpl; lia]. }
  rewrite fdiv_finite by by apply not_symmetry, Qclt_not_eq.
  eexists. split; [reflexivity|].
  apply Qcmult_pos_pos; [|by apply Qcinv_pos].
  apply sum1_pos; [by destruct unions|]. apply Forall_fmap.
  eapply Forall_impl; [exact Hu|]. intros u Hu0. simpl.
  apply Qcmult_pos_pos; [done|]. apply Qcinv_pos. by apply Qcplus_nonneg_pos.
Qed.

(** C7, as the code has it. For a smoothing constant [smooth >= 0]:
    on a non-empty batch of identical label planes both coefficients are
    1, provided no sample has an all-false plane stack while [smooth] is
    0; on a batch without any overlap both coefficients are the batch
    mean of smooth / (union + smooth), which is 0 without smoothing and
    positive with it. *)
Theorem metric_sanity_smoothed (smooth : Qc) :
  (0 ≤ smooth)%Qc →
  (∀ y : Batch,
     binary y → y ≠ [] →
     Forall (λ s, (0 < s + smooth)%Qc) (K.sum_123 y) →
     iou_coef y y smooth = Ok (Fin 1%Qc)
     ∧ dice_coef y y smooth = Ok (Fin 1%Qc))
  ∧ (∀ y_true y_pred prod : Batch,
       K.mul y_true y_pred = Ok prod →
       length y_true = length y_pred →
       Forall (λ i, i = 0%Qc) (K.sum_123 prod) →
       iou_coef y_true y_pred smooth
       = Ok (zero_overlap_value smooth
               (zip_with Qcplus (K.sum_123 y_true) (K.sum_123 y_pred)))
       ∧ dice_coef y_true y_pred smooth
         = Ok (zero_overlap_value smooth
                 (zip_with Qcplus (K.sum_123 y_true) (K.sum_123 y_pred))))
  ∧ (∀ unions : list Qc,
       unions ≠ [] → Forall (λ u, (0 < u)%Qc) unions →
       (smooth = 0%Qc → zero_overlap_value smooth unions = Fin 0%Qc)
       ∧ ((0 < smooth)%Qc →
          ∃ q, zero_overlap_value smooth unions = Fin q ∧ (0 < q)%Qc)).
Proof.
  intros Hsmooth. split_and!.
  - intros y Hbin Hne Hpos. split.
    + by apply iou_coef_identical.
    + by apply dice_coef_identical.
  - intros y_true y_pred prod Hmul Hlen Hzero. split.
    + by apply (iou_coef_disjoint _ _ prod).
    + by apply (dice_coef_disjoint _ _ prod).
  - intros unions Hne Hpos. split.
    + intros ->. apply zero_overlap_unsmoothed; [done|].
      eapply Forall_impl; [exact Hpos|]. intros u Hu.
      by apply not_symmetry, Qclt_not_eq.
    + intros Hs. apply zero_overlap_smoothed; [done..|].
      eapply Forall_impl; [exact Hpos|]. intros u. apply Qclt_le_weak.
Qed.

Lemma metric_sanity_smoothed_witness :
  (iou_coef disjoint_true disjoint_true 1%Qc = Ok (Fin 1%Qc)
   ∧ dice_coef disjoint_true disjoint_true 1%Qc = Ok (Fin 1%Qc))
  ∧ (iou_coef disjoint_true disjoint_pred 1%Qc
     = Ok (zero_overlap_value 1%Qc
             (zip_with Qcplus (K.sum_123 disjoint_true) (K.sum_123 disjoint_pred)))
     ∧ dice_coef disjoint_true disjoint_pred 1%Qc
       = Ok (zero_overlap_value 1%Qc
               (zip_with Qcplus (K.sum_123 disjoint_true)
                  (K.sum_123 disjoint_pred))))
  ∧ (∃ q, zero_overlap_value 1%Qc
            (zip_with Qcplus (K.sum_123 disjoint_true) (K.sum_123 disjoint_pred))
          = Fin q ∧ (0 < q)%Qc).
Proof.
  assert (0 ≤ 1)%Qc as H01 by done.
  destruct (metric_sanity_smoothed 1%Qc H01) as (H1 & H2 & H3).
  split; [|split].
  - apply H1; [|done|constructor; [by vm_compute|constructor]].
    unfold binary, disjoint_true.
    repeat first [apply Forall_nil_2 | apply Forall_cons_2 | by left | by right].
  - apply (H2 disjoint_true disjoint_pred [[[[0; 0]]]]%Qc);
      [by vm_compute|done|].
    constructor; [|constructor]. by apply Qc_is_canon.
  - destruct (H3 (zip_with Qcplus (K.sum_123 disjoint_true)
                    (K.sum_123 disjoint_pred))) as [_ H];
      [done|constructor; [by vm_compute|constructor]|].
    by apply H.
Defined.

(** C7 as stated fails, in both halves: with [smooth = 0] identical
    all-false planes give 0/0, not 1; and with the default [smooth = 1]
    planes without overlap give 1/3, however the overlap vanishes. *)
Lemma metric_sanity_counterexample :
  iou_coef empty_planes empty_planes 0%Qc = Ok NaN
  ∧ dice_coef empty_planes empty_planes 0%Qc = Ok NaN
  ∧ iou_coef disjoint_true disjoint_pred 1%Qc = Ok (Fin (Q2Qc (1 # 3)))
  ∧ dice_coef disjoint_true disjoint_pred 1%Qc = Ok (Fin (Q2Qc (1 # 3))).
Proof. split_and!; by vm_compute. Qed.

(** * Further properties *)

(** ** Batched codec *)

Lemma tabulate_length {A} (n : nat) (f : nat → A) : length (np.tabulate n f) = n.
Proof. unfold np.tabulate. by rewrite length_map, length_seq. Qed.

Lemma tabulate_Forall {A} (P : A → Prop) (n : nat) (f : nat → A) :
  (∀ i, P (f i)) → Forall P (np.tabulate n f).
Proof. intros H. unfold np.tabulate. apply Forall_fmap, Forall_true. intros i. apply H. Qed.

(** Whatever the mask, what the encoder returns has the shape
    (S, S, NUM_CLASSES). *)
Lemma mask_to_classes_shape (self : Unet2DModel) (mask : Image) (encoded : Planes) :
  mask_to_classes self mask = Ok encoded →
  has_shape3 (IMG_SIZE self) (IMG_SIZE self) (NUM_CLASSES self) encoded.
Proof.
  unfold mask_to_classes.
  destruct (mask_to_classes_loop _ _ _ _ _) as [classes|e]; simpl; [|done].
  intros [= <-]. unfold np.swapaxes_0_1.
  split; [apply tabulate_length|]. apply tabulate_Forall. intros j.
  split; [apply tabulate_length|]. apply tabulate_Forall. intros i.
  apply tabulate_length.
Qed.

Lemma insert_at_length {A} (pre rest : list A) (z x : A) :
  <[length pre := x]> (pre ++ z :: rest) = (pre ++ [x]) ++ rest.
Proof.
  rewrite insert_app_r_alt by lia. rewrite Nat.sub_diag. simpl.
  by rewrite <- app_assoc.
Qed.

Lemma length_at_length {A} (pre rest : list A) (z : A) :
  length pre < length (pre ++ z :: rest).
Proof. rewrite length_app. simpl. lia. Qed.

Lemma masks_to_classes_loop_traverse (self : Unet2DModel) (masks : list Image) :
  ∀ pre post z,
    masks_to_classes_loop self (length pre) masks
      (pre ++ replicate (length masks) z ++ post)
    = (encs ← traverse (mask_to_classes self) masks; Ok (pre ++ encs ++ post)).
Proof.
  induction masks as [|mask masks IH]; intros pre post z; simpl; [done|].
  destruct (mask_to_classes self mask) as [enc|e] eqn:Henc; simpl; [|done].
  rewrite store_planes_ok;
    [|by eapply mask_to_classes_shape|apply length_at_length].
  simpl. rewrite insert_at_length.
  rewrite <- (length_snoc pre enc (length pre)) by done.
  rewrite IH. destruct (traverse _ masks) as [encs|e]; simpl; [|done].
  by rewrite <- app_assoc.
Qed.

(** The batched encoder is the encoder mapped over the masks from left to
    right, errors included. *)
Lemma masks_to_classes_traverse (self : Unet2DModel) (masks : list Image) :
  masks_to_classes self masks = traverse (mask_to_classes self) masks.
Proof.
  unfold masks_to_classes.
  pose proof (masks_to_classes_loop_traverse self masks [] []
                (np.full3 false (IMG_SIZE self) (IMG_SIZE self) (NUM_CLASSES self)))
    as H.
  simpl in H. rewrite app_nil_r in H. rewrite H.
  destruct (traverse _ masks); simpl; [|done]. by rewrite app_nil_r.
Qed.

Lemma traverse_Forall2 {A B} (f : A → result B) (l : list A) (l' : list B) :
  traverse f l = Ok l' ↔ Forall2 (λ x y, f x = Ok y) l l'.
Proof.
  revert l'. induction l as [|x l IH]; intros l'; simpl.
  - split; [by intros [= <-]; constructor|by inversion 1].
  - split.
    + destruct (f x) as [y|] eqn:Hy; simpl; [|done].
      destruct (traverse f l) as [ys|] eqn:Hys; simpl; [|done].
      intros [= <-]. constructor; [done|]. by apply IH.
    + inversion 1 as [|? y ? ys Hy Hys]; subst. rewrite Hy. simpl.
      apply IH in Hys. by rewrite Hys.
Qed.

Lemma uint8_range (v : Z) : (0 ≤ np.uint8 v < 256)%Z.
Proof. unfold np.uint8. apply Z.mod_pos_bound. lia. Qed.

Lemma uint8_image_id (a : Image) :
  uint8_image a → map (map (map np.uint8)) a = a.
Proof.
  intros Ha. apply map_id_Forall. eapply Forall_impl; [exact Ha|].
  intros row Hrow. simpl. apply map_id_Forall.
  eapply Forall_impl; [exact Hrow|]. intros px Hpx. by apply uint8_id.
Qed.

Lemma zip_with_shape {X Y Z} (P : Z → Prop) (f : X → Y → Z) xs ys n :
  length xs = n → length ys = n →
  (∀ x y, x ∈ xs → y ∈ ys → P (f x y)) →
  length (zip_with f xs ys) = n ∧ Forall P (zip_with f xs ys).
Proof.
  intros Hx Hy Hf. split; [rewrite length_zip_with; lia|].
  apply Forall_forall. intros z Hz.
  apply elem_of_lookup_zip_with in Hz as (i & x & y & -> & Hxi & Hyi).
  apply Hf; by eapply list_elem_of_lookup_2.
Qed.

Lemma setitem_where_shape channels idxs cn k (mask mask' : Image) d0 d1 :
  has_shape2 d0 d1 idxs →
  has_shape3 d0 d1 channels mask → uint8_image mask →
  setitem_where channels idxs cn k mask = Ok mask' →
  has_shape3 d0 d1 channels mask' ∧ uint8_image mask'.
Proof.
  intros [Hi0 Hi1] [Hm0 Hm1] Hu. unfold setitem_where.
  destruct (np.bcast_to channels k) as [k'|] eqn:Hk; simpl; [|done].
  intros [= <-].
  assert (length k' = channels) as Hk'.
  { unfold np.bcast_to in Hk. destruct (decide _); [by injection Hk as <-|].
    destruct k as [|x [|]]; try done. injection Hk as <-.
    by rewrite length_replicate. }
  rewrite Forall_forall in Hi1. rewrite Forall_forall in Hm1.
  unfold uint8_image in Hu. rewrite Forall_forall in Hu.
  pose proof (zip_with_shape
    (λ row, has_shape2 d1 channels row
            ∧ Forall (Forall (λ v, (0 ≤ v < 256)%Z)) row)
    (zip_with (λ idx px, if decide (idx = cn) then map np.uint8 k' else px))
    idxs mask d0 Hi0 Hm0) as [Hlen Hrows].
  { intros irow row Hirow Hrow.
    destruct (Hm1 _ Hrow) as [Hr0 Hr1]. pose proof (Hu _ Hrow) as Hur.
    rewrite Forall_forall in Hr1. rewrite Forall_forall in Hur.
    pose proof (zip_with_shape
      (λ px, length px = channels ∧ Forall (λ v, (0 ≤ v < 256)%Z) px)
      (λ idx px, if decide (idx = cn) then map np.uint8 k' else px)
      irow row d1 (Hi1 _ Hirow) Hr0) as [Hl Hpx].
    { intros idx px _ Hpx. destruct (decide _).
      - split; [by rewrite length_map|]. apply Forall_fmap, Forall_true.
        intros v. apply uint8_range.
      - split; [by apply Hr1|by apply Hur]. }
    split; [split; [done|]|].
    - eapply Forall_impl; [exact Hpx|]. by intros ? [? _].
    - eapply Forall_impl; [exact Hpx|]. by intros ? [_ ?]. }
  split; [split; [done|]|].
  - eapply Forall_impl; [exact Hrows|]. by intros ? [? _].
  - eapply Forall_impl; [exact Hrows|]. by intros ? [_ ?].
Qed.

Lemma prediction_to_mask_loop_shape channels idxs cls :
  ∀ cn (mask mask' : Image) d0 d1,
    has_shape2 d0 d1 idxs →
    has_shape3 d0 d1 channels mask → uint8_image mask →
    prediction_to_mask_loop channels idxs cn cls mask = Ok mask' →
    has_shape3 d0 d1 channels mask' ∧ uint8_image mask'.
Proof.
  induction cls as [|[k lbl] cls IH]; intros cn mask mask' d0 d1 Hi Hm Hu; simpl.
  - by intros [= <-].
  - destruct (setitem_where channels idxs cn k mask) as [m1|] eqn:Hset;
      simpl; [|done].
    destruct (setitem_where_shape _ _ _ _ _ _ _ _ Hi Hm Hu Hset) as [Hm1 Hu1].
    by apply IH.
Qed.

Lemma full3_shape {A} (z : A) d0 d1 d2 : has_shape3 d0 d1 d2 (np.full3 z d0 d1 d2).
Proof.
  unfold np.full3, np.full2, np.full1.
  split; [by rewrite length_replicate|]. apply Forall_replicate.
  split; [by rewrite length_replicate|]. apply Forall_replicate.
  by rewrite length_replicate.
Qed.

Lemma zeros_uint8 d0 d1 d2 : uint8_image (np.full3 0%Z d0 d1 d2).
Proof.
  unfold np.full3, np.full2, np.full1, uint8_image.
  do 3 apply Forall_replicate. lia.
Qed.

(** What the decoder returns has the first two axes of the prediction,
    the configured channels, and [uint8] entries. *)
Lemma prediction_to_mask_shape `{np.Order A} (self : Unet2DModel)
    (prediction : list (list (list A))) (mask : Image) d0 d1 :
  has_shape2 d0 d1 prediction →
  _prediction_to_mask self prediction = Ok mask →
  has_shape3 d0 d1 (IMG_CHANNELS self) mask ∧ uint8_image mask.
Proof.
  intros [H0 H1]. unfold _prediction_to_mask.
  destruct (np.shape2 prediction) as [e0 e1] eqn:Hshape.
  destruct (np.argmax_last prediction) as [idxs|] eqn:Hidx; simpl; [|done].
  intros Hloop.
  assert (has_shape2 d0 d1 idxs) as Hi.
  { unfold np.argmax_last in Hidx. apply traverse_Forall2 in Hidx.
    split; [by rewrite <- (Forall2_length _ _ _ Hidx)|].
    apply Forall_forall. intros irow Hirow.
    apply list_elem_of_lookup in Hirow as [i Hi].
    destruct (Forall2_lookup_r _ _ _ _ _ Hidx Hi) as (row & Hrow & Htr).
    apply traverse_length in Htr. rewrite Htr.
    rewrite Forall_lookup in H1. by eapply H1. }
  assert (has_shape3 d0 d1 (IMG_CHANNELS self)
            (np.full3 0%Z e0 e1 (IMG_CHANNELS self))) as Hm.
  { destruct prediction as [|row0 rest].
    - injection Hshape as <- <-. simpl in H0. subst d0.
      split; [done|constructor].
    - unfold np.shape2 in Hshape. simpl in Hshape. injection Hshape as <- <-.
      assert (length row0 = d1) as -> by by inversion H1.
      simpl in H0. rewrite H0. apply full3_shape. }
  eapply prediction_to_mask_loop_shape; [exact Hi|exact Hm| |exact Hloop].
  apply zeros_uint8.
Qed.

Lemma predictions_to_mask_loop_traverse `{np.Order A} (self : Unet2DModel)
    (predictions : list (list (list (list A)))) d0 d1 :
  Forall (has_shape2 d0 d1) predictions →
  ∀ pre post z,
    predictions_to_mask_loop self d0 d1 (length pre) predictions
      (pre ++ replicate (length predictions) z ++ post)
    = (masks ← traverse (_prediction_to_mask self) predictions;
       Ok (pre ++ masks ++ post)).
Proof.
  induction 1 as [|img predictions Himg _ IH]; intros pre post z; simpl; [done|].
  destruct (_prediction_to_mask self img) as [mask|e] eqn:Hmask; simpl; [|done].
  destruct (prediction_to_mask_shape _ _ _ _ _ Himg Hmask) as [Hshape Hu].
  unfold store_image. rewrite decide_True by apply length_at_length.
  rewrite bcast_to3_same by done. simpl.
  rewrite uint8_image_id by done. rewrite insert_at_length.
  rewrite <- (length_snoc pre mask (length pre)) by done.
  rewrite IH. destruct (traverse _ predictions) as [masks|e]; simpl; [|done].
  by rewrite <- app_assoc.
Qed.

(** On a batch whose predictions all have the same first two axes, the
    batched decoder is the decoder mapped over the batch from left to
    right, errors included. *)
Lemma predictions_to_mask_traverse `{np.Order A} (self : Unet2DModel)
    (predictions : list (list (list (list A)))) d0 d1 :
  Forall (has_shape2 d0 d1) predictions →
  _predictions_to_mask self predictions
  = traverse (_prediction_to_mask self) predictions.
Proof.
  intros Hrect. unfold _predictions_to_mask.
  destruct predictions as [|img rest]; [done|].
  unfold shape3. cbn [hd].
  assert (Forall (has_shape2 (length img) (length (hd [] img))) (img :: rest))
    as Hrect'.
  { pose proof Hrect as Himg. apply Forall_cons in Himg as [[H0 H1] _].
    destruct img as [|row img]; simpl in *.
    - subst d0. eapply Forall_impl; [exact Hrect|].
      intros p [Hp _]. apply nil_length_inv in Hp as ->. by split.
    - apply Forall_cons in H1 as [-> _]. by rewrite H0. }
  pose proof (predictions_to_mask_loop_traverse self (img :: rest) _ _ Hrect'
                [] [] (np.full3 0%Z (length img) (length (hd [] img))
                         (IMG_CHANNELS self))) as Hloop.
  cbn [app length] in Hloop. rewrite app_nil_r in Hloop.
  cbn [length]. rewrite Hloop.
  destruct (traverse _ (img :: rest)); simpl; [|done]. by rewrite app_nil_r.
Qed.

(** ** Codec: round trips and what the decoder can write *)

(** Decoding the class vector of a table color gives the color back,
    also when the table lists the color more than once: the first
    listing is the one decoded. *)
Lemma decode_first_match (self : Unet2DModel) (px : Color) :
  wf_classes self → px ∈ (CLASSES self).*1 →
  painted_by self (CLASSES self) (argmax_idx (class_vector self px)) = px.
Proof.
  intros Hwf Hin.
  apply list_elem_of_fmap in Hin as ([c lbl] & -> & Hin). simpl.
  destruct (list_find_elem_of (λ cl : Color * string, cl.1 = c) _ _ Hin eq_refl)
    as [[i [c' lbl']] Hfind].
  apply list_find_Some in Hfind as (Hi & Hc' & Hbefore). simpl in Hc'. subst c'.
  pose proof (wf_classes_lengths _ Hwf) as Hlen.
  rewrite Forall_lookup in Hlen. pose proof (Hlen _ _ Hi) as Hlc. simpl in Hlc.
  rewrite (argmax_idx_first_max _ i).
  - unfold painted_by. rewrite Hi. apply uint8_id.
    unfold wf_classes in Hwf. rewrite Forall_lookup in Hwf.
    by destruct (Hwf _ _ Hi).
  - apply first_max_one_hot.
    + rewrite class_vector_lookup, Hi. simpl. f_equal. by apply color_eqb_eq.
    + intros j Hj.
      assert (j < length (CLASSES self)) as Hjlt.
      { apply lookup_lt_Some in Hi. lia. }
      destruct (lookup_lt_is_Some_2 _ _ Hjlt) as [[cj lj] Hcj].
      rewrite class_vector_lookup, Hcj. simpl. f_equal.
      apply not_true_iff_false. rewrite color_eqb_eq.
      * intros ->. by apply (Hbefore _ _ Hcj Hj).
      * pose proof (Hlen _ _ Hcj) as Hl. simpl in Hl. congruence.
Qed.

Lemma class_vectors_nonempty (self : Unet2DModel) (mask : Image) :
  CLASSES self ≠ [] →
  Forall (Forall (λ v : list bool, v ≠ [])) (map (map (class_vector self)) mask).
Proof.
  intros Hne. apply Forall_fmap, Forall_true. intros row.
  apply Forall_fmap, Forall_true. intros px. simpl. intros Hnil. apply Hne.
  apply (f_equal length) in Hnil. rewrite class_vector_length in Hnil.
  by apply nil_length_inv.
Qed.

Lemma decode_encoded (self : Unet2DModel) (mask : Image) d0 d1 d2 :
  wf_classes self → CLASSES self ≠ [] →
  has_shape3 d0 d1 d2 mask →
  Forall (Forall (λ px, px ∈ (CLASSES self).*1)) mask →
  _prediction_to_mask self (map (map (class_vector self)) mask) = Ok mask.
Proof.
  intros Hwf Hne [H0 H1] Hcover.
  rewrite (prediction_to_mask_spec _ _ d1).
  - f_equal. rewrite map_map. rewrite <- (map_id mask) at 2.
    apply map_ext_in. intros row Hrow. rewrite map_map.
    rewrite <- (map_id row) at 2. apply map_ext_in. intros px Hin.
    apply decode_first_match; [done|].
    rewrite Forall_forall in Hcover. apply list_elem_of_In in Hrow, Hin.
    pose proof (Hcover _ Hrow) as Hr. rewrite Forall_forall in Hr. by apply Hr.
  - apply Forall_fmap. eapply Forall_impl; [exact H1|]. intros row [Hr _].
    simpl. by rewrite length_map.
  - by apply class_vectors_nonempty.
  - by apply wf_classes_lengths.
Qed.

(** X1. The round trip needs no distinct colors: over a well-formed,
    non-empty class table a mask of class colors is reproduced by
    encoding and decoding also when several classes share a color. *)
Theorem round_trip_with_shared_colors (self : Unet2DModel) (mask : Image) :
  wf_classes self → CLASSES self ≠ [] →
  has_shape3 (IMG_SIZE self) (IMG_SIZE self) (IMG_CHANNELS self) mask →
  Forall (Forall (λ px, px ∈ (CLASSES self).*1)) mask →
  (encoded ← mask_to_classes self mask; _prediction_to_mask self encoded)
  = Ok mask.
Proof.
  intros Hwf Hne Hshape Hcover.
  rewrite mask_to_classes_spec by (done || by apply wf_classes_lengths).
  simpl. by eapply decode_encoded.
Qed.

Lemma round_trip_with_shared_colors_witness :
  (encoded ← mask_to_classes duplicate_model rgb_mask;
   _prediction_to_mask duplicate_model encoded) = Ok rgb_mask.
Proof.
  apply round_trip_with_shared_colors.
  - repeat constructor; simpl; lia.
  - done.
  - repeat constructor.
  - repeat (constructor; [repeat (constructor; [by apply (bool_decide_unpack _)|])|]);
      constructor.
Defined.

(** X2. The batched encoder is the encoder applied to the masks in
    order: it returns what mapping [mask_to_classes] over the list
    returns, the first error included, and on success one array of
    shape (S, S, NUM_CLASSES) per mask. *)
Theorem masks_to_classes_maps_encoder (self : Unet2DModel) (masks : list Image) :
  masks_to_classes self masks = traverse (mask_to_classes self) masks
  ∧ ∀ encs, masks_to_classes self masks = Ok encs →
      length encs = length masks
      ∧ Forall (has_shape3 (IMG_SIZE self) (IMG_SIZE self) (NUM_CLASSES self)) encs.
Proof.
  split; [apply masks_to_classes_traverse|].
  intros encs. rewrite masks_to_classes_traverse. intros Henc.
  split; [by eapply traverse_length|].
  apply traverse_Forall2 in Henc. apply Forall_forall. intros enc Hin.
  apply list_elem_of_lookup in Hin as [i Hi].
  destruct (Forall2_lookup_r _ _ _ _ _ Henc Hi) as (mask & _ & Hm).
  by eapply mask_to_classes_shape.
Qed.

(** X3. On a batch of predictions with the same first two axes the
    batched decoder returns what mapping [_prediction_to_mask] over the
    batch returns, the first error included; when it returns there is
    one mask per prediction, each of shape (d0, d1, IMG_CHANNELS) with
    [uint8] entries. *)
Theorem predictions_to_mask_maps_decoder `{np.Order A} (self : Unet2DModel)
    (predictions : list (list (list (list A)))) (d0 d1 : nat) :
  Forall (has_shape2 d0 d1) predictions →
  _predictions_to_mask self predictions
  = traverse (_prediction_to_mask self) predictions
  ∧ ∀ masks, _predictions_to_mask self predictions = Ok masks →
      length masks = length predictions
      ∧ Forall (λ mask, has_shape3 d0 d1 (IMG_CHANNELS self) mask
                        ∧ uint8_image mask) masks.
Proof.
  intros Hshape.
  pose proof (predictions_to_mask_traverse self predictions d0 d1 Hshape) as Heq.
  split; [exact Heq|].
  intros masks. rewrite Heq. intros Hdec.
  split; [by eapply traverse_length|].
  apply traverse_Forall2 in Hdec. apply Forall_forall. intros mask Hin.
  apply list_elem_of_lookup in Hin as [i Hi].
  destruct (Forall2_lookup_r _ _ _ _ _ Hdec Hi) as (prediction & Hp & Hm).
  rewrite Forall_lookup in Hshape.
  by eapply prediction_to_mask_shape; [eapply Hshape|].
Qed.

Lemma predictions_to_mask_maps_decoder_witness :
  _predictions_to_mask rgb_model [tied_prediction; tied_prediction]
  = traverse (_prediction_to_mask rgb_model) [tied_prediction; tied_prediction]
  ∧ ∀ masks,
      _predictions_to_mask rgb_model [tied_prediction; tied_prediction] = Ok masks →
      length masks = 2
      ∧ Forall (λ mask, has_shape3 1 2 3 mask ∧ uint8_image mask) masks.
Proof.
  apply (predictions_to_mask_maps_decoder rgb_model
           [tied_prediction; tied_prediction] 1 2).
  repeat constructor.
Defined.

(** X4. Batched round trip: a list of masks of class colors, encoded by
    [masks_to_classes] and decoded by [_predictions_to_mask], comes back
    unchanged and in order. *)
Theorem batched_round_trip (self : Unet2DModel) (masks : list Image) :
  wf_classes self → CLASSES self ≠ [] →
  Forall (has_shape3 (IMG_SIZE self) (IMG_SIZE self) (IMG_CHANNELS self)) masks →
  Forall (Forall (Forall (λ px, px ∈ (CLASSES self).*1))) masks →
  (encs ← masks_to_classes self masks; _predictions_to_mask self encs)
  = Ok masks.
Proof.
  intros Hwf Hne Hshape Hcover.
  rewrite masks_to_classes_traverse.
  rewrite (traverse_Ok _ (λ m, map (map (class_vector self)) m)).
  2:{ eapply Forall_impl; [exact Hshape|]. intros m Hm. simpl.
      apply mask_to_classes_spec; [done|by apply wf_classes_lengths]. }
  simpl.
  rewrite (predictions_to_mask_traverse _ _ (IMG_SIZE self) (IMG_SIZE self)).
  2:{ apply Forall_fmap. eapply Forall_impl; [exact Hshape|].
      intros m [H0 H1]. simpl. split; [by rewrite length_map|].
      apply Forall_fmap. eapply Forall_impl; [exact H1|]. intros row [Hr _].
      simpl. by rewrite length_map. }
  apply traverse_Forall2. apply Forall2_fmap_l.
  apply Forall_Forall2_diag.
  rewrite Forall_forall in Hshape, Hcover. apply Forall_forall. intros m Hm.
  eapply decode_encoded; [done|done|by apply Hshape|by apply Hcover].
Qed.

Lemma batched_round_trip_witness :
  (encs ← masks_to_classes rgb_model [rgb_mask; rgb_mask];
   _predictions_to_mask rgb_model encs) = Ok [rgb_mask; rgb_mask].
Proof.
  apply batched_round_trip.
  - repeat constructor; simpl; lia.
  - done.
  - repeat constructor.
  - repeat (constructor; [repeat (constructor;
      [repeat (constructor; [by apply (bool_decide_unpack _)|])|])|]);
      repeat constructor.
Defined.

Lemma class_vector_of_class (self : Unet2DModel) (c : Color) (i : nat) lbl :
  wf_classes self → NoDup (CLASSES self).*1 →
  CLASSES self !! i = Some (c, lbl) →
  class_vector self c = <[i := true]> (replicate (NUM_CLASSES self) false).
Proof.
  intros Hwf Hnd Hi. apply list_eq. intros j.
  assert (i < NUM_CLASSES self) as Hlt by by eapply lookup_lt_Some.
  destruct (decide (j < NUM_CLASSES self)) as [Hj|Hj].
  - rewrite (class_vector_one_hot _ _ _ lbl) by done.
    destruct (decide (j = i)) as [->|Hne].
    + rewrite bool_decide_true by done.
      by rewrite list_lookup_insert_eq by by rewrite length_replicate.
    + rewrite bool_decide_false by done.
      rewrite list_lookup_insert_ne by done. by rewrite lookup_replicate_2.
  - rewrite !lookup_ge_None_2; [done|..].
    + rewrite length_insert, length_replicate. lia.
    + rewrite class_vector_length. lia.
Qed.

Lemma argmax_idx_one_hot (n i : nat) :
  i < n → argmax_idx (<[i := true]> (replicate n false)) = i.
Proof.
  intros Hi. apply argmax_idx_first_max, first_max_one_hot.
  - by rewrite list_lookup_insert_eq by by rewrite length_replicate.
  - intros j Hj. rewrite list_lookup_insert_ne by lia.
    apply lookup_replicate_2. lia.
Qed.



(** X6. The decoder writes table colors only: on a prediction of shape
    (d0, d1, NUM_CLASSES) over a well-formed non-empty table it returns
    a mask of shape (d0, d1, IMG_CHANNELS) each pixel of which is the
    color of some class. *)
Theorem decoder_writes_table_colors `{np.Order A} (self : Unet2DModel)
    (prediction : list (list (list A))) (d0 d1 : nat) :
  wf_classes self → 0 < NUM_CLASSES self →
  has_shape3 d0 d1 (NUM_CLASSES self) prediction →
  ∃ mask,
    _prediction_to_mask self prediction = Ok mask
    ∧ has_shape3 d0 d1 (IMG_CHANNELS self) mask
    ∧ Forall (Forall (λ px, px ∈ (CLASSES self).*1)) mask.
Proof.
  intros Hwf HN [H0 H1].
  assert (Forall (Forall (λ v : list A, v ≠ [])) prediction) as Hne.
  { eapply Forall_impl; [exact H1|]. intros row [_ Hrow].
    eapply Forall_impl; [exact Hrow|]. simpl. intros v Hv ->. simpl in Hv. lia. }
  assert (Forall (λ row, length row = d1) prediction) as Hrect.
  { eapply Forall_impl; [exact H1|]. by intros ? [? _]. }
  pose proof (prediction_to_mask_spec self prediction d1 Hrect Hne
                (wf_classes_lengths _ Hwf)) as Hspec.
  eexists. split; [exact Hspec|].
  assert (has_shape2 d0 d1 prediction) as Hs2 by done.
  split; [by destruct (prediction_to_mask_shape _ _ _ _ _ Hs2 Hspec)|].
  apply Forall_fmap. rewrite Forall_forall in H1. apply Forall_forall.
  intros row Hrow. destruct (H1 _ Hrow) as [_ Hvs]. simpl.
  apply Forall_fmap. eapply Forall_impl; [exact Hvs|]. intros v Hv. simpl.
  assert (v ≠ []) as Hvne by (intros ->; simpl in Hv; lia).
  destruct (argmax_first_max v Hvne) as (r & Hr & Hmax).
  unfold argmax_idx. rewrite Hr.
  assert (r < NUM_CLASSES self) as Hlt.
  { destruct Hmax as (x & Hx & _). rewrite <- Hv. by eapply lookup_lt_Some. }
  destruct (lookup_lt_is_Some_2 (CLASSES self) r Hlt) as [[k lbl] Hk].
  unfold painted_by. rewrite Hk.
  unfold wf_classes in Hwf. rewrite Forall_lookup in Hwf.
  destruct (Hwf _ _ Hk) as [_ Hrange]. simpl in Hrange.
  rewrite uint8_id by done.
  apply list_elem_of_fmap. exists (k, lbl). split; [done|].
  by eapply list_elem_of_lookup_2.
Qed.

Lemma decoder_writes_table_colors_witness :
  ∃ mask,
    _prediction_to_mask rgb_model tied_prediction = Ok mask
    ∧ has_shape3 1 2 3 mask
    ∧ Forall (Forall (λ px, px ∈ rgb_classes.*1)) mask.
Proof.
  apply (decoder_writes_table_colors rgb_model tied_prediction 1 2).
  - repeat constructor; simpl; lia.
  - vm_compute. lia.
  - repeat constructor.
Defined.

(** X7. A prediction may have more class channels than the table has
    classes: the decoder raises nothing, and a pixel whose first maximal
    channel has no class keeps the zero color the mask was created
    with. *)
Theorem decoder_leaves_zero_beyond_table `{np.Order A} (self : Unet2DModel)
    (prediction : list (list (list A))) (d1 x y r : nat) row v :
  wf_classes self →
  Forall (λ row, length row = d1) prediction →
  Forall (Forall (λ v : list A, v ≠ [])) prediction →
  prediction !! x = Some row → row !! y = Some v →
  first_max v r → NUM_CLASSES self ≤ r →
  ∃ mask mrow,
    _prediction_to_mask self prediction = Ok mask
    ∧ mask !! x = Some mrow
    ∧ mrow !! y = Some (replicate (IMG_CHANNELS self) 0%Z).
Proof.
  intros Hwf Hrect Hne Hx Hy Hr Hge.
  destruct (lookup2_map
              (λ v, painted_by self (CLASSES self) (argmax_idx v))
              _ _ _ _ _ Hx Hy) as (mrow & Hmx & Hmy).
  eexists _, mrow. split_and!; [|exact Hmx|].
  - by apply (prediction_to_mask_spec _ _ d1), wf_classes_lengths.
  - rewrite Hmy. f_equal. rewrite (argmax_idx_first_max _ _ Hr).
    unfold painted_by. by rewrite lookup_ge_None_2.
Qed.

Lemma decoder_leaves_zero_beyond_table_witness :
  ∃ mask mrow,
    _prediction_to_mask rgb_model [[[0; 1; 0; 0; 2]; [3; 1; 0; 0; 2]]]%Q = Ok mask
    ∧ mask !! 0 = Some mrow
    ∧ mrow !! 0 = Some (replicate 3 0%Z).
Proof.
  apply (decoder_leaves_zero_beyond_table rgb_model
           [[[0; 1; 0; 0; 2]; [3; 1; 0; 0; 2]]]%Q 2 0 0 4
           [[0; 1; 0; 0; 2]; [3; 1; 0; 0; 2]]%Q [0; 1; 0; 0; 2]%Q).
  - repeat constructor; simpl; lia.
  - by repeat constructor.
  - by repeat constructor.
  - reflexivity.
  - reflexivity.
  - exists 2%Q. split_and!; [reflexivity| |].
    + intros j q Hq. do 5 (destruct j as [|j]; [by injection Hq as <-|]). done.
    + intros j q Hj Hq.
      do 4 (destruct j as [|j]; [by injection Hq as <-|]). lia.
  - vm_compute. lia.
Defined.

(** X8. A model built over an empty class table: the encoder returns,
    for a mask of the configured shape, label planes of shape
    (S, S, 0), and the decoder cannot read them back: [np.argmax] over
    the empty class axis raises [ValueError]. *)
Theorem empty_class_table (self : Unet2DModel) (mask : Image) :
  CLASSES self = [] → 0 < IMG_SIZE self →
  has_shape3 (IMG_SIZE self) (IMG_SIZE self) (IMG_CHANNELS self) mask →
  mask_to_classes self mask
  = Ok (replicate (IMG_SIZE self) (replicate (IMG_SIZE self) []))
  ∧ (encoded ← mask_to_classes self mask; _prediction_to_mask self encoded)
    = Raise ValueError.
Proof.
  intros Hcls HS Hm.
  assert (mask_to_classes self mask
          = Ok (replicate (IMG_SIZE self) (replicate (IMG_SIZE self) [])))
    as Henc.
  { rewrite mask_to_classes_spec; [|done|by rewrite Hcls].
    f_equal. destruct Hm as [H0 H1]. rewrite <- H0 at 1.
    unfold class_vector. rewrite Hcls. simpl.
    clear H0. induction H1 as [|row mask' [Hr _] _ IH]; simpl; [done|].
    f_equal; [|done]. rewrite <- Hr. clear. by induction row; simpl; f_equal. }
  split; [done|]. rewrite Henc. simpl.
  destruct (IMG_SIZE self) as [|n]; [lia|]. reflexivity.
Qed.

Lemma empty_class_table_witness :
  mask_to_classes (init [] 2 3 "train/" "test/" None) rgb_mask
  = Ok (replicate 2 (replicate 2 []))
  ∧ (encoded ← mask_to_classes (init [] 2 3 "train/" "test/" None) rgb_mask;
     _prediction_to_mask (init [] 2 3 "train/" "test/" None) encoded)
    = Raise ValueError.
Proof.
  apply (empty_class_table (init [] 2 3 "train/" "test/" None) rgb_mask).
  - reflexivity.
  - simpl. lia.
  - repeat constructor.
Defined.

(** ** Loaders: outcome in general *)

Lemma keeps_test_split_refl o : keeps_test_split o o.
Proof. by repeat split. Qed.

Lemma keeps_test_split_trans o1 o2 o3 :
  keeps_test_split o1 o2 → keeps_test_split o2 o3 → keeps_test_split o1 o3.
Proof.
  unfold keeps_test_split, same_config. intros H1 H2.
  destruct_and!. repeat split; congruence.
Qed.

Lemma keeps_train_split_refl o : keeps_train_split o o.
Proof. by repeat split. Qed.

Lemma keeps_train_split_trans o1 o2 o3 :
  keeps_train_split o1 o2 → keeps_train_split o2 o3 → keeps_train_split o1 o3.
Proof.
  unfold keeps_train_split, same_config. intros H1 H2.
  destruct_and!. repeat split; congruence.
Qed.

(** Whatever the files hold, one turn of the training loop reads the
    image and then, unless it has raised, the mask of its sample, and
    assigns the two training arrays only. The outcome does not depend on
    the paths read before. *)
Lemma load_training_sample_outcome (fs : FS) (o : Unet2DModel) n id_ :
  ∃ r o' ps,
    (∀ rd, load_training_sample fs n id_ {| obj := o; reads := rd |}
           = (r, {| obj := o'; reads := rd ++ ps |}))
    ∧ keeps_test_split o o'
    ∧ (is_Some (train_images o) → is_Some (train_images o'))
    ∧ (is_Some (train_masks o) → is_Some (train_masks o'))
    ∧ ps `prefix_of` [image_path (PREPROCESSED_TRAIN_PATH o) id_;
                      mask_path (PREPROCESSED_TRAIN_PATH o) id_]
    ∧ (r = Ok () → ps = [image_path (PREPROCESSED_TRAIN_PATH o) id_;
                         mask_path (PREPROCESSED_TRAIN_PATH o) id_]).
Proof.
  unfold load_training_sample. run_M.
  unfold image_path, mask_path.
  repeat (case_match; cbn).
  all: eexists _, _, _; split; [intros rd; try rewrite <- app_assoc; reflexivity|].
  all: cbn; split_and!;
    first [ done | by repeat split | by eexists | by eexists [_]
          | by intros; simplify_eq
          | idtac ].
Qed.

(** The same for one turn of the test loop, which reads the mask only
    under a true flag. *)
Lemma load_testing_sample_outcome (fs : FS) (o : Unet2DModel) n id_ :
  ∃ r o' ps,
    (∀ rd, load_testing_sample fs n id_ {| obj := o; reads := rd |}
           = (r, {| obj := o'; reads := rd ++ ps |}))
    ∧ keeps_train_split o o'
    ∧ (is_Some (test_images o) → is_Some (test_images o'))
    ∧ (is_Some (test_masks o) → is_Some (test_masks o'))
    ∧ ps `prefix_of` [image_path (PREPROCESSED_TEST_PATH o) id_;
                      mask_path (PREPROCESSED_TEST_PATH o) id_].
Proof.
  unfold load_testing_sample. run_M.
  unfold image_path, mask_path.
  repeat (case_match; cbn).
  all: eexists _, _, _; split; [intros rd; try rewrite <- app_assoc; reflexivity|].
  all: cbn; split_and!;
    first [ done | by repeat split | by eexists | by eexists [_]
          | by intros; simplify_eq
          | idtac ].
Qed.

Lemma for_enumerate_cons {A} (body : nat → A → M unit) n x l w :
  for_enumerate body n (x :: l) w
  = match body n x w with
    | (Ok _, w') => for_enumerate body (S n) l w'
    | (Raise e, w') => (Raise e, w')
    end.
Proof. reflexivity. Qed.

Lemma sample_paths_cons root id_ ids :
  sample_paths root (id_ :: ids)
  = [image_path root id_; mask_path root id_] ++ sample_paths root ids.
Proof. reflexivity. Qed.

(** The training loop, whatever the files hold: it assigns the training
    arrays only and reads the files of the listed samples in order, each
    at most once, the image before the mask. *)
Lemma train_loop_outcome (fs : FS) (ids : list string) :
  ∀ (o : Unet2DModel) n,
    ∃ r o' ps,
      (∀ rd, for_enumerate (load_training_sample fs) n ids
               {| obj := o; reads := rd |}
             = (r, {| obj := o'; reads := rd ++ ps |}))
      ∧ keeps_test_split o o'
      ∧ (is_Some (train_images o) → is_Some (train_images o'))
      ∧ (is_Some (train_masks o) → is_Some (train_masks o'))
      ∧ ps `prefix_of` sample_paths (PREPROCESSED_TRAIN_PATH o) ids
      ∧ (r = Ok () → ps = sample_paths (PREPROCESSED_TRAIN_PATH o) ids).
Proof.
  induction ids as [|id_ ids IH]; intros o n.
  - exists (Ok ()), o, [].
    split_and!; [intros rd; by rewrite app_nil_r|apply keeps_test_split_refl
                |done|done|apply prefix_nil|done].
  - destruct (load_training_sample_outcome fs o n id_)
      as (r1 & o1 & ps1 & Hrun1 & Hk1 & Hi1 & Hm1 & Hp1 & Hok1).
    destruct r1 as [[]|e].
    + destruct (IH o1 (S n)) as (r & o' & ps & Hrun & Hk & Hi & Hm & Hp & Hok).
      assert (PREPROCESSED_TRAIN_PATH o1 = PREPROCESSED_TRAIN_PATH o) as Hroot
        by by destruct Hk1 as [(_ & _ & _ & _ & -> & _) _].
      rewrite Hroot in Hp, Hok.
      exists r, o', (ps1 ++ ps).
      split_and!; [|by eapply keeps_test_split_trans|auto..| |].
      * intros rd. rewrite for_enumerate_cons, Hrun1, Hrun. by rewrite app_assoc.
      * rewrite sample_paths_cons, (Hok1 eq_refl). by apply prefix_app.
      * intros Hr. by rewrite sample_paths_cons, (Hok1 eq_refl), (Hok Hr).
    + exists (Raise e), o1, ps1.
      split_and!; [intros rd; by rewrite for_enumerate_cons, Hrun1
                  |done|done|done| |done].
      rewrite sample_paths_cons. by apply prefix_app_r.
Qed.

Lemma test_loop_outcome (fs : FS) (ids : list string) :
  ∀ (o : Unet2DModel) n,
    ∃ r o' ps,
      (∀ rd, for_enumerate (load_testing_sample fs) n ids
               {| obj := o; reads := rd |}
             = (r, {| obj := o'; reads := rd ++ ps |}))
      ∧ keeps_train_split o o'
      ∧ (is_Some (test_images o) → is_Some (test_images o'))
      ∧ (is_Some (test_masks o) → is_Some (test_masks o')).
Proof.
  induction ids as [|id_ ids IH]; intros o n.
  - exists (Ok ()), o, [].
    split_and!; [intros rd; by rewrite app_nil_r|apply keeps_train_split_refl
                |done|done].
  - destruct (load_testing_sample_outcome fs o n id_)
      as (r1 & o1 & ps1 & Hrun1 & Hk1 & Hi1 & Hm1 & Hp1).
    destruct r1 as [[]|e].
    + destruct (IH o1 (S n)) as (r & o' & ps & Hrun & Hk & Hi & Hm).
      exists r, o', (ps1 ++ ps). split_and!; [|by eapply keeps_train_split_trans|auto..].
      intros rd. rewrite for_enumerate_cons, Hrun1, Hrun. by rewrite app_assoc.
    + exists (Raise e), o1, ps1.
      split_and!; [intros rd; by rewrite for_enumerate_cons, Hrun1
                  |done|done|done].
Qed.

(** An object that has the two training arrays assigned and otherwise
    agrees with [o] is [o] with the two arrays set. *)
Lemma keeps_test_split_set (o o' : Unet2DModel) imgs pls :
  keeps_test_split o o' →
  train_images o' = Some imgs → train_masks o' = Some pls →
  o' = set_train_masks pls (set_train_images imgs o).
Proof.
  intros [(? & ? & ? & ? & ? & ? & ? & ?) [? ?]] ? ?.
  destruct o, o'. unfold set_train_masks, set_train_images. simpl in *.
  by subst.
Qed.

Lemma keeps_train_split_set (o o' : Unet2DModel) imgs pls :
  keeps_train_split o o' →
  test_images o' = Some imgs → test_masks o' = Some pls →
  o' = set_test_masks pls (set_test_images imgs o).
Proof.
  intros [(? & ? & ? & ? & ? & ? & ? & ?) [? ?]] ? ?.
  destruct o, o'. unfold set_test_masks, set_test_images. simpl in *.
  by subst.
Qed.

(** A load of the training split from an existing directory, whatever
    the files hold: the object it leaves is the old one with the two
    training arrays replaced, and the outcome does not depend on the
    paths read before. *)
Lemma load_training_images_outcome (fs : FS) (o : Unet2DModel) ids :
  walk_files fs (PREPROCESSED_TRAIN_PATH o +:+ "images/") = Some ids →
  ∃ r imgs pls ps,
    (∀ rd, load_training_images fs {| obj := o; reads := rd |}
           = (r, {| obj := set_train_masks pls (set_train_images imgs o);
                    reads := rd ++ ps |}))
    ∧ ps `prefix_of` sample_paths (PREPROCESSED_TRAIN_PATH o) ids
    ∧ (r = Ok () → ps = sample_paths (PREPROCESSED_TRAIN_PATH o) ids).
Proof.
  intros Hwalk.
  destruct (train_loop_outcome fs ids
              (set_train_masks (zero_masks o (length ids))
                 (set_train_images (zero_images o (length ids)) o)) 0)
    as (r & o' & ps & Hrun & Hk & Hi & Hm & Hp & Hok).
  destruct Hi as [imgs Himgs]; [by eexists|].
  destruct Hm as [pls Hpls]; [by eexists|].
  exists r, imgs, pls, ps. split; [|split; [exact Hp|exact Hok]].
  intros rd. rewrite (load_training_images_listed _ _ ids) by exact Hwalk.
  cbn [obj reads]. rewrite Hrun. do 2 f_equal.
  rewrite (keeps_test_split_set _ _ _ _ Hk Himgs Hpls). reflexivity.
Qed.

Lemma load_testing_images_outcome (fs : FS) (o : Unet2DModel) ids :
  walk_files fs (PREPROCESSED_TEST_PATH o +:+ "images/") = Some ids →
  ∃ r imgs pls ps,
    ∀ rd, load_testing_images fs {| obj := o; reads := rd |}
          = (r, {| obj := set_test_masks pls (set_test_images imgs o);
                   reads := rd ++ ps |}).
Proof.
  intros Hwalk.
  destruct (test_loop_outcome fs ids
              (set_test_masks (zero_masks o (length ids))
                 (set_test_images (zero_images o (length ids)) o)) 0)
    as (r & o' & ps & Hrun & Hk & Hi & Hm).
  destruct Hi as [imgs Himgs]; [by eexists|].
  destruct Hm as [pls Hpls]; [by eexists|].
  exists r, imgs, pls, ps.
  intros rd. rewrite (load_testing_images_listed _ _ ids) by exact Hwalk.
  cbn [obj reads]. rewrite Hrun. do 2 f_equal.
  rewrite (keeps_train_split_set _ _ _ _ Hk Himgs Hpls). reflexivity.
Qed.

(** A missing directory: [next] on the exhausted walk raises before
    anything is assigned or read. *)
Lemma load_training_images_missing (fs : FS) (w : world) :
  walk_files fs (PREPROCESSED_TRAIN_PATH (obj w) +:+ "images/") = None →
  load_training_images fs w = (Raise StopIteration, w).
Proof.
  intros Hwalk. unfold load_training_images, os_walk_files. run_M.
  by rewrite Hwalk.
Qed.

Lemma load_testing_images_missing (fs : FS) (w : world) :
  walk_files fs (PREPROCESSED_TEST_PATH (obj w) +:+ "images/") = None →
  load_testing_images fs w = (Raise StopIteration, w).
Proof.
  intros Hwalk. unfold load_testing_images, os_walk_files. run_M.
  by rewrite Hwalk.
Qed.

(** ** Loaders: what a load leaves behind *)

Lemma load_training_sample_missing_mask (fs : FS) (w : world) n id_ imgs :
  0 < IMG_SIZE (obj w) →
  good_image (obj w) (files fs !! image_path (PREPROCESSED_TRAIN_PATH (obj w)) id_) →
  files fs !! mask_path (PREPROCESSED_TRAIN_PATH (obj w)) id_ = None →
  train_images (obj w) = Some imgs → n < length imgs →
  load_training_sample fs n id_ w
  = (Raise (FileNotFoundError (mask_path (PREPROCESSED_TRAIN_PATH (obj w)) id_)),
     {| obj := set_train_images
                 (<[n := stored_image (IMG_CHANNELS (obj w))
                           (the_array (files fs !!
                              image_path (PREPROCESSED_TRAIN_PATH (obj w)) id_))]>
                    imgs) (obj w);
        reads := reads w ++ [image_path (PREPROCESSED_TRAIN_PATH (obj w)) id_;
                             mask_path (PREPROCESSED_TRAIN_PATH (obj w)) id_] |}).
Proof.
  intros HS Himg Hmask Himgs Hn.
  unfold load_training_sample. run_M.
  unfold image_path, mask_path in *.
  run_good_image Himg HS Himgs Hn.
  rewrite Hmask. cbn. by rewrite <- app_assoc.
Qed.

(** X9. A training directory of acceptable samples: the load returns,
    [train_images] and [train_masks] hold, in listing order, the stored
    images and the class vectors of the mask pixels, every file has been
    read once, each image just before its mask, and nothing else of the
    object has changed. *)
Theorem training_load_of_good_directory (fs : FS) (w : world) (ids : list string) :
  0 < IMG_SIZE (obj w) →
  Forall (λ c, length c.1 = IMG_CHANNELS (obj w)) (CLASSES (obj w)) →
  walk_files fs (PREPROCESSED_TRAIN_PATH (obj w) +:+ "images/") = Some ids →
  Forall (good_sample (obj w) fs (PREPROCESSED_TRAIN_PATH (obj w))) ids →
  load_training_images fs w
  = (Ok (),
     {| obj :=
          set_train_masks
            (loaded_masks (obj w) fs (PREPROCESSED_TRAIN_PATH (obj w)) ids)
            (set_train_images
               (loaded_images (obj w) fs (PREPROCESSED_TRAIN_PATH (obj w)) ids)
               (obj w));
        reads := reads w ++ sample_paths (PREPROCESSED_TRAIN_PATH (obj w)) ids |}).
Proof.
  intros HS Hcls Hwalk Hgood.
  rewrite <- (app_nil_r ids) in Hwalk.
  rewrite (load_training_images_prefix _ _ _ _ HS Hcls Hwalk Hgood).
  cbn. by rewrite !app_nil_r.
Qed.

Lemma training_load_of_good_directory_witness :
  load_training_images wide_image_fs (fresh rgb_model)
  = (Ok (),
     {| obj :=
          set_train_masks (loaded_masks rgb_model wide_image_fs "train/" ["a.png"])
            (set_train_images
               (loaded_images rgb_model wide_image_fs "train/" ["a.png"])
               rgb_model);
        reads := [] ++ sample_paths "train/" ["a.png"] |}).
Proof.
  apply (training_load_of_good_directory wide_image_fs (fresh rgb_model) ["a.png"]).
  - cbn. lia.
  - repeat constructor.
  - reflexivity.
  - constructor; [|constructor]. split.
    + exists rgba_image, 4. split_and!; [reflexivity|repeat constructor|cbn; lia].
    + exists rgb_mask. split; [reflexivity|repeat constructor].
Defined.

(** X10. An image without a mask file: after a prefix of acceptable
    samples the training load raises [FileNotFoundError] for the mask
    path, and by then the image of that sample is already stored while
    its label planes are still zero. *)
Theorem missing_mask_file_raises (fs : FS) (w : world)
    (good rest : list string) (id_ : string) :
  0 < IMG_SIZE (obj w) →
  Forall (λ c, length c.1 = IMG_CHANNELS (obj w)) (CLASSES (obj w)) →
  walk_files fs (PREPROCESSED_TRAIN_PATH (obj w) +:+ "images/")
    = Some (good ++ id_ :: rest) →
  Forall (good_sample (obj w) fs (PREPROCESSED_TRAIN_PATH (obj w))) good →
  good_image (obj w) (files fs !! image_path (PREPROCESSED_TRAIN_PATH (obj w)) id_) →
  files fs !! mask_path (PREPROCESSED_TRAIN_PATH (obj w)) id_ = None →
  ∃ w',
    load_training_images fs w
    = (Raise (FileNotFoundError
                (mask_path (PREPROCESSED_TRAIN_PATH (obj w)) id_)), w')
    ∧ train_images (obj w')
      = Some (loaded_images (obj w) fs (PREPROCESSED_TRAIN_PATH (obj w))
                (good ++ [id_])
              ++ zero_images (obj w) (length rest))
    ∧ train_masks (obj w')
      = Some (loaded_masks (obj w) fs (PREPROCESSED_TRAIN_PATH (obj w)) good
              ++ zero_masks (obj w) (S (length rest))).
Proof.
  intros HS Hcls Hwalk Hgood Himg Hmask.
  rewrite (load_training_images_prefix _ _ _ _ HS Hcls Hwalk Hgood).
  cbn [for_enumerate]. unfold mbind at 1. unfold M_bind at 1.
  erewrite load_training_sample_missing_mask; [|done|done|done|reflexivity|].
  - eexists. split; [reflexivity|]. cbn. split; [|done].
    f_equal. unfold loaded_images, zero_images in *.
    rewrite insert_app_r_alt by (rewrite length_map; lia).
    rewrite length_map, Nat.sub_diag. cbn.
    by rewrite map_app, <- app_assoc.
  - unfold loaded_images, zero_images.
    rewrite length_app, length_map, length_replicate. cbn. lia.
Qed.

Lemma missing_mask_file_raises_witness :
  ∃ w',
    load_training_images missing_mask_fs (fresh rgb_model)
    = (Raise (FileNotFoundError (mask_path "train/" "b.png")), w')
    ∧ train_images (obj w')
      = Some (loaded_images rgb_model missing_mask_fs "train/" (["a.png"] ++ ["b.png"])
              ++ zero_images rgb_model 0)
    ∧ train_masks (obj w')
      = Some (loaded_masks rgb_model missing_mask_fs "train/" ["a.png"]
              ++ zero_masks rgb_model 1).
Proof.
  apply (missing_mask_file_raises missing_mask_fs (fresh rgb_model)
           ["a.png"] [] "b.png").
  - cbn. lia.
  - repeat constructor.
  - reflexivity.
  - constructor; [|constructor]. split.
    + exists rgb_mask, 3. split_and!; [reflexivity|repeat constructor|cbn; lia].
    + exists rgb_mask. split; [reflexivity|repeat constructor].
  - exists rgb_mask, 3. split_and!; [reflexivity|repeat constructor|cbn; lia].
  - reflexivity.
Defined.

(** X11. Whatever the directories hold and whether or not it raises, a
    load of one split leaves the configuration, the epoch counter and
    the arrays of the other split as they were. *)
Theorem loaders_keep_the_other_split (fs : FS) (w : world) :
  keeps_test_split (obj w) (obj (load_training_images fs w).2)
  ∧ keeps_train_split (obj w) (obj (load_testing_images fs w).2).
Proof.
  destruct w as [o rd]. cbn [obj]. split.
  - destruct (walk_files fs (PREPROCESSED_TRAIN_PATH o +:+ "images/"))
      as [ids|] eqn:Hwalk.
    + destruct (load_training_images_outcome fs o ids Hwalk)
        as (r & imgs & pls & ps & Hrun & _).
      rewrite Hrun. cbn. by repeat split.
    + rewrite load_training_images_missing by done.
      apply keeps_test_split_refl.
  - destruct (walk_files fs (PREPROCESSED_TEST_PATH o +:+ "images/"))
      as [ids|] eqn:Hwalk.
    + destruct (load_testing_images_outcome fs o ids Hwalk)
        as (r & imgs & pls & ps & Hrun).
      rewrite Hrun. cbn. by repeat split.
    + rewrite load_testing_images_missing by done.
      apply keeps_train_split_refl.
Qed.

(** X12. A missing images directory: [next] finds the walk exhausted, so
    the loader of that split raises [StopIteration], not a file error,
    before it assigns or reads anything. Each split stands alone: the
    directory of the other split plays no part. *)
Theorem missing_directory_raises (fs : FS) (w : world) :
  (walk_files fs (PREPROCESSED_TRAIN_PATH (obj w) +:+ "images/") = None →
   load_training_images fs w = (Raise StopIteration, w))
  ∧ (walk_files fs (PREPROCESSED_TEST_PATH (obj w) +:+ "images/") = None →
     load_testing_images fs w = (Raise StopIteration, w)).
Proof.
  split.
  - apply load_training_images_missing.
  - apply load_testing_images_missing.
Qed.

Lemma missing_directory_raises_witness :
  load_training_images wide_image_fs
    (fresh (init rgb_classes 2 3 "other/" "test/" None))
  = (Raise StopIteration, fresh (init rgb_classes 2 3 "other/" "test/" None))
  ∧ load_testing_images wide_image_fs
      (fresh (init rgb_classes 2 3 "train/" "other/" None))
    = (Raise StopIteration, fresh (init rgb_classes 2 3 "train/" "other/" None)).
Proof.
  split.
  - apply (proj1 (missing_directory_raises wide_image_fs
                    (fresh (init rgb_classes 2 3 "other/" "test/" None)))).
    reflexivity.
  - apply (proj2 (missing_directory_raises wide_image_fs
                    (fresh (init rgb_classes 2 3 "train/" "other/" None)))).
    reflexivity.
Defined.

(** X13. Loading the training split again, the files unchanged, ends as
    the first load did and leaves the same object, also when the load
    raises: every load starts from fresh zero arrays. *)
Theorem reload_is_idempotent (fs : FS) (w : world) (ids : list string) :
  walk_files fs (PREPROCESSED_TRAIN_PATH (obj w) +:+ "images/") = Some ids →
  ∃ r w1 w2,
    load_training_images fs w = (r, w1)
    ∧ load_training_images fs w1 = (r, w2)
    ∧ obj w2 = obj w1.
Proof.
  intros Hwalk. destruct w as [o rd]. cbn [obj] in Hwalk.
  destruct (load_training_images_outcome fs o ids Hwalk)
    as (r & imgs & pls & ps & Hrun & _).
  eexists r, _, _. split; [apply Hrun|].
  set (o1 := set_train_masks pls (set_train_images imgs o)).
  assert (load_training_images fs {| obj := o1; reads := rd ++ ps |}
          = (r, {| obj := o1; reads := (rd ++ ps) ++ ps |})) as Hagain.
  { transitivity (load_training_images fs {| obj := o; reads := rd ++ ps |});
      [|apply Hrun].
    rewrite (load_training_images_listed _ {| obj := o1; reads := rd ++ ps |} ids)
      by exact Hwalk.
    by rewrite (load_training_images_listed _ {| obj := o; reads := rd ++ ps |} ids)
      by exact Hwalk. }
  split; [exact Hagain|reflexivity].
Qed.

Lemma reload_is_idempotent_witness :
  ∃ r w1 w2,
    load_training_images missing_mask_fs (fresh rgb_model) = (r, w1)
    ∧ load_training_images missing_mask_fs w1 = (r, w2)
    ∧ obj w2 = obj w1.
Proof.
  apply (reload_is_idempotent missing_mask_fs (fresh rgb_model) ["a.png"; "b.png"]).
  reflexivity.
Defined.

(** X14. Whatever the files hold, a training load from an existing
    directory reads files of the listed samples only, in listing order,
    each at most once and an image always before its mask; when it
    returns it has read all of them. *)
Theorem training_load_read_order (fs : FS) (w : world) (ids : list string) :
  walk_files fs (PREPROCESSED_TRAIN_PATH (obj w) +:+ "images/") = Some ids →
  ∃ r w' ps,
    load_training_images fs w = (r, w')
    ∧ reads w' = reads w ++ ps
    ∧ ps `prefix_of` sample_paths (PREPROCESSED_TRAIN_PATH (obj w)) ids
    ∧ (r = Ok () → ps = sample_paths (PREPROCESSED_TRAIN_PATH (obj w)) ids).
Proof.
  intros Hwalk. destruct w as [o rd]. cbn [obj reads] in *.
  destruct (load_training_images_outcome fs o ids Hwalk)
    as (r & imgs & pls & ps & Hrun & Hp & Hok).
  eexists r, _, ps. split; [apply Hrun|]. by split_and!.
Qed.

Lemma training_load_read_order_witness :
  ∃ r w' ps,
    load_training_images missing_mask_fs (fresh rgb_model) = (r, w')
    ∧ reads w' = [] ++ ps
    ∧ ps `prefix_of` sample_paths "train/" ["a.png"; "b.png"]
    ∧ (r = Ok () → ps = sample_paths "train/" ["a.png"; "b.png"]).
Proof.
  apply (training_load_read_order missing_mask_fs (fresh rgb_model)
           ["a.png"; "b.png"]).
  reflexivity.
Defined.

(** ** Loaders: images of another size *)

Lemma bcast_to_length {A} n (xs ys : list A) :
  np.bcast_to n xs = Ok ys → length ys = n.
Proof.
  unfold np.bcast_to. case_decide as Hlen; [by intros [= <-]|].
  destruct xs as [|x [|x' xs]]; [done| |done].
  intros [= <-]. apply length_replicate.
Qed.

Lemma bcast_to_fits {A} n (xs : list A) :
  length xs = n ∨ length xs = 1 → ∃ ys, np.bcast_to n xs = Ok ys.
Proof.
  intros Hlen. unfold np.bcast_to. case_decide; [by eexists|].
  destruct Hlen as [Hlen|Hlen]; [done|].
  destruct xs as [|x [|x' xs]]; [done|by eexists|done].
Qed.

Lemma bcast_to_refuses {A} n (xs : list A) :
  length xs ≠ n → length xs ≠ 1 → np.bcast_to n xs = Raise ValueError.
Proof.
  intros Hn H1. unfold np.bcast_to. rewrite decide_False by done.
  by destruct xs as [|x [|x' xs]].
Qed.

Lemma traverse_all_Ok {A B} (f : A → result B) (l : list A) :
  Forall (λ x, ∃ y, f x = Ok y) l → ∃ l', traverse f l = Ok l'.
Proof.
  induction 1 as [|x l [y Hy] _ [l' IH]]; simpl; [by eexists|].
  rewrite Hy. simpl. rewrite IH. by eexists.
Qed.

(** An array whose first or second axis is neither the slot's nor 1
    cannot be stored in the slot. *)
Lemma bcast_to3_refuses {A} d0 d1 d2 t0 t1 (a : list (list (list A))) :
  has_shape3 t0 t1 d2 a → 0 < t0 →
  (t0 ≠ d0 ∧ t0 ≠ 1) ∨ (t1 ≠ d1 ∧ t1 ≠ 1) →
  bcast_to3 d0 d1 d2 a = Raise ValueError.
Proof.
  intros [H0 H1] Ht0 Hbad. unfold bcast_to3.
  assert (∀ slab : list (list A),
            length slab = t1 ∧ Forall (λ px, length px = d2) slab →
            traverse (np.bcast_to d2) slab = Ok slab) as Hpx.
  { intros slab [_ Hs]. rewrite (traverse_Ok _ id).
    - by rewrite map_id.
    - eapply Forall_impl; [exact Hs|]. intros px Hl. by apply bcast_to_same. }
  destruct (decide (t1 = d1 ∨ t1 = 1)) as [Hfit|Hno].
  - destruct Hbad as [[Hn0 Hn1]|[Hn0 Hn1]]; [|by destruct Hfit].
    destruct (traverse_all_Ok (np.bcast_to2 d1 d2) a) as [slabs Hslabs].
    { eapply Forall_impl; [exact H1|]. intros slab Hslab. simpl.
      unfold np.bcast_to2. rewrite (Hpx _ Hslab). simpl.
      apply bcast_to_fits. destruct Hslab as [-> _]. done. }
    rewrite Hslabs. simpl. apply bcast_to_refuses.
    + rewrite (traverse_length _ _ _ Hslabs). lia.
    + rewrite (traverse_length _ _ _ Hslabs). lia.
  - destruct a as [|slab a]; [simpl in H0; lia|].
    apply Forall_cons in H1 as [Hslab _].
    assert (np.bcast_to2 d1 d2 slab = Raise ValueError) as Hfirst.
    { unfold np.bcast_to2. rewrite (Hpx _ Hslab). simpl.
      apply bcast_to_refuses; destruct Hslab as [-> _]; tauto. }
    cbn [traverse]. by rewrite Hfirst.
Qed.

Lemma store_image_refuses d0 d1 d2 t0 t1 n (img : Image) (arr : list Image) :
  has_shape3 t0 t1 d2 img → 0 < t0 →
  (t0 ≠ d0 ∧ t0 ≠ 1) ∨ (t1 ≠ d1 ∧ t1 ≠ 1) →
  n < length arr →
  store_image d0 d1 d2 n img arr = Raise ValueError.
Proof.
  intros Hs Ht Hbad Hn. unfold store_image. rewrite decide_True by done.
  by rewrite (bcast_to3_refuses _ _ _ t0 t1).
Qed.

(** A single pixel is stretched over the slot. *)
Lemma store_image_pixel s c n (px : list Z) (arr : list Image) :
  length px = c → n < length arr →
  store_image s s c n [[px]] arr
  = Ok (<[n := replicate s (replicate s (map np.uint8 px))]> arr).
Proof.
  intros Hpx Hn. unfold store_image. rewrite decide_True by done.
  unfold bcast_to3. cbn [traverse]. unfold np.bcast_to2 at 1. cbn [traverse].
  rewrite bcast_to_same by done. cbn.
  assert (∀ {X} (x : X), np.bcast_to s [x] = Ok (replicate s x)) as Hrep.
  { intros X x. unfold np.bcast_to. case_decide as Hs; [|done].
    simpl in Hs. by subst s. }
  rewrite Hrep. cbn. rewrite Hrep. cbn.
  by rewrite !fmap_replicate.
Qed.

Lemma load_training_sample_wrong_size (fs : FS) (w : world) n id_ imgs a t0 t1 c :
  files fs !! image_path (PREPROCESSED_TRAIN_PATH (obj w)) id_ = Some (Arr3 a) →
  has_shape3 t0 t1 c a → 0 < t0 → 0 < t1 → IMG_CHANNELS (obj w) ≤ c →
  (t0 ≠ IMG_SIZE (obj w) ∧ t0 ≠ 1) ∨ (t1 ≠ IMG_SIZE (obj w) ∧ t1 ≠ 1) →
  train_images (obj w) = Some imgs → n < length imgs →
  load_training_sample fs n id_ w
  = (Raise ValueError,
     {| obj := obj w;
        reads := reads w ++ [image_path (PREPROCESSED_TRAIN_PATH (obj w)) id_] |}).
Proof.
  intros Hf Ha Ht0 Ht1 Hc Hbad Himgs Hn.
  unfold load_training_sample. run_M.
  unfold image_path in Hf. rewrite Hf. cbn.
  rewrite (sliced_shape_2 _ t0 t1 c) by done.
  rewrite decide_False by lia. cbn. rewrite Himgs.
  rewrite (store_image_refuses _ _ _ t0 t1); [done| |done..].
  pose proof (slice_shape a t0 t1 c (IMG_CHANNELS (obj w)) Ha) as Hs.
  by rewrite Nat.min_l in Hs by done.
Qed.

Lemma load_training_sample_pixel (fs : FS) (w : world) n id_ imgs pls px :
  0 < IMG_SIZE (obj w) →
  Forall (λ c, length c.1 = IMG_CHANNELS (obj w)) (CLASSES (obj w)) →
  files fs !! image_path (PREPROCESSED_TRAIN_PATH (obj w)) id_ = Some (Arr3 [[px]]) →
  IMG_CHANNELS (obj w) ≤ length px →
  good_mask (obj w) (files fs !! mask_path (PREPROCESSED_TRAIN_PATH (obj w)) id_) →
  train_images (obj w) = Some imgs → n < length imgs →
  train_masks (obj w) = Some pls → n < length pls →
  load_training_sample fs n id_ w
  = (Ok (),
     {| obj := set_train_masks
                 (<[n := map (map (class_vector (obj w)))
                           (the_array (files fs !!
                              mask_path (PREPROCESSED_TRAIN_PATH (obj w)) id_))]> pls)
                 (set_train_images
                    (<[n := replicate (IMG_SIZE (obj w))
                              (replicate (IMG_SIZE (obj w))
                                 (map np.uint8 (take (IMG_CHANNELS (obj w)) px)))]>
                       imgs) (obj w));
        reads := reads w ++ [image_path (PREPROCESSED_TRAIN_PATH (obj w)) id_;
                             mask_path (PREPROCESSED_TRAIN_PATH (obj w)) id_] |}).
Proof.
  intros HS Hcls Hf Hc Hmask Himgs Hn Hpls Hn'.
  unfold load_training_sample. run_M.
  unfold image_path, mask_path in *. rewrite Hf. cbn.
  rewrite length_take, Nat.min_l by done.
  rewrite decide_False by lia. cbn. rewrite Himgs.
  rewrite store_image_pixel; [|by rewrite length_take, Nat.min_l|done]. cbn.
  run_good_mask Hmask HS Hcls Hpls Hn'.
  by rewrite <- app_assoc.
Qed.

(** X15. An image file of another size: when its first or second axis
    is neither [IMG_SIZE] nor 1 the assignment to the array slot raises
    numpy's [ValueError] at that sample, before the mask is read; the
    arrays keep the samples loaded before it. *)
Theorem wrong_size_image_raises (fs : FS) (w : world)
    (good rest : list string) (id_ : string) (a : Image) (t0 t1 c : nat) :
  0 < IMG_SIZE (obj w) →
  Forall (λ c, length c.1 = IMG_CHANNELS (obj w)) (CLASSES (obj w)) →
  walk_files fs (PREPROCESSED_TRAIN_PATH (obj w) +:+ "images/")
    = Some (good ++ id_ :: rest) →
  Forall (good_sample (obj w) fs (PREPROCESSED_TRAIN_PATH (obj w))) good →
  files fs !! image_path (PREPROCESSED_TRAIN_PATH (obj w)) id_ = Some (Arr3 a) →
  has_shape3 t0 t1 c a → 0 < t0 → 0 < t1 → IMG_CHANNELS (obj w) ≤ c →
  (t0 ≠ IMG_SIZE (obj w) ∧ t0 ≠ 1) ∨ (t1 ≠ IMG_SIZE (obj w) ∧ t1 ≠ 1) →
  ∃ w',
    load_training_images fs w = (Raise ValueError, w')
    ∧ train_images (obj w')
      = Some (loaded_images (obj w) fs (PREPROCESSED_TRAIN_PATH (obj w)) good
              ++ zero_images (obj w) (S (length rest)))
    ∧ reads w'
      = reads w ++ sample_paths (PREPROCESSED_TRAIN_PATH (obj w)) good
          ++ [image_path (PREPROCESSED_TRAIN_PATH (obj w)) id_].
Proof.
  intros HS Hcls Hwalk Hgood Hf Ha Ht0 Ht1 Hc Hbad.
  rewrite (load_training_images_prefix _ _ _ _ HS Hcls Hwalk Hgood).
  cbn [for_enumerate]. unfold mbind at 1. unfold M_bind at 1.
  erewrite (load_training_sample_wrong_size _ _ _ _ _ a t0 t1 c);
    [|done|done|done|done|done|done|reflexivity|].
  - eexists. split; [reflexivity|]. cbn. split; [done|].
    by rewrite <- app_assoc.
  - unfold loaded_images, zero_images.
    rewrite length_app, length_map, length_replicate. cbn. lia.
Qed.

Lemma wrong_size_image_raises_witness :
  ∃ w',
    load_training_images row_image_fs (fresh rgb_model) = (Raise ValueError, w')
    ∧ train_images (obj w')
      = Some (loaded_images rgb_model row_image_fs "train/" []
              ++ zero_images rgb_model 1)
    ∧ reads w' = [] ++ sample_paths "train/" [] ++ [image_path "train/" "a.png"].
Proof.
  apply (wrong_size_image_raises row_image_fs (fresh rgb_model) [] [] "a.png"
           row_image 1 3 3).
  - cbn. lia.
  - repeat constructor.
  - reflexivity.
  - constructor.
  - reflexivity.
  - repeat constructor.
  - lia.
  - lia.
  - cbn. lia.
  - right. cbn. lia.
Defined.

(** X16. An image file of a single pixel is not refused: the assignment
    stretches it over the whole slot, so after otherwise acceptable
    samples the load returns and the last entry of [train_images] is
    that pixel, cut to [IMG_CHANNELS] channels, repeated S x S times. *)
Theorem single_pixel_image_is_stretched (fs : FS) (w : world)
    (good : list string) (id_ : string) (px : list Z) :
  0 < IMG_SIZE (obj w) →
  Forall (λ c, length c.1 = IMG_CHANNELS (obj w)) (CLASSES (obj w)) →
  walk_files fs (PREPROCESSED_TRAIN_PATH (obj w) +:+ "images/")
    = Some (good ++ [id_]) →
  Forall (good_sample (obj w) fs (PREPROCESSED_TRAIN_PATH (obj w))) good →
  files fs !! image_path (PREPROCESSED_TRAIN_PATH (obj w)) id_
    = Some (Arr3 [[px]]) →
  IMG_CHANNELS (obj w) ≤ length px →
  good_mask (obj w) (files fs !! mask_path (PREPROCESSED_TRAIN_PATH (obj w)) id_) →
  ∃ w',
    load_training_images fs w = (Ok (), w')
    ∧ train_images (obj w')
      = Some (loaded_images (obj w) fs (PREPROCESSED_TRAIN_PATH (obj w)) good
              ++ [replicate (IMG_SIZE (obj w))
                    (replicate (IMG_SIZE (obj w))
                       (map np.uint8 (take (IMG_CHANNELS (obj w)) px)))]).
Proof.
  intros HS Hcls Hwalk Hgood Hf Hc Hmask.
  rewrite (load_training_images_prefix _ _ _ _ HS Hcls Hwalk Hgood).
  cbn [for_enumerate]. unfold mbind at 1. unfold M_bind at 1.
  erewrite (load_training_sample_pixel _ _ _ _ _ _ px);
    [|done|done|done|done|done|reflexivity| |reflexivity|].
  - eexists. split; [reflexivity|]. cbn. f_equal.
    unfold loaded_images, zero_images.
    rewrite insert_app_r_alt by (rewrite length_map; lia).
    by rewrite length_map, Nat.sub_diag.
  - unfold loaded_images, zero_images.
    rewrite length_app, length_map, length_replicate. cbn. lia.
  - unfold loaded_masks, zero_masks.
    rewrite length_app, length_map, length_replicate. cbn. lia.
Qed.

Lemma single_pixel_image_is_stretched_witness :
  ∃ w',
    load_training_images pixel_image_fs (fresh rgb_model) = (Ok (), w')
    ∧ train_images (obj w')
      = Some (loaded_images rgb_model pixel_image_fs "train/" []
              ++ [replicate 2 (replicate 2 (map np.uint8 (take 3 [7; 8; 9]%Z)))]).
Proof.
  apply (single_pixel_image_is_stretched pixel_image_fs (fresh rgb_model)
           [] "b.png" [7; 8; 9]%Z).
  - cbn. lia.
  - repeat constructor.
  - reflexivity.
  - constructor.
  - reflexivity.
  - cbn. lia.
  - exists rgb_mask. split; [reflexivity|repeat constructor].
Defined.

(** ** Loaders and decoder together *)

(** The mask files of the samples [ids]. *)
Lemma loaded_masks_decode (self : Unet2DModel) (fs : FS) root ids :
  0 < IMG_SIZE self → wf_classes self → CLASSES self ≠ [] →
  Forall (good_sample self fs root) ids →
  Forall (λ id_, Forall (Forall (λ px, px ∈ (CLASSES self).*1))
                   (the_array (files fs !! mask_path root id_))) ids →
  _predictions_to_mask self (loaded_masks self fs root ids)
  = Ok (map (λ id_, the_array (files fs !! mask_path root id_)) ids).
Proof.
  intros HS Hwf Hne Hgood Hcover.
  assert (Forall (λ id_, has_shape3 (IMG_SIZE self) (IMG_SIZE self)
                           (IMG_CHANNELS self)
                           (the_array (files fs !! mask_path root id_))) ids)
    as Hshape.
  { eapply Forall_impl; [exact Hgood|]. intros id_ [_ (m & -> & Hm)]. exact Hm. }
  rewrite (predictions_to_mask_traverse _ _ (IMG_SIZE self) (IMG_SIZE self)).
  - unfold loaded_masks. apply traverse_Forall2.
    apply Forall2_fmap. apply Forall_Forall2_diag.
    rewrite Forall_forall in Hshape, Hcover. apply Forall_forall.
    intros id_ Hin. by eapply decode_encoded; [| |apply Hshape|apply Hcover].
  - unfold loaded_masks. apply Forall_fmap.
    eapply Forall_impl; [exact Hshape|]. intros id_ [H0 H1]. simpl.
    split; [by rewrite length_map|].
    apply Forall_fmap. eapply Forall_impl; [exact H1|]. intros row [Hr _].
    simpl. by rewrite length_map.
Qed.

(** X17. The label planes a load leaves in [train_masks] still hold the
    masks: when every mask file of an acceptable directory is painted in
    class colors, [_predictions_to_mask] applied to [train_masks] after
    the load gives the mask files back, in listing order. *)
Theorem loaded_masks_decode_to_files (fs : FS) (w : world) (ids : list string) :
  0 < IMG_SIZE (obj w) → wf_classes (obj w) → CLASSES (obj w) ≠ [] →
  walk_files fs (PREPROCESSED_TRAIN_PATH (obj w) +:+ "images/") = Some ids →
  Forall (good_sample (obj w) fs (PREPROCESSED_TRAIN_PATH (obj w))) ids →
  Forall (λ id_, Forall (Forall (λ px, px ∈ (CLASSES (obj w)).*1))
                   (the_array (files fs !!
                      mask_path (PREPROCESSED_TRAIN_PATH (obj w)) id_))) ids →
  ∃ w' planes,
    load_training_images fs w = (Ok (), w')
    ∧ train_masks (obj w') = Some planes
    ∧ _predictions_to_mask (obj w') planes
      = Ok (map (λ id_, the_array (files fs !!
                   mask_path (PREPROCESSED_TRAIN_PATH (obj w)) id_)) ids).
Proof.
  intros HS Hwf Hne Hwalk Hgood Hcover.
  pose proof (wf_classes_lengths _ Hwf) as Hcls.
  rewrite <- (app_nil_r ids) in Hwalk.
  rewrite (load_training_images_prefix _ _ _ _ HS Hcls Hwalk Hgood).
  eexists _, _. split; [reflexivity|]. cbn [for_enumerate obj train_masks].
  split; [unfold set_train_masks; cbn; by rewrite app_nil_r|].
  set (o' := set_train_masks _ _).
  change (loaded_masks (obj w) fs (PREPROCESSED_TRAIN_PATH (obj w)) ids)
    with (loaded_masks o' fs (PREPROCESSED_TRAIN_PATH (obj w)) ids).
  change (CLASSES (obj w)) with (CLASSES o') in Hcover, Hne.
  by apply loaded_masks_decode.
Qed.

Lemma loaded_masks_decode_to_files_witness :
  ∃ w' planes,
    load_training_images wide_image_fs (fresh rgb_model) = (Ok (), w')
    ∧ train_masks (obj w') = Some planes
    ∧ _predictions_to_mask (obj w') planes
      = Ok (map (λ id_, the_array (files wide_image_fs !! mask_path "train/" id_))
              ["a.png"]).
Proof.
  apply (loaded_masks_decode_to_files wide_image_fs (fresh rgb_model) ["a.png"]).
  - cbn. lia.
  - repeat constructor; simpl; lia.
  - done.
  - reflexivity.
  - constructor; [|constructor]. split.
    + exists rgba_image, 4. split_and!; [reflexivity|repeat constructor|cbn; lia].
    + exists rgb_mask. split; [reflexivity|repeat constructor].
  - constructor; [|constructor].
    repeat (constructor; [repeat (constructor; [by apply (bool_decide_unpack _)|])|]);
      constructor.
Defined.

(** ** Metrics: symmetry, bounds and losses *)

Lemma traverse_ext {A B} (f g : A → result B) (l : list A) :
  (∀ x, f x = g x) → traverse f l = traverse g l.
Proof. intros Hfg. induction l as [|x l IH]; simpl; [done|]. by rewrite Hfg, IH. Qed.

Lemma traverse2_comm {A B C} (f : A → B → result C) (g : B → A → result C) xs ys :
  (∀ x y, f x y = g y x) → traverse2 f xs ys = traverse2 g ys xs.
Proof.
  intros Hfg. revert ys. induction xs as [|x xs IH]; intros [|y ys]; simpl; try done.
  by rewrite Hfg, IH.
Qed.

(** Broadcasting treats its two operands alike. *)
Lemma bzip_comm {A B C} (f : A → B → result C) (g : B → A → result C) xs ys :
  (∀ x y, f x y = g y x) → np.bzip f xs ys = np.bzip g ys xs.
Proof.
  intros Hfg. unfold np.bzip.
  destruct (decide (length xs = length ys)) as [Hl|Hl].
  - rewrite decide_True by done. by apply traverse2_comm.
  - rewrite decide_False by done.
    destruct xs as [|x [|x' xs]], ys as [|y [|y' ys]]; cbn [length] in Hl;
      cbv beta iota; try done; apply traverse_ext; intros; by rewrite Hfg.
Qed.

Lemma K_mul_comm (a b : Batch) : K.mul a b = K.mul b a.
Proof.
  unfold K.mul. repeat (apply bzip_comm; intros).
  by rewrite Qcmult_comm.
Qed.

Lemma K_add_comm (a b : list Qc) : K.add a b = K.add b a.
Proof. unfold K.add. apply bzip_comm. intros. by rewrite Qcplus_comm. Qed.

(** X18. Both coefficients are symmetric in their arguments, on all
    tensors, those that broadcast or are refused included: swapping the
    true planes and the prediction changes neither the value nor the
    error. *)
Theorem coefficients_symmetric (y_true y_pred : Batch) (smooth : Qc) :
  iou_coef y_true y_pred smooth = iou_coef y_pred y_true smooth
  ∧ dice_coef y_true y_pred smooth = dice_coef y_pred y_true smooth.
Proof.
  unfold iou_coef, dice_coef.
  by rewrite (K_mul_comm y_true y_pred),
    (K_add_comm (K.sum_123 y_true) (K.sum_123 y_pred)).
Qed.

(** Order facts on [Qc] are settled on the underlying rationals. *)
Ltac qc_to_q :=
  repeat (unfold Qcle, Qclt, Qcplus, Qcmult, Qcminus, Qcopp in *;
          cbn [this Q2Qc] in *; rewrite ?Qred_correct in * );
  repeat match goal with
         | H : context [Qred _] |- _ => rewrite !Qred_correct in H
         end.

Lemma Qc_pos_neq (x : Qc) : (0 < x)%Qc → x ≠ 0%Qc.
Proof. intros H. by apply not_symmetry, Qclt_not_eq. Qed.

Lemma Qcdiv_nonneg (x y : Qc) : (0 ≤ x)%Qc → (0 < y)%Qc → (0 ≤ x / y)%Qc.
Proof.
  intros Hx Hy. apply Qcmult_nonneg_nonneg; [done|].
  by apply Qclt_le_weak, Qcinv_pos.
Qed.

Lemma Qcdiv_le_1 (x y : Qc) : (0 < y)%Qc → (x ≤ y)%Qc → (x / y ≤ 1)%Qc.
Proof.
  intros Hy Hxy. apply (Qcmult_lt_0_le_reg_r _ _ y); [done|].
  replace (x / y * y)%Qc with x by (field; by apply Qc_pos_neq).
  by rewrite Qcmult_1_l.
Qed.

(** The two ratios of one sample, from its overlap [i] and its plane
    sums [a] and [b]. *)
Lemma ratios_bounded (i a b s : Qc) :
  (0 ≤ i)%Qc → (i ≤ a)%Qc → (i ≤ b)%Qc → (0 < s)%Qc →
  (0 < a + b - i + s)%Qc ∧ (0 < a + b + s)%Qc
  ∧ ((0 ≤ (i + s) / (a + b - i + s))%Qc
     ∧ ((i + s) / (a + b - i + s) ≤ 1)%Qc)
  ∧ ((0 ≤ (2 * i + s) / (a + b + s))%Qc
     ∧ ((2 * i + s) / (a + b + s) ≤ 1)%Qc).
Proof.
  intros Hi Ha Hb Hs.
  assert (0 < a + b - i + s)%Qc as Hden1 by (qc_to_q; lra).
  assert (0 < a + b + s)%Qc as Hden2 by (qc_to_q; lra).
  split_and!; [done|done|..].
  - apply Qcdiv_nonneg; [|done]. qc_to_q; lra.
  - apply Qcdiv_le_1; [done|]. qc_to_q. lra.
  - apply Qcdiv_nonneg; [|done]. qc_to_q; lra.
  - apply Qcdiv_le_1; [done|]. qc_to_q. lra.
Qed.

Lemma map_zip_with {A B C D} (g : C → D) (h : A → B → C) xs ys :
  map g (zip_with h xs ys) = zip_with (λ x y, g (h x y)) xs ys.
Proof.
  revert ys. induction xs as [|x xs IH]; intros [|y ys]; simpl; [done..|].
  by rewrite IH.
Qed.

Lemma Forall2_Forall_both {A B} (P : A → Prop) (Q : B → Prop)
    (R : A → B → Prop) xs ys :
  Forall P xs → Forall Q ys → Forall2 R xs ys →
  Forall2 (λ x y, P x ∧ Q y ∧ R x y) xs ys.
Proof.
  intros HP HQ HR. induction HR as [|x y xs ys Hxy _ IH]; [constructor|].
  apply Forall_cons in HP as [Hx HP]. apply Forall_cons in HQ as [Hy HQ].
  constructor; auto.
Qed.

(** Sums of pairwise overlaps lie between zero and either sum. *)
Lemma sum1_zip_bounds {A B} (R : A → B → Prop) (ov : A → B → Qc)
    (sa : A → Qc) (sb : B → Qc) xs ys :
  (∀ x y, R x y → (0 ≤ ov x y)%Qc ∧ (ov x y ≤ sa x)%Qc ∧ (ov x y ≤ sb y)%Qc) →
  Forall2 R xs ys →
  (0 ≤ K.sum1 (zip_with ov xs ys))%Qc
  ∧ (K.sum1 (zip_with ov xs ys) ≤ K.sum1 (map sa xs))%Qc
  ∧ (K.sum1 (zip_with ov xs ys) ≤ K.sum1 (map sb ys))%Qc.
Proof.
  intros Hov HR. induction HR as [|x y xs ys Hxy _ (IH0 & IHa & IHb)]; simpl.
  - split_and!; apply Qcle_refl.
  - destruct (Hov _ _ Hxy) as (H0 & Ha & Hb).
    unfold K.sum1 in *. split_and!; qc_to_q; lra.
Qed.

Lemma Forall2_of_Forall {A B} (P : A → Prop) (Q : B → Prop) xs ys :
  Forall P xs → Forall Q ys → length xs = length ys →
  Forall2 (λ x y, P x ∧ Q y) xs ys.
Proof.
  intros HP. revert ys. induction HP as [|x xs Hx _ IH]; intros [|y ys] HQ Hl;
    simpl in Hl; try lia; constructor.
  - apply Forall_cons in HQ as [Hy _]. done.
  - apply Forall_cons in HQ as [_ HQ]. apply IH; [done|lia].
Qed.

Lemma overlap_entry (x y : Qc) :
  ((0 ≤ x)%Qc ∧ (x ≤ 1)%Qc) ∧ ((0 ≤ y)%Qc ∧ (y ≤ 1)%Qc) →
  (0 ≤ x * y)%Qc ∧ (x * y ≤ id x)%Qc ∧ (x * y ≤ id y)%Qc.
Proof.
  intros [[Hx0 Hx1] [Hy0 Hy1]]. unfold id. split_and!; qc_to_q; nra.
Qed.

(** The overlap of two samples of the same shape with entries in [0, 1]
    lies between zero and the sum of either. *)
Lemma sample_overlap_bounds (s1 s2 : list (list (list Qc))) :
  Forall (Forall (Forall (λ x, (0 ≤ x)%Qc ∧ (x ≤ 1)%Qc))) s1 →
  Forall (Forall (Forall (λ x, (0 ≤ x)%Qc ∧ (x ≤ 1)%Qc))) s2 →
  Forall2 (Forall2 (λ r1 r2 : list Qc, length r1 = length r2)) s1 s2 →
  let overlap :=
    K.sum1 (map (λ row, K.sum1 (map K.sum1 row))
              (zip_with (zip_with (zip_with Qcmult)) s1 s2)) in
  (0 ≤ overlap)%Qc
  ∧ (overlap ≤ K.sum1 (map (λ row, K.sum1 (map K.sum1 row)) s1))%Qc
  ∧ (overlap ≤ K.sum1 (map (λ row, K.sum1 (map K.sum1 row)) s2))%Qc.
Proof.
  intros H1 H2 Hs. cbv zeta. rewrite map_zip_with.
  eapply sum1_zip_bounds; [|exact (Forall2_Forall_both _ _ _ _ _ H1 H2 Hs)].
  intros p1 p2 (Hp1 & Hp2 & Hp). cbv beta. rewrite map_zip_with.
  eapply sum1_zip_bounds; [|exact (Forall2_Forall_both _ _ _ _ _ Hp1 Hp2 Hp)].
  intros r1 r2 (Hr1 & Hr2 & Hr). cbv beta.
  pose proof (sum1_zip_bounds _ Qcmult id id r1 r2
                (λ x y (H : ((0 ≤ x)%Qc ∧ (x ≤ 1)%Qc) ∧ ((0 ≤ y)%Qc ∧ (y ≤ 1)%Qc)),
                   overlap_entry x y H)
                (Forall2_of_Forall _ _ _ _ Hr1 Hr2 Hr)) as Hrow.
  by rewrite !map_id in Hrow.
Qed.

Lemma mul_same_shape (a b : Batch) :
  same_shape a b →
  K.mul a b = Ok (zip_with (zip_with (zip_with (zip_with Qcmult))) a b).
Proof.
  intros Hs. unfold K.mul. apply bzip_Forall2.
  eapply Forall2_impl; [exact Hs|]. intros s1 s2 Hs12. cbv beta.
  apply bzip_Forall2.
  eapply Forall2_impl; [exact Hs12|]. intros p1 p2 Hp. cbv beta.
  apply bzip_Forall2.
  eapply Forall2_impl; [exact Hp|]. intros r1 r2 Hr. cbv beta.
  by apply bzip_same_length.
Qed.

(** The ratios of the two coefficients, sample by sample. *)
Lemma ratio_lists (ov : list Qc) (sa sb : list Qc) (s : Qc) :
  (0 < s)%Qc →
  Forall2 (λ i ab, (0 ≤ i)%Qc ∧ (i ≤ ab.1)%Qc ∧ (i ≤ ab.2)%Qc) ov (zip sa sb) →
  length sa = length sb →
  ∃ qi qd,
    zip_with fdiv (map (λ i, i + s)%Qc ov)
      (map (λ u, u + s)%Qc (zip_with Qcminus (zip_with Qcplus sa sb) ov))
    = map Fin qi
    ∧ zip_with fdiv (map (λ i, 2 * i + s)%Qc ov)
        (map (λ u, u + s)%Qc (zip_with Qcplus sa sb))
      = map Fin qd
    ∧ length qi = length ov ∧ length qd = length ov
    ∧ Forall (λ q, (0 ≤ q)%Qc ∧ (q ≤ 1)%Qc) qi
    ∧ Forall (λ q, (0 ≤ q)%Qc ∧ (q ≤ 1)%Qc) qd.
Proof.
  intros Hs. revert sa sb.
  induction ov as [|i ov IH]; intros sa sb Hb Hl.
  - exists [], []. by split_and!; try constructor.
  - destruct sa as [|a sa], sb as [|b sb]; simpl in Hl; try lia;
      [by apply Forall2_cons_nil_inv in Hb|].
    simpl in Hb. apply Forall2_cons in Hb as [(Hi & Ha & Hb0) Hb].
    simpl in Ha, Hb0.
    destruct (IH sa sb Hb ltac:(lia)) as (qi & qd & Ei & Ed & Li & Ld & Pi & Pd).
    destruct (ratios_bounded i a b s Hi Ha Hb0 Hs) as (D1 & D2 & R1 & R2).
    exists (((i + s) / (a + b - i + s))%Qc :: qi),
           (((2 * i + s) / (a + b + s))%Qc :: qd).
    simpl. rewrite Ei, Ed, Li, Ld.
    rewrite !fdiv_finite by by apply Qc_pos_neq.
    split_and!; try done; by constructor.
Qed.

Lemma sum1_le_length (xs : list Qc) :
  Forall (λ q, (q ≤ 1)%Qc) xs →
  (K.sum1 xs ≤ Qc_of_Z (Z.of_nat (length xs)))%Qc.
Proof.
  induction 1 as [|x xs Hx _ IH]; [unfold Qcle, Qle; simpl; lia|].
  cbn [length K.sum1 foldr]. fold (K.sum1 xs).
  replace (Qc_of_Z (Z.of_nat (S (length xs))))
    with (1 + Qc_of_Z (Z.of_nat (length xs)))%Qc.
  - by apply Qcplus_le_compat.
  - apply Qc_is_canon. rewrite Nat2Z.inj_succ. unfold Z.succ.
    simpl. unfold Qeq. simpl. rewrite !Qred_correct. unfold Qeq; simpl. lia.
Qed.

(** The mean of finitely many values between 0 and 1 is finite and lies
    between 0 and 1. *)
Lemma mean_unit (qs : list Qc) :
  qs ≠ [] → Forall (λ q, (0 ≤ q)%Qc ∧ (q ≤ 1)%Qc) qs →
  ∃ q, K.mean (map Fin qs) = Fin q ∧ (0 ≤ q)%Qc ∧ (q ≤ 1)%Qc.
Proof.
  intros Hne Hqs. unfold K.mean. rewrite foldr_fadd_Fin, length_map.
  assert (0 < Qc_of_Z (Z.of_nat (length qs)))%Qc as Hm.
  { apply Qc_of_nat_pos. destruct qs; [done|simpl; lia]. }
  rewrite fdiv_finite by by apply Qc_pos_neq.
  eexists. split_and!; [reflexivity|..].
  - apply Qcdiv_nonneg; [|done]. apply sum1_nonneg.
    eapply Forall_impl; [exact Hqs|]. by intros q [? _].
  - apply Qcdiv_le_1; [done|]. apply sum1_le_length.
    eapply Forall_impl; [exact Hqs|]. by intros q [_ ?].
Qed.

Lemma batch_overlap_bounds (y_true y_pred : Batch) :
  unit_range y_true → unit_range y_pred → same_shape y_true y_pred →
  Forall2 (λ i ab, (0 ≤ i)%Qc ∧ (i ≤ ab.1)%Qc ∧ (i ≤ ab.2)%Qc)
    (K.sum_123 (zip_with (zip_with (zip_with (zip_with Qcmult))) y_true y_pred))
    (zip (K.sum_123 y_true) (K.sum_123 y_pred)).
Proof.
  intros Ht Hp Hs. unfold unit_range in *.
  induction Hs as [|s1 s2 yt yp Hs12 _ IH]; [constructor|].
  apply Forall_cons in Ht as [Ht1 Ht]. apply Forall_cons in Hp as [Hp1 Hp].
  cbn [zip_with K.sum_123 map zip]. constructor; [|by apply IH].
  cbn [fst snd]. by apply sample_overlap_bounds.
Qed.

(** On tensors of one shape with entries in [0, 1] and with a positive
    smoothing constant both coefficients are finite means of finite
    ratios. *)
Lemma coefficient_values (y_true y_pred : Batch) (smooth : Qc) :
  unit_range y_true → unit_range y_pred → same_shape y_true y_pred →
  (0 < smooth)%Qc →
  ∃ qi qd,
    iou_coef y_true y_pred smooth = Ok (K.mean (map Fin qi))
    ∧ dice_coef y_true y_pred smooth = Ok (K.mean (map Fin qd))
    ∧ length qi = length y_true ∧ length qd = length y_true
    ∧ Forall (λ q, (0 ≤ q)%Qc ∧ (q ≤ 1)%Qc) qi
    ∧ Forall (λ q, (0 ≤ q)%Qc ∧ (q ≤ 1)%Qc) qd.
Proof.
  intros Ht Hp Hs Hsm.
  pose proof (batch_overlap_bounds _ _ Ht Hp Hs) as Hb.
  assert (length (K.sum_123 y_true) = length (K.sum_123 y_pred)) as Hl.
  { unfold K.sum_123. rewrite !length_map. by eapply Forall2_length. }
  destruct (ratio_lists _ _ _ smooth Hsm Hb Hl)
    as (qi & qd & Ei & Ed & Li & Ld & Pi & Pd).
  assert (length (K.sum_123
            (zip_with (zip_with (zip_with (zip_with Qcmult))) y_true y_pred))
          = length y_true) as Hlo.
  { unfold K.sum_123. rewrite length_map, length_zip_with.
    apply Forall2_length in Hs. lia. }
  assert (length (K.sum_123 y_true) = length y_true) as Hlt
    by (unfold K.sum_123; by rewrite length_map).
  exists qi, qd. split_and!; try done; try congruence.
  - unfold iou_coef. rewrite mul_same_shape by done. cbn [mbind result_bind].
    unfold K.add, K.sub, K.div.
    rewrite (bzip_zip_with _ Qcplus) by done. simpl.
    rewrite (bzip_zip_with _ Qcminus)
      by (by rewrite ?length_zip_with; try lia). simpl.
    rewrite (bzip_zip_with _ fdiv)
      by (by rewrite ?length_map, ?length_zip_with; try lia). simpl.
    by rewrite Ei.
  - unfold dice_coef. rewrite mul_same_shape by done. cbn [mbind result_bind].
    unfold K.add, K.div.
    rewrite (bzip_zip_with _ Qcplus) by done. simpl.
    rewrite (bzip_zip_with _ fdiv)
      by (by rewrite ?length_map, ?length_zip_with; try lia). simpl.
    by rewrite Ed.
Qed.

Lemma one_minus_unit (q : Qc) :
  (0 ≤ q)%Qc → (q ≤ 1)%Qc → (0 ≤ 1 - q)%Qc ∧ (1 - q ≤ 1)%Qc.
Proof. intros H0 H1. split; qc_to_q; lra. Qed.



(** X20. Both losses vanish on a perfect prediction: on a non-empty
    batch of 0/1 planes compared with itself, every sample having a
    positive smoothed plane sum, [iou_coef_loss] and [dice_coef_loss]
    are 0. *)
Theorem losses_vanish_on_identical_planes (y : Batch) (smooth : Qc) :
  binary y → y ≠ [] →
  Forall (λ s, (0 < s + smooth)%Qc) (K.sum_123 y) →
  iou_coef_loss y y smooth = Ok (Fin 0%Qc)
  ∧ dice_coef_loss y y smooth = Ok (Fin 0%Qc).
Proof.
  intros Hbin Hne Hpos. unfold iou_coef_loss, dice_coef_loss.
  rewrite iou_coef_identical, dice_coef_identical by done. simpl.
  split; f_equal; by apply Qc_is_canon.
Qed.

Lemma losses_vanish_on_identical_planes_witness :
  iou_coef_loss disjoint_true disjoint_true 1%Qc = Ok (Fin 0%Qc)
  ∧ dice_coef_loss disjoint_true disjoint_true 1%Qc = Ok (Fin 0%Qc).
Proof.
  apply (losses_vanish_on_identical_planes disjoint_true 1%Qc).
  - repeat first [apply Forall_nil_2 | apply Forall_cons_2 | by left | by right].
  - done.
  - repeat constructor.
Defined.

(** ** Decoder: only the order of the entries matters *)

Section monotone.
Context `{np.Order A} `{np.Order B} (f : A → B).
Context (Hf : ∀ a b, np.lt (f a) (f b) = np.lt a b).

Lemma argmax_scan_map (l : list A) :
  ∀ mp mi i, np.argmax_scan (f mp) mi i (map f l) = np.argmax_scan mp mi i l.
Proof using Hf.
  induction l as [|x l IH]; intros mp mi i; simpl; [done|].
  rewrite Hf. destruct (np.lt mp x); apply IH.
Qed.

Lemma argmax_map (l : list A) : np.argmax (map f l) = np.argmax l.
Proof using Hf.
  destruct l as [|x l]; simpl; [done|]. by rewrite argmax_scan_map.
Qed.

Lemma traverse_map {X Y Z} (g : Y → result Z) (h : X → Y) (l : list X) :
  traverse g (map h l) = traverse (λ x, g (h x)) l.
Proof. induction l as [|x l IH]; simpl; [done|]. by rewrite IH. Qed.

Lemma argmax_last_map (prediction : list (list (list A))) :
  np.argmax_last (map (map (map f)) prediction) = np.argmax_last prediction.
Proof using Hf.
  unfold np.argmax_last. rewrite traverse_map. apply traverse_ext. intros row.
  rewrite traverse_map. apply traverse_ext. intros v. apply argmax_map.
Qed.

End monotone.

Lemma shape2_map {X Y} (g : list X → list Y) (a : list (list X)) :
  (∀ row, length (g row) = length row) →
  np.shape2 (map g a) = np.shape2 a.
Proof.
  intros Hg. unfold np.shape2. rewrite length_map.
  destruct a as [|row rest]; simpl; [done|]. by rewrite Hg.
Qed.

(** X22. The decoder reads nothing but the order of the entries of each
    class vector: applying one order-preserving map to every entry of a
    prediction changes neither the decoded mask nor the error. In
    particular boolean label planes decode like their 0/1 float
    version. *)
Theorem decoder_sees_order_only `{np.Order A} `{np.Order B} (f : A → B)
    (self : Unet2DModel) (prediction : list (list (list A))) :
  (∀ a b, np.lt (f a) (f b) = np.lt a b) →
  _prediction_to_mask self (map (map (map f)) prediction)
  = _prediction_to_mask self prediction.
Proof.
  intros Hf. unfold _prediction_to_mask.
  rewrite (argmax_last_map f Hf).
  rewrite shape2_map by (intros row; apply length_map).
  reflexivity.
Qed.

Lemma decoder_sees_order_only_witness :
  _prediction_to_mask rgb_model
    (map (map (map as_float)) [[[false; true; false]; [true; false; false]]])
  = _prediction_to_mask rgb_model [[[false; true; false]; [true; false; false]]].
Proof.
  apply (decoder_sees_order_only as_float rgb_model
           [[[false; true; false]; [true; false; false]]]).
  intros [] []; reflexivity.
Defined.

(** X23. A labeled test directory of acceptable samples: the load
    returns, [test_images] and [test_masks] hold the stored images and
    the class vectors of the mask pixels in listing order, every file
    has been read once, each image just before its mask, and nothing
    else of the object has changed. *)
Theorem testing_load_of_labeled_directory (fs : FS) (w : world)
    (ids : list string) :
  0 < IMG_SIZE (obj w) →
  Forall (λ c, length c.1 = IMG_CHANNELS (obj w)) (CLASSES (obj w)) →
  truthy (IS_TEST_DATA_LABELED (obj w)) = true →
  walk_files fs (PREPROCESSED_TEST_PATH (obj w) +:+ "images/") = Some ids →
  Forall (good_sample (obj w) fs (PREPROCESSED_TEST_PATH (obj w))) ids →
  load_testing_images fs w
  = (Ok (),
     {| obj :=
          set_test_masks
            (loaded_masks (obj w) fs (PREPROCESSED_TEST_PATH (obj w)) ids)
            (set_test_images
               (loaded_images (obj w) fs (PREPROCESSED_TEST_PATH (obj w)) ids)
               (obj w));
        reads := reads w ++ sample_paths (PREPROCESSED_TEST_PATH (obj w)) ids |}).
Proof.
  intros HS Hcls Hflag Hwalk Hgood.
  rewrite <- (app_nil_r ids) in Hwalk.
  rewrite (load_testing_images_prefix _ _ _ _ HS Hcls Hflag Hwalk Hgood).
  cbn. by rewrite !app_nil_r.
Qed.

Lemma testing_load_of_labeled_directory_witness :
  load_testing_images wide_image_fs (fresh rgb_model_labeled)
  = (Ok (),
     {| obj :=
          set_test_masks
            (loaded_masks rgb_model_labeled wide_image_fs "test/" ["a.png"])
            (set_test_images
               (loaded_images rgb_model_labeled wide_image_fs "test/" ["a.png"])
               rgb_model_labeled);
        reads := [] ++ sample_paths "test/" ["a.png"] |}).
Proof.
  apply (testing_load_of_labeled_directory wide_image_fs
           (fresh rgb_model_labeled) ["a.png"]).
  - cbn. lia.
  - repeat constructor.
  - reflexivity.
  - reflexivity.
  - constructor; [|constructor]. split.
    + exists rgba_image, 4. split_and!; [reflexivity|repeat constructor|cbn; lia].
    + exists rgb_mask. split; [reflexivity|repeat constructor].
Defined.

(** ** Loaders: the check on the number of axes *)

Lemma load_training_sample_two_axes (fs : FS) (w : world) n id_ g :
  files fs !! image_path (PREPROCESSED_TRAIN_PATH (obj w)) id_ = Some (Arr2 g) →
  load_training_sample fs n id_ w
  = (Raise IndexError,
     {| obj := obj w;
        reads := reads w ++ [image_path (PREPROCESSED_TRAIN_PATH (obj w)) id_] |}).
Proof.
  intros Hf. unfold load_training_sample. run_M.
  unfold image_path in Hf. by rewrite Hf.
Qed.

Lemma load_testing_sample_two_axes (fs : FS) (w : world) n id_ g :
  files fs !! image_path (PREPROCESSED_TEST_PATH (obj w)) id_ = Some (Arr2 g) →
  load_testing_sample fs n id_ w
  = (Raise IndexError,
     {| obj := obj w;
        reads := reads w ++ [image_path (PREPROCESSED_TEST_PATH (obj w)) id_] |}).
Proof.
  intros Hf. unfold load_testing_sample. run_M.
  unfold image_path in Hf. by rewrite Hf.
Qed.

(** X24. The test [len(img.shape) == 2] never fires for an image: a
    two-axis (grayscale) image file makes the slice with three indices
    raise numpy's [IndexError] first, so the invalid-channel error is
    never the one raised for it. This holds for either loader on its own
    directory, after any prefix of samples the loader accepts, and the
    arrays keep the samples loaded before that file. *)
Theorem two_axis_image_raises_index_error (fs : FS) (w : world)
    (good rest : list string) (id_ : string) :
  0 < IMG_SIZE (obj w) →
  Forall (λ c, length c.1 = IMG_CHANNELS (obj w)) (CLASSES (obj w)) →
  (∀ g,
     walk_files fs (PREPROCESSED_TRAIN_PATH (obj w) +:+ "images/")
       = Some (good ++ id_ :: rest) →
     Forall (good_sample (obj w) fs (PREPROCESSED_TRAIN_PATH (obj w))) good →
     files fs !! image_path (PREPROCESSED_TRAIN_PATH (obj w)) id_
       = Some (Arr2 g) →
     ∃ w',
       load_training_images fs w = (Raise IndexError, w')
       ∧ train_images (obj w')
         = Some (loaded_images (obj w) fs (PREPROCESSED_TRAIN_PATH (obj w)) good
                 ++ zero_images (obj w) (S (length rest)))
       ∧ train_masks (obj w')
         = Some (loaded_masks (obj w) fs (PREPROCESSED_TRAIN_PATH (obj w)) good
                 ++ zero_masks (obj w) (S (length rest))))
  ∧ (∀ g,
       walk_files fs (PREPROCESSED_TEST_PATH (obj w) +:+ "images/")
         = Some (good ++ id_ :: rest) →
       Forall (λ id', good_image (obj w)
                 (files fs !! image_path (PREPROCESSED_TEST_PATH (obj w)) id'))
         good →
       (truthy (IS_TEST_DATA_LABELED (obj w)) = true →
        Forall (λ id', good_mask (obj w)
                  (files fs !! mask_path (PREPROCESSED_TEST_PATH (obj w)) id'))
          good) →
       files fs !! image_path (PREPROCESSED_TEST_PATH (obj w)) id_
         = Some (Arr2 g) →
       ∃ w',
         load_testing_images fs w = (Raise IndexError, w')
         ∧ test_images (obj w')
           = Some (loaded_images (obj w) fs (PREPROCESSED_TEST_PATH (obj w)) good
                   ++ zero_images (obj w) (S (length rest)))).
Proof.
  intros HS Hcls. split.
  - intros g Hwalk Hgood Hf.
    rewrite (load_training_images_prefix _ _ _ _ HS Hcls Hwalk Hgood).
    cbn [for_enumerate]. unfold mbind at 1. unfold M_bind at 1.
    erewrite load_training_sample_two_axes by exact Hf.
    eexists. by split_and!.
  - intros g Hwalk Hgood Hmasks Hf.
    destruct (truthy (IS_TEST_DATA_LABELED (obj w))) eqn:Hflag.
    + assert (Forall (good_sample (obj w) fs (PREPROCESSED_TEST_PATH (obj w))) good)
        as Hsamples.
      { specialize (Hmasks eq_refl). rewrite Forall_forall in Hgood, Hmasks.
        apply Forall_forall. intros id' Hin. split; auto. }
      rewrite (load_testing_images_prefix _ _ _ _ HS Hcls Hflag Hwalk Hsamples).
      cbn [for_enumerate]. unfold mbind at 1. unfold M_bind at 1.
      erewrite load_testing_sample_two_axes by exact Hf.
      eexists. by split_and!.
    + rewrite (load_testing_images_prefix_unlabeled _ _ _ _ HS Hflag Hwalk Hgood).
      cbn [for_enumerate]. unfold mbind at 1. unfold M_bind at 1.
      erewrite load_testing_sample_two_axes by exact Hf.
      eexists. by split_and!.
Qed.

Lemma two_axis_image_raises_index_error_witness :
  (∃ w',
     load_training_images gray_image_fs (fresh rgb_model) = (Raise IndexError, w')
     ∧ train_images (obj w')
       = Some (loaded_images rgb_model gray_image_fs "train/" []
               ++ zero_images rgb_model 1)
     ∧ train_masks (obj w')
       = Some (loaded_masks rgb_model gray_image_fs "train/" []
               ++ zero_masks rgb_model 1))
  ∧ (∃ w',
       load_testing_images gray_test_fs (fresh rgb_model) = (Raise IndexError, w')
       ∧ test_images (obj w')
         = Some (loaded_images rgb_model gray_test_fs "test/" ["a.png"]
                 ++ zero_images rgb_model 1)).
Proof.
  split.
  - apply (proj1 (two_axis_image_raises_index_error gray_image_fs
                    (fresh rgb_model) [] [] "a.png"
                    ltac:(cbn; lia) ltac:(repeat constructor)) gray_image).
    + reflexivity.
    + constructor.
    + reflexivity.
  - apply (proj2 (two_axis_image_raises_index_error gray_test_fs
                    (fresh rgb_model) ["a.png"] [] "b.png"
                    ltac:(cbn; lia) ltac:(repeat constructor)) gray_image).
    + reflexivity.
    + constructor; [|constructor].
      exists rgb_mask, 3. split_and!; [reflexivity|repeat constructor|cbn; lia].
    + intros Hflag. discriminate Hflag.
    + reflexivity.
Defined.

(** ** Codec: a color with the wrong number of channels *)

Lemma mul_tuple_refuses (self : Unet2DModel) (color : Color) :
  0 < IMG_SIZE self →
  length color ≠ IMG_CHANNELS self → length color ≠ 1 → IMG_CHANNELS self ≠ 1 →
  np.mul_tuple color (ones self) = Raise ValueError.
Proof.
  intros HS Hc H1 HC. unfold np.mul_tuple, ones, np.full3, np.full2, np.full1.
  destruct (IMG_SIZE self) as [|n]; [lia|]. cbn [replicate traverse].
  assert (np.bzip (λ x y, Ok (x * y)%Z) color (replicate (IMG_CHANNELS self) 1%Z)
          = Raise ValueError) as ->; [|done].
  unfold np.bzip. rewrite decide_False by by rewrite length_replicate.
  destruct color as [|x [|x' color]]; [|done|].
  - by destruct (IMG_CHANNELS self) as [|[|c]].
  - by destruct (IMG_CHANNELS self) as [|[|c]].
Qed.

Lemma mask_to_classes_loop_app (self : Unet2DModel) (mask : Image) cls1 cls2 :
  ∀ i classes,
    mask_to_classes_loop self mask i (cls1 ++ cls2) classes
    = (classes' ← mask_to_classes_loop self mask i cls1 classes;
       mask_to_classes_loop self mask (i + length cls1) cls2 classes').
Proof.
  induction cls1 as [|[c lbl] cls1 IH]; intros i classes; simpl.
  - by rewrite Nat.add_0_r.
  - destruct (np.mul_tuple c (ones self)) as [painted|]; simpl; [|done].
    destruct (np.equal mask painted) as [eq|]; simpl; [|done].
    destruct (setitem2 _ _ i _ classes) as [classes1|]; simpl; [|done].
    rewrite IH. by rewrite Nat.add_succ_r.
Qed.

Lemma prediction_to_mask_loop_refuses channels idxs good color lbl rest :
  Forall (λ c : Color * string, length c.1 = channels) good →
  length color ≠ channels → length color ≠ 1 →
  ∀ cn mask,
    prediction_to_mask_loop channels idxs cn (good ++ (color, lbl) :: rest) mask
    = Raise ValueError.
Proof.
  intros Hgood Hc H1.
  induction Hgood as [|[k l] good Hk _ IH]; intros cn mask; simpl.
  - unfold setitem_where. by rewrite bcast_to_refuses.
  - unfold setitem_where. rewrite bcast_to_same by done. simpl. apply IH.
Qed.

(** X25. A class color with the wrong number of channels (neither
    [IMG_CHANNELS] nor 1) is found at the first use of the codec: after
    well-formed colors before it, [mask_to_classes] raises [ValueError]
    on every mask of the configured shape, and [_prediction_to_mask]
    raises [ValueError] on every prediction without empty class
    vectors. *)
Theorem wrong_color_length_raises `{np.Order A} (self : Unet2DModel)
    (good rest : list (Color * string)) (color : Color) (lbl : string)
    (mask : Image) (prediction : list (list (list A))) :
  CLASSES self = good ++ (color, lbl) :: rest →
  Forall (λ c, length c.1 = IMG_CHANNELS self) good →
  length color ≠ IMG_CHANNELS self → length color ≠ 1 →
  0 < IMG_SIZE self → IMG_CHANNELS self ≠ 1 →
  has_shape3 (IMG_SIZE self) (IMG_SIZE self) (IMG_CHANNELS self) mask →
  Forall (Forall (λ v : list A, v ≠ [])) prediction →
  mask_to_classes self mask = Raise ValueError
  ∧ _prediction_to_mask self prediction = Raise ValueError.
Proof.
  intros Hcls Hgood Hc H1 HS HC Hm Hne. split.
  - unfold mask_to_classes. rewrite Hcls, mask_to_classes_loop_app.
    rewrite mask_to_classes_loop_spec; [|done|done|].
    + simpl. by rewrite mul_tuple_refuses.
    + unfold np.full3. rewrite length_replicate. unfold NUM_CLASSES.
      rewrite Hcls, length_app. simpl. lia.
  - unfold _prediction_to_mask.
    destruct (np.shape2 prediction) as [d0 d1].
    destruct (traverse_all_Ok (traverse np.argmax) prediction) as [idxs Hidxs].
    { eapply Forall_impl; [exact Hne|]. intros row Hrow. simpl.
      apply traverse_all_Ok. eapply Forall_impl; [exact Hrow|].
      intros v Hv. simpl. destruct v; [done|]. by eexists. }
    unfold np.argmax_last. rewrite Hidxs. simpl.
    rewrite Hcls. by apply prediction_to_mask_loop_refuses.
Qed.

Lemma wrong_color_length_raises_witness :
  mask_to_classes short_color_model rgb_mask = Raise ValueError
  ∧ _prediction_to_mask short_color_model tied_prediction = Raise ValueError.
Proof.
  apply (wrong_color_length_raises short_color_model
           [([0; 0; 0]%Z, "background")] [] [255; 0]%Z "liver"
           rgb_mask tied_prediction).
  - reflexivity.
  - repeat constructor.
  - cbn. lia.
  - cbn. lia.
  - cbn. lia.
  - cbn. lia.
  - repeat constructor.
  - by repeat constructor.
Defined.
